(** * Alarm manager: alarm rules, evaluation and monitoring tick

    A shallow embedding of [alarm_manager.py] (class [AlarmManager], the body
    of [AlarmMonitorThread.run]) and of the parts of [core_features.py] it
    calls ([log_event], [get_system_usage], [get_log_history],
    [send_alert_email]).

    Conventions of the embedding.
    - A Python value that the code treats dynamically (the arguments of
      [add_alarm], the argument of [remove_alarm]) is a [pyval].
    - A number read from a usage dictionary is a [pynum]: a Python [int] or a
      finite Python [float]; a finite float is a rational number and Python
      compares an int with a float exactly, so floats are embedded in [Q].
    - The manager object, [alarms.json] and the log file are fields of one
      [state] record that every operation threads through.
    - Everything outside the program (wall clock, [psutil], the file system,
      SMTP, [uuid4]) is read from a [world] record, one per call.
    - A log line is represented by the template of its message and the values
      interpolated into it ([event]); the time stamp of the line is left out.
    - Each event is one line of the log file, so the log count of a tick is
      the number of events logged so far.
    - One tick, or one administrative call, runs without interleaving
      ([run_tick], [step]), and the clock does not pass the hour within it.
      The one interleaving followed further is a call that runs inside a
      pass between the reading of the rules, under the lock, and
      [_trigger_alarm], outside it ([check_resource_during]).
    - A failed write of [alarms.json] fails at [open] or after it; after it,
      mode ['w'] has already emptied the file. *)

From Stdlib Require Import ZArith QArith List String Ascii Bool Lia.
From Stdlib Require Import DecimalString Permutation Sorted.
Import ListNotations.

Local Open Scope string_scope.
Local Open Scope Z_scope.
Local Open Scope list_scope.

(** ** Python values *)

(** The values followed through [add_alarm] and [remove_alarm]: [None],
    integers and strings.  Floats and booleans are left out, so a stored
    threshold is an integer; what the code does with a float threshold is
    outside this development. *)
Inductive pyval : Type :=
| PNone
| PInt (z : Z)
| PStr (s : string).

Inductive pynum : Type :=
| NInt (z : Z)
| NFloat (q : Q).

(** [x == y] on the values above. *)
Definition pyval_eqb (x y : pyval) : bool :=
  match x, y with
  | PNone, PNone => true
  | PInt a, PInt b => a =? b
  | PStr a, PStr b => String.eqb a b
  | _, _ => false
  end.

(** Truth value of [x] in [name if name else ...]. *)
Definition truthy (x : pyval) : bool :=
  match x with
  | PNone => false
  | PInt z => negb (z =? 0)
  | PStr s => negb (String.eqb s "")
  end.

(** [x in xs] for a list of strings [xs]. *)
Definition py_in (x : pyval) (xs : list string) : bool :=
  match x with
  | PStr s => existsb (String.eqb s) xs
  | _ => false
  end.

(** The string held by a value known to be a [str]. *)
Definition str_value (x : pyval) : string :=
  match x with
  | PStr s => s
  | _ => ""
  end.

Definition isinstance_str (x : pyval) : bool :=
  match x with
  | PStr _ => true
  | _ => false
  end.

(** [t <= v] for an int [t] and a number [v]. *)
Definition int_le_num (t : Z) (v : pynum) : bool :=
  match v with
  | NInt z => t <=? z
  | NFloat q => Qle_bool (inject_Z t) q
  end.

(** The messages of the [ValueError]s of [add_alarm]: the template and the
    value interpolated into it. *)
Inductive message : Type :=
| Invalid_resource (r : pyval)
| Threshold_for_logs_must_be_a_positive_integer
| Threshold_must_be_between_1_and_100
| active_period_must_be_one_of_valid_periods.

(** Exceptions, with [e.__class__.__name__]. *)
Inductive exn : Type :=
| ValueError (msg : message)
| TypeError
| OSError.

Definition class_name (e : exn) : string :=
  match e with
  | ValueError _ => "ValueError"
  | TypeError => "TypeError"
  | OSError => "OSError"
  end.

(** ** Constants *)

Definition AVAILABLE_RESOURCES : list string := ["cpu"; "ram"; "disk"; "logs"].

Definition valid_periods : list string :=
  ["day"; "night"; "office"; "non-office"; "always"].

(** ** Alarm rules *)

(** The dictionary of one alarm.  [active_period] is [None] when the key is
    absent (a rule written by an earlier version of the program). *)
Record alarm : Type := mk_alarm {
  id : string;
  name : pyval;
  resource : string;
  threshold : Z;
  active_period : option string
}.

(** [alarm.copy()] extended with the keys [current_value] and
    [triggered_at]. *)
Record triggered : Type := mk_triggered {
  rule : alarm;
  current_value : pynum;
  triggered_at : string
}.

(** ** [AlarmManager._is_alarm_active] *)

Definition _is_alarm_active (hour : Z) (a : alarm) : bool :=
  let period := match active_period a with
                | Some p => p
                | None => "always"
                end in
  if String.eqb period "always" then true
  else if String.eqb period "day" then (6 <=? hour) && (hour <=? 21)
  else if String.eqb period "night" then (hour <? 6) || (hour >? 21)
  else if String.eqb period "office" then (9 <=? hour) && (hour <=? 17)
  else if String.eqb period "non-office" then negb ((9 <=? hour) && (hour <=? 17))
  else true.

(** ** Usage dictionaries *)

(** The dictionary returned by [get_system_usage]; the [_gb] entries, which
    no alarm code reads, are left out.  [logs_percent] is the key the monitor
    loop adds. *)
Record usage : Type := mk_usage {
  cpu_percent : pynum;
  ram_percent : pynum;
  disk_percent : pynum;
  logs_percent : option pynum
}.

(** [usage_data.get(key, default)]. *)
Definition usage_get (u : usage) (key : string) (default : pynum) : pynum :=
  if String.eqb key "cpu_percent" then cpu_percent u
  else if String.eqb key "ram_percent" then ram_percent u
  else if String.eqb key "disk_percent" then disk_percent u
  else if String.eqb key "logs_percent" then
    match logs_percent u with
    | Some v => v
    | None => default
    end
  else default.

(** What [psutil] measured. *)
Record metrics : Type := mk_metrics {
  m_cpu : Q;
  m_ram : Q;
  m_disk : Q
}.

(** ** Log lines *)

Inductive event : Type :=
| Failed_to_retrieve_system_metrics (e : string)
| Monitor_Thread_Loop_Error (cls : string)
| Security_Alert_Log_Count_Exceeds (v : pynum) (thr : Z)
| usage_alarm_triggered_percent (res : string) (thr : Z)
| Attempted_to_add_invalid_resource (r : pyval)
| Attempted_to_add_invalid_threshold (t : Z)
| Attempted_to_add_invalid_active_period (p : pyval)
| Alarm_added (nm : pyval) (res : string) (thr : Z)
| Alarm_removed (alarm_id : pyval)
| Error_saving_alarms (cls : string)
| Failed_to_load_notification_config (e : string)
| Alert_email_not_sent_missing_smtp_configuration
| Alert_email_sent
| Failed_to_send_alert_email (e : string)
| Failed_to_send_alert_notification (e : string).

(** The category written with each message. *)
Definition category (ev : event) : string :=
  match ev with
  | Failed_to_retrieve_system_metrics _ => "ERROR"
  | Monitor_Thread_Loop_Error _ => "CRITICAL"
  | Security_Alert_Log_Count_Exceeds _ _ => "SECURITY"
  | usage_alarm_triggered_percent _ _ => "ALARM"
  | Attempted_to_add_invalid_resource _ => "WARNING"
  | Attempted_to_add_invalid_threshold _ => "WARNING"
  | Attempted_to_add_invalid_active_period _ => "WARNING"
  | Alarm_added _ _ _ => "ALARM_CONFIG"
  | Alarm_removed _ => "ALARM_CONFIG"
  | Error_saving_alarms _ => "CRITICAL"
  | Failed_to_load_notification_config _ => "ERROR"
  | Alert_email_not_sent_missing_smtp_configuration => "WARNING"
  | Alert_email_sent => "INFO"
  | Failed_to_send_alert_email _ => "ERROR"
  | Failed_to_send_alert_notification _ => "ERROR"
  end.

(** ** The world outside the program *)

(** What [alarms.json] can hold.  The elements of a list are taken to be
    rule dictionaries. *)
Inductive alarms_json : Type :=
| NoFile (create_error : option string)   (* missing; the class of the [OSError]
                                             creating it raises, if it does *)
| Unreadable (cls : string)     (* opening or reading it raises an [OSError] of class [cls] *)
| Malformed                     (* not a JSON text: [json.load] raises [JSONDecodeError] *)
| JsonList (l : list alarm)
| JsonSized (n : nat)           (* a JSON object or string of [len] n *)
| JsonScalar.                   (* a number, a boolean or null: [len] raises *)

(** How writing [alarms.json] can fail, with the class of the exception:
    at [open(ALARMS_FILE, 'w')], which leaves the file alone, or after it,
    when the opening has already emptied the file and [json.dump] has
    written at most a part of the text, which is then not a JSON text.  An
    exception raised when the whole text has already reached the file is
    not followed. *)
Inductive save_failure : Type :=
| OpenFails (cls : string)
| WriteFails (cls : string).

Inductive mail_outcome : Type :=
| MailRaised (e : string)       (* [int(ALERT_SMTP_PORT)] raises *)
| MailNotConfigured             (* no host or no recipient *)
| MailSent
| MailFailed (e : string).      (* the SMTP session raises *)

Record world : Type := mk_world {
  now_hour : Z;                          (* [datetime.now().hour] *)
  now_iso : string;                      (* [datetime.now().isoformat()] *)
  uuid4 : string;                        (* [str(uuid.uuid4())] *)
  psutil_sample : string + metrics;      (* [inl e]: a [psutil] call raises [e] *)
  log_dir_ok : bool;                     (* [logs/] can be created and appended to *)
  save_error : option save_failure;      (* how writing [alarms.json] fails, if it does *)
  alert_any : bool;                      (* [ALERT_ON_ANY_ALARM == '1'] *)
  mail_config_error : option string;     (* [notifications.json] exists and fails to load *)
  mail : mail_outcome
}.

(** ** State *)

Record state : Type := mk_state {
  alarms : list alarm;                   (* [self.alarms] *)
  triggered_alarm : option triggered;    (* [self.triggered_alarm] *)
  alarms_file : alarms_json;             (* what [alarms.json] holds *)
  log_file : list event                  (* the lines of the log file *)
}.

Definition set_alarms (l : list alarm) (st : state) : state :=
  mk_state l (triggered_alarm st) (alarms_file st) (log_file st).

Definition set_triggered_alarm (t : option triggered) (st : state) : state :=
  mk_state (alarms st) t (alarms_file st) (log_file st).

Definition set_alarms_file (l : alarms_json) (st : state) : state :=
  mk_state (alarms st) (triggered_alarm st) l (log_file st).

Definition set_log_file (l : list event) (st : state) : state :=
  mk_state (alarms st) (triggered_alarm st) (alarms_file st) l.

(** ** [core_features.py] *)

(** [log_event]: appends one line; a failure to write is swallowed. *)
Definition log_event (w : world) (ev : event) (st : state) : state :=
  if log_dir_ok w then set_log_file (log_file st ++ [ev]) st else st.

(** [get_log_history(max_entries=None)]: every line of the log file.  The
    call to [get_current_log_filename] stands outside the function's [try],
    so a failure to create the directory is raised to the caller. *)
Definition get_log_history (w : world) (st : state) : exn + list event :=
  if log_dir_ok w then inr (log_file st) else inl OSError.

(** [get_system_usage]: on any exception the failure is logged and a
    dictionary of zeros is returned. *)
Definition get_system_usage (w : world) (st : state) : usage * state :=
  match psutil_sample w with
  | inr m => (mk_usage (NFloat (m_cpu m)) (NFloat (m_ram m)) (NFloat (m_disk m)) None, st)
  | inl e =>
      (mk_usage (NFloat 0) (NFloat 0) (NFloat 0) None,
       log_event w (Failed_to_retrieve_system_metrics e) st)
  end.

(** [send_alert_email]: [inl e] when the call raises, else its result. *)
Definition send_alert_email (w : world) (st : state) : string * state + bool * state :=
  match mail w with
  | MailRaised e => inl (e, st)
  | m =>
      let st1 := match mail_config_error w with
                 | Some e => log_event w (Failed_to_load_notification_config e) st
                 | None => st
                 end in
      match m with
      | MailSent => inr (true, log_event w Alert_email_sent st1)
      | MailFailed e => inr (false, log_event w (Failed_to_send_alert_email e) st1)
      | _ => inr (false, log_event w Alert_email_not_sent_missing_smtp_configuration st1)
      end
  end.

(** ** [alarm_manager.py]: persistence *)

Definition failure_class (f : save_failure) : string :=
  match f with OpenFails cls | WriteFails cls => cls end.

(** [save_alarms]: overwrites the file; a failure is logged, not raised.
    The file is opened in mode ['w']: a failure after the opening leaves it
    cut off. *)
Definition save_alarms (w : world) (l : list alarm) (st : state) : state :=
  match save_error w with
  | None => set_alarms_file (JsonList l) st
  | Some (OpenFails cls) => log_event w (Error_saving_alarms cls) st
  | Some (WriteFails cls) =>
      log_event w (Error_saving_alarms cls) (set_alarms_file Malformed st)
  end.

(** ** Built-ins: [sorted], [max], [str.upper], [str(int)] *)

Section Builtins.
Context {A : Type}.

(** [<] on the pairs used as sort keys. *)
Definition key_lt (k1 k2 : Z * Z) : bool :=
  (fst k1 <? fst k2) || ((fst k1 =? fst k2) && (snd k1 <? snd k2)).

Variable key : A -> Z * Z.

Fixpoint insert_by (x : A) (l : list A) : list A :=
  match l with
  | [] => [x]
  | y :: l' => if key_lt (key y) (key x) then y :: insert_by x l' else x :: y :: l'
  end.

(** [sorted(l, key=key)]: the sort is stable, so it is the insertion of
    each element in front of the elements that follow it in [l] and do not
    have a smaller key. *)
Definition sorted (l : list A) : list A := fold_right insert_by [] l.

(** The order [sorted] establishes: no element is followed by one of
    smaller key. *)
Definition key_le (a b : A) : Prop := key_lt (key b) (key a) = false.

Variable weight : A -> Z.

(** [max(x :: l, key=weight)]: the first element of greatest weight. *)
Definition py_max (x : A) (l : list A) : A :=
  fold_left (fun best a => if weight best <? weight a then a else best) l x.
End Builtins.

Definition upper_ascii (c : ascii) : ascii :=
  let n := nat_of_ascii c in
  if ((97 <=? n) && (n <=? 122))%nat then ascii_of_nat (n - 32) else c.

(** [s.upper()], for the ASCII strings the program applies it to. *)
Fixpoint upper (s : string) : string :=
  match s with
  | EmptyString => EmptyString
  | String c s' => String (upper_ascii c) (upper s')
  end.

(** [str(z)]. *)
Definition str_of_int (z : Z) : string := NilZero.string_of_int (Z.to_int z).

(** ** [AlarmManager]: administration *)

Definition sort_order (r : string) : Z :=
  if String.eqb r "cpu" then 1
  else if String.eqb r "ram" then 2
  else if String.eqb r "disk" then 3
  else 99.

Definition sort_key (a : alarm) : Z * Z := (sort_order (resource a), threshold a).

(** [get_alarms]: a new list, sorted by resource rank and threshold. *)
Definition get_alarms (st : state) : list alarm := sorted sort_key (alarms st).

Definition get_triggered_alarm (st : state) : option triggered := triggered_alarm st.

Definition default_name (r : string) (t : Z) : string :=
  if negb (String.eqb r "logs")
  then String.append (upper r) (String.append " alarm " (String.append (str_of_int t) "%"))
  else String.append "LOGS alarm " (str_of_int t).

(** The part of [add_alarm] after validation. *)
Definition store_new_alarm (w : world) (nm : pyval) (r : string) (t : Z) (p : string)
    (st : state) : (exn + string) * state :=
  let new_alarm :=
    mk_alarm (uuid4 w) (if truthy nm then nm else PStr (default_name r t)) r t (Some p) in
  let st1 := set_alarms (alarms st ++ [new_alarm]) st in
  let st2 := save_alarms w (alarms st1) st1 in
  let st3 := log_event w (Alarm_added (name new_alarm) r t) st2 in
  (inr (id new_alarm), st3).

(** [add_alarm(resource, threshold, name, active_period)]: the exception
    raised or the id returned, and the state left behind. *)
Definition add_alarm (w : world) (resource0 threshold0 name0 active_period0 : pyval)
    (st : state) : (exn + string) * state :=
  let '(nm, res, thr) :=
    if negb (py_in resource0 AVAILABLE_RESOURCES)
       && isinstance_str threshold0 && py_in threshold0 AVAILABLE_RESOURCES
    then (resource0, threshold0, name0)
    else (name0, resource0, threshold0) in
  if negb (py_in res AVAILABLE_RESOURCES) then
    (inl (ValueError (Invalid_resource res)),
     log_event w (Attempted_to_add_invalid_resource res) st)
  else
    let r := str_value res in
    match thr with
    | PInt t =>
        if (if String.eqb r "logs" then t <=? 0 else negb ((1 <=? t) && (t <=? 100)))
        then
          (inl (ValueError (if String.eqb r "logs"
                            then Threshold_for_logs_must_be_a_positive_integer
                            else Threshold_must_be_between_1_and_100)),
           log_event w (Attempted_to_add_invalid_threshold t) st)
        else if negb (py_in active_period0 valid_periods) then
          (inl (ValueError active_period_must_be_one_of_valid_periods),
           log_event w (Attempted_to_add_invalid_active_period active_period0) st)
        else store_new_alarm w nm r t (str_value active_period0) st
    | _ => (inl TypeError, st)     (* [None <= 0], ['x' <= 0] *)
    end.

(** [remove_alarm(alarm_id)]. *)
Definition remove_alarm (w : world) (alarm_id : pyval) (st : state) : bool * state :=
  let initial_count := List.length (alarms st) in
  let st1 :=
    set_alarms (filter (fun a => negb (pyval_eqb (PStr (id a)) alarm_id)) (alarms st)) st in
  if (List.length (alarms st1) <? initial_count)%nat then
    let st2 := save_alarms w (alarms st1) st1 in
    let st3 := log_event w (Alarm_removed alarm_id) st2 in
    let st4 :=
      match triggered_alarm st3 with
      | Some t =>
          if pyval_eqb (PStr (id (rule t))) alarm_id
          then set_triggered_alarm None st3
          else st3
      | None => st3
      end in
    (true, st4)
  else (false, st1).

(** ** [AlarmManager]: evaluation *)

(** [_trigger_alarm(alarm, current_value)]; the third parameter of the
    source, [custom_message], is not read by its body. *)
Definition _trigger_alarm (w : world) (a : alarm) (v : pynum) (st : state) : state :=
  let res := upper (resource a) in
  let thr := threshold a in
  let st1 :=
    if String.eqb res "LOGS"
    then log_event w (Security_Alert_Log_Count_Exceeds v thr) st
    else log_event w (usage_alarm_triggered_percent res thr) st in
  let st2 := set_triggered_alarm (Some (mk_triggered a v (now_iso w))) st1 in
  if String.eqb res "LOGS" || alert_any w then
    match send_alert_email w st2 with
    | inl (e, st3) => log_event w (Failed_to_send_alert_notification e) st3
    | inr (_, st3) => st3
    end
  else st2.

(** The value the monitor loop compares the rules of [r] with. *)
Definition current_value_of (usage_data : usage) (log_count : Z) (r : string) : pynum :=
  if String.eqb r "logs" then NInt log_count
  else usage_get usage_data (String.append r "_percent") (NInt 0).

(** One iteration of [for resource in AVAILABLE_RESOURCES] in
    [AlarmMonitorThread.run]. *)
Definition check_resource (w : world) (usage_data : usage) (log_count : Z)
    (st : state) (r : string) : state :=
  let current := current_value_of usage_data log_count r in
  let resource_alarms :=
    filter (fun a => String.eqb (resource a) r && int_le_num (threshold a) current)
           (get_alarms st) in
  match resource_alarms with
  | [] => st
  | _ :: _ =>
      match filter (_is_alarm_active (now_hour w)) resource_alarms with
      | [] => st
      | x :: active_alarms => _trigger_alarm w (py_max threshold x active_alarms) current st
      end
  end.

(** Step 3 of the loop body: the whole [for]. *)
Definition check_resources (w : world) (usage_data : usage) (log_count : Z)
    (st : state) : state :=
  fold_left (check_resource w usage_data log_count) AVAILABLE_RESOURCES st.

(** The [try] block of one pass of [while not self._stop_event.is_set()]:
    [inl] carries the exception raised and the state at that point. *)
Definition tick_body (w : world) (st : state) : exn * state + state :=
  let '(usage_data, st1) := get_system_usage w st in
  match get_log_history w st1 with
  | inl e => inl (e, st1)
  | inr lines =>
      let log_count := Z.of_nat (List.length lines) in
      let usage_data :=
        mk_usage (cpu_percent usage_data) (ram_percent usage_data)
                 (disk_percent usage_data) (Some (NInt log_count)) in
      inr (check_resources w usage_data log_count st1)
  end.

(** One pass of the loop, with its [except Exception] handler. *)
Definition run_tick (w : world) (st : state) : state :=
  match tick_body w st with
  | inr st' => st'
  | inl (e, st') => log_event w (Monitor_Thread_Loop_Error (class_name e)) st'
  end.

(** The monitor thread for as many passes as there are worlds. *)
Definition run (ws : list world) (st : state) : state :=
  fold_left (fun s w => run_tick w s) ws st.

(** [_check_alarms(usage_data)]: no caller in the program. *)
Definition _check_alarms (w : world) (usage_data : usage) (st : state) : state :=
  fold_left
    (fun s r =>
       let current := usage_get usage_data (String.append r "_percent") (NInt 0) in
       match filter (fun a => String.eqb (resource a) r && int_le_num (threshold a) current)
                    (alarms s) with
       | [] => s
       | x :: resource_alarms => _trigger_alarm w (py_max threshold x resource_alarms) current s
       end)
    AVAILABLE_RESOURCES
    (set_triggered_alarm None st).

(** ** Vocabulary of the specification *)

(** Rule [a] breaches for resource [r]: it is a rule of [r], its period
    covers [hour] and its threshold is at most the [current] value. *)
Definition breaching (hour : Z) (current : pynum) (r : string) (a : alarm) : bool :=
  String.eqb (resource a) r && int_le_num (threshold a) current
  && _is_alarm_active hour a.

(** Some stored rule breaches for [r] in the cycle. *)
Definition resource_breaches (w : world) (usage_data : usage) (log_count : Z)
    (st : state) (r : string) : bool :=
  existsb (breaching (now_hour w) (current_value_of usage_data log_count r) r) (alarms st).

Definition breaching_resources (w : world) (usage_data : usage) (log_count : Z)
    (st : state) : list string :=
  filter (resource_breaches w usage_data log_count st) AVAILABLE_RESOURCES.

(** The rule [check_resource] hands to [_trigger_alarm] for [r], if any. *)
Definition winner (w : world) (usage_data : usage) (log_count : Z)
    (st : state) (r : string) : option alarm :=
  let current := current_value_of usage_data log_count r in
  match filter (_is_alarm_active (now_hour w))
               (filter (fun a => String.eqb (resource a) r && int_le_num (threshold a) current)
                       (get_alarms st)) with
  | [] => None
  | x :: l => Some (py_max threshold x l)
  end.

(** Rule [a] is a stored rule that breaches for [r], and no stored rule that
    breaches for [r] has a greater threshold. *)
Definition highest_breaching (w : world) (usage_data : usage) (log_count : Z)
    (st : state) (r : string) (a : alarm) : Prop :=
  let current := current_value_of usage_data log_count r in
  In a (alarms st)
  /\ breaching (now_hour w) current r a = true
  /\ forall b, In b (alarms st) -> breaching (now_hour w) current r b = true ->
                threshold b <= threshold a.

(** The triggered alarm the loop leaves, from the one it found: each
    resource with a winner overwrites it. *)
Definition overwrite (w : world) (usage_data : usage) (log_count : Z) (st : state)
    (t : option triggered) (r : string) : option triggered :=
  match winner w usage_data log_count st r with
  | Some a => Some (mk_triggered a (current_value_of usage_data log_count r) (now_iso w))
  | None => t
  end.

(** The usage dictionary and the log count a tick evaluates the rules on. *)
Definition tick_usage (w : world) (st : state) : usage :=
  let u := fst (get_system_usage w st) in
  let n := Z.of_nat (List.length (log_file (snd (get_system_usage w st)))) in
  mk_usage (cpu_percent u) (ram_percent u) (disk_percent u) (Some (NInt n)).

Definition tick_log_count (w : world) (st : state) : Z :=
  Z.of_nat (List.length (log_file (snd (get_system_usage w st)))).

(** Validity of the arguments of [add_alarm], as the data model words it. *)
Definition valid_threshold (r : string) (t : Z) : Prop :=
  if String.eqb r "logs" then 0 < t else 1 <= t <= 100.

(** A call of [add_alarm] is rejected: it raises [ValueError] and leaves the
    rules in memory and on disk as they were. *)
Definition rejected (st : state) (res : (exn + string) * state) : Prop :=
  (exists msg, fst res = inl (ValueError msg))
  /\ alarms (snd res) = alarms st
  /\ alarms_file (snd res) = alarms_file st
  /\ triggered_alarm (snd res) = triggered_alarm st.

(** ** Objects and references

    [get_alarms] returns [sorted(self.alarms, ...)]: a new list object that
    holds the very dictionaries [self.alarms] holds.  To speak about what a
    caller can do to the value returned, objects live in a heap and lists
    hold references. *)
Module Objects.

Definition loc : Type := nat.

Inductive obj : Type :=
| ODict (a : alarm)
| OList (items : list loc).

(** The object at address [l] is the [l]-th entry. *)
Definition heap : Type := list obj.

Definition deref_dict (h : heap) (l : loc) : option alarm :=
  match nth_error h l with
  | Some (ODict a) => Some a
  | _ => None
  end.

Definition deref_list (h : heap) (l : loc) : option (list loc) :=
  match nth_error h l with
  | Some (OList items) => Some items
  | _ => None
  end.

Fixpoint deref_all (h : heap) (ls : list loc) : option (list alarm) :=
  match ls with
  | [] => Some []
  | l :: ls' =>
      match deref_dict h l, deref_all h ls' with
      | Some a, Some al => Some (a :: al)
      | _, _ => None
      end
  end.

(** The rules a list object holds, read through the heap. *)
Definition alarms_of (h : heap) (l : loc) : option (list alarm) :=
  match deref_list h l with
  | Some items => deref_all h items
  | None => None
  end.

Definition alloc (o : obj) (h : heap) : loc * heap := (List.length h, h ++ [o]).

Fixpoint store_obj (l : loc) (o : obj) (h : heap) : heap :=
  match h, l with
  | [], _ => []
  | _ :: h', O => o :: h'
  | x :: h', S l' => x :: store_obj l' o h'
  end.

Definition key_at (h : heap) (l : loc) : Z * Z :=
  match deref_dict h l with
  | Some a => sort_key a
  | None => (0, 0)
  end.

(** [get_alarms] with [self.alarms] at address [self_alarms]: the address
    of the list returned, and the heap after the call. *)
Definition get_alarms (h : heap) (self_alarms : loc) : option (loc * heap) :=
  match deref_list h self_alarms with
  | Some items => Some (alloc (OList (sorted (key_at h) items)) h)
  | None => None
  end.

(** What a caller can do to the value returned: change the list in place
    (its contents become [items]), or change in place the record at
    position [i] of it (its contents become [a]). *)
Inductive mutation : Type :=
| MutateList (items : list loc)
| MutateRecord (i : nat) (a : alarm).

Definition mutate (ret : loc) (m : mutation) (h : heap) : heap :=
  match m with
  | MutateList items => store_obj ret (OList items) h
  | MutateRecord i a =>
      match deref_list h ret with
      | Some items =>
          match nth_error items i with
          | Some l => store_obj l (ODict a) h
          | None => h
          end
      | None => h
      end
  end.

(** [self.alarms] is a list of dictionaries. *)
Definition well_formed (h : heap) (self_alarms : loc) : Prop :=
  exists al, alarms_of h self_alarms = Some al.

End Objects.

(** ** The rest of the program around the manager

    [load_alarms] and the start of [AlarmManager], the general
    [get_log_history], what the console does with the triggered alarm, and
    sequences of calls on one manager. *)

(** A rule as the data model wants it: a resource among the four, a
    threshold in the range of that resource, a period among the five. *)
Definition valid_rule (a : alarm) : Prop :=
  In (resource a) AVAILABLE_RESOURCES
  /\ valid_threshold (resource a) (threshold a)
  /\ exists p, active_period a = Some p /\ In p valid_periods.

(** The triggered alarm, when there is one, is a copy of a rule still in
    the store, taken at a value its threshold did not exceed. *)
Definition triggered_is_stored (st : state) : Prop :=
  forall t, triggered_alarm st = Some t ->
            In (rule t) (alarms st)
            /\ int_le_num (threshold (rule t)) (current_value t) = true.

(** [alarm_manager.triggered_alarm = None], the acknowledgement in
    [start_console_menu]. *)
Definition acknowledge (st : state) : state := set_triggered_alarm None st.

(** What can happen to a manager: the calls of the administrative surface,
    a pass of the monitor loop, an acknowledgement; each runs to its end
    before the next starts. *)
Inductive op : Type :=
| OpAdd (resource0 threshold0 name0 active_period0 : pyval)
| OpRemove (alarm_id : pyval)
| OpTick
| OpAcknowledge.

Definition step (st : state) (wo : world * op) : state :=
  let w := fst wo in
  match snd wo with
  | OpAdd r t n p => snd (add_alarm w r t n p st)
  | OpRemove i => snd (remove_alarm w i st)
  | OpTick => run_tick w st
  | OpAcknowledge => acknowledge st
  end.

Definition steps (l : list (world * op)) (st : state) : state := fold_left step l st.

(** *** A call of the other thread inside a pass

    [get_alarms] holds the lock while it sorts, [_trigger_alarm] takes no
    lock.  A call made from the user interface can therefore run to its end
    after an iteration of the loop has got its list of rules and before the
    iteration enters [_trigger_alarm]. *)

(** The calls the user interface makes on the manager. *)
Inductive call : Type :=
| CallAdd (resource0 threshold0 name0 active_period0 : pyval)
| CallRemove (alarm_id : pyval)
| CallAcknowledge.

Definition do_call (w : world) (c : call) (st : state) : state :=
  match c with
  | CallAdd r t n p => snd (add_alarm w r t n p st)
  | CallRemove i => snd (remove_alarm w i st)
  | CallAcknowledge => acknowledge st
  end.

(** One iteration of the loop with the call [c], made in the world [w'],
    run at that point: the rule is selected among the rules of [st], and
    [_trigger_alarm] runs on the state the call has left. *)
Definition check_resource_during (w : world) (usage_data : usage) (log_count : Z)
    (w' : world) (c : call) (st : state) (r : string) : state :=
  let current := current_value_of usage_data log_count r in
  let resource_alarms :=
    filter (fun a => String.eqb (resource a) r && int_le_num (threshold a) current)
           (get_alarms st) in
  match resource_alarms with
  | [] => do_call w' c st
  | _ :: _ =>
      match filter (_is_alarm_active (now_hour w)) resource_alarms with
      | [] => do_call w' c st
      | x :: active_alarms =>
          _trigger_alarm w (py_max threshold x active_alarms) current (do_call w' c st)
      end
  end.

(** The [for] of one pass, with the call in the iteration of resource
    [r0]. *)
Definition check_resources_during (w : world) (usage_data : usage) (log_count : Z)
    (r0 : string) (w' : world) (c : call) (st : state) : state :=
  fold_left
    (fun s r => if String.eqb r r0
                then check_resource_during w usage_data log_count w' c s r
                else check_resource w usage_data log_count s r)
    AVAILABLE_RESOURCES st.

(** One pass of the loop, handler included, with the call in the iteration
    of resource [r0]; a pass that raises before its [for] has no such
    iteration. *)
Definition run_tick_during (w : world) (r0 : string) (w' : world) (c : call)
    (st : state) : state :=
  let '(usage_data, st1) := get_system_usage w st in
  match get_log_history w st1 with
  | inl e => log_event w (Monitor_Thread_Loop_Error (class_name e)) st1
  | inr lines =>
      let log_count := Z.of_nat (List.length lines) in
      let usage_data :=
        mk_usage (cpu_percent usage_data) (ram_percent usage_data)
                 (disk_percent usage_data) (Some (NInt log_count)) in
      check_resources_during w usage_data log_count r0 w' c st1
  end.

(** What happens next on a manager: a call or a pass that runs to its end
    undisturbed, or a pass with a call inside it. *)
Inductive slot : Type :=
| Alone (o : op)
| During (r0 : string) (w' : world) (c : call).

Definition slot_step (st : state) (ws : world * slot) : state :=
  match snd ws with
  | Alone o => step st (fst ws, o)
  | During r0 w' c => run_tick_during (fst ws) r0 w' c st
  end.

Definition schedule (l : list (world * slot)) (st : state) : state :=
  fold_left slot_step l st.

(** The slot is a pass with a [remove_alarm] call inside it. *)
Definition removal_in_flight (s : slot) : bool :=
  match s with
  | During _ _ (CallRemove _) => true
  | _ => false
  end.

(** [add_alarm] from its first check on, once the arguments are in the
    order name, resource, threshold. *)
Definition add_alarm_checked (w : world) (nm res thr active_period0 : pyval)
    (st : state) : (exn + string) * state :=
  if negb (py_in res AVAILABLE_RESOURCES) then
    (inl (ValueError (Invalid_resource res)),
     log_event w (Attempted_to_add_invalid_resource res) st)
  else
    let r := str_value res in
    match thr with
    | PInt t =>
        if (if String.eqb r "logs" then t <=? 0 else negb ((1 <=? t) && (t <=? 100)))
        then
          (inl (ValueError (if String.eqb r "logs"
                            then Threshold_for_logs_must_be_a_positive_integer
                            else Threshold_must_be_between_1_and_100)),
           log_event w (Attempted_to_add_invalid_threshold t) st)
        else if negb (py_in active_period0 valid_periods) then
          (inl (ValueError active_period_must_be_one_of_valid_periods),
           log_event w (Attempted_to_add_invalid_active_period active_period0) st)
        else store_new_alarm w nm r t (str_value active_period0) st
    | _ => (inl TypeError, st)
    end.

(** *** [load_alarms] *)

(** The lines [load_alarms] hands to [log_event]. *)
Inductive load_line : Type :=
| Created_empty_alarms_file
| Loaded_alarms_from_disk (n : nat)
| Error_loading_alarms (cls : string)
| Unexpected_error_loading_alarms (cls : string).

Definition load_category (l : load_line) : string :=
  match l with
  | Created_empty_alarms_file => "SYSTEM"
  | Loaded_alarms_from_disk _ => "INFO"
  | Error_loading_alarms _ => "ERROR"
  | Unexpected_error_loading_alarms _ => "CRITICAL"
  end.

(** [load_alarms()]: the list returned, the file afterwards, the lines
    logged in order. *)
Definition load_alarms (f : alarms_json) : list alarm * alarms_json * list load_line :=
  match f with
  | NoFile None => ([], JsonList [], [Created_empty_alarms_file])
  | NoFile (Some cls) => ([], f, [Unexpected_error_loading_alarms cls])
  | Unreadable cls => ([], f, [Unexpected_error_loading_alarms cls])
  | Malformed => ([], f, [Error_loading_alarms "JSONDecodeError"])
  | JsonList l => (l, f, [Loaded_alarms_from_disk (List.length l)])
  | JsonSized n => ([], f, [Loaded_alarms_from_disk n; Error_loading_alarms "ValueError"])
  | JsonScalar => ([], f, [Unexpected_error_loading_alarms "TypeError"])
  end.

(** A manager started on the file a state left: [self.alarms =
    load_alarms()], [self.triggered_alarm = None]. *)
Definition restart (st : state) : state :=
  mk_state (fst (fst (load_alarms (alarms_file st)))) None
           (snd (fst (load_alarms (alarms_file st)))) (log_file st).

(** *** [get_log_history] with its filters *)

(** A date argument: absent (or empty), not in the form [%Y-%m-%d], or a
    day. *)
Inductive date_arg : Type :=
| NoDate
| BadDate
| GoodDate (day : Z).

Section LogHistory.
Context {line : Type}.

(** The day at the head of a line, when it parses. *)
Variable line_date : line -> option Z.

(** [search_text.lower() in line.lower()]. *)
Variable contains : string -> line -> bool.

(** [l[-n:]] for an integer [n] other than 0. *)
Definition py_last (n : Z) (l : list line) : list line :=
  if 0 <? n then skipn (List.length l - Z.to_nat n) l else skipn (Z.to_nat (- n)) l.

(** A date that makes the function return at once: unparsable, or after
    today. *)
Definition date_rejected (today : Z) (d : date_arg) : bool :=
  match d with
  | NoDate => false
  | BadDate => true
  | GoodDate day => day >? today
  end.

Definition dates_crossed (start_date end_date : date_arg) : bool :=
  match start_date, end_date with
  | GoodDate s, GoodDate e => s >? e
  | _, _ => false
  end.

(** [include_line] at the end of the loop body. *)
Definition include_line (search_text : option string) (start_date end_date : date_arg)
    (l : line) : bool :=
  (match line_date l with
   | Some log_date =>
       negb (match start_date with GoodDate s => log_date <? s | _ => false end)
       && negb (match end_date with GoodDate e => log_date >? e | _ => false end)
   | None => true
   end)
  && match search_text with
     | Some s => if String.eqb s "" then true else contains s l
     | None => true
     end.

(** [get_log_history(max_entries, search_text, start_date, end_date)] on a
    log file of lines [file] (no line when the file is missing); [dir_ok]:
    the log directory exists or can be created. *)
Definition get_log_history_filtered (dir_ok : bool) (today : Z) (file : list line)
    (max_entries : option Z) (search_text : option string)
    (start_date end_date : date_arg) : exn + list line :=
  if date_rejected today start_date then inr []
  else if date_rejected today end_date then inr []
  else if dates_crossed start_date end_date then inr []
  else if negb dir_ok then inl OSError
  else
    let filtered_lines := filter (include_line search_text start_date end_date) file in
    match max_entries with
    | Some n => if n =? 0 then inr filtered_lines else inr (py_last n filtered_lines)
    | None => inr filtered_lines
    end.
End LogHistory.

(** * Properties *)

(** ** Built-ins *)

Lemma key_lt_true_iff (k1 k2 : Z * Z) :
  key_lt k1 k2 = true <-> fst k1 < fst k2 \/ (fst k1 = fst k2 /\ snd k1 < snd k2).
Proof.
  unfold key_lt.
  rewrite orb_true_iff, andb_true_iff, !Z.ltb_lt, Z.eqb_eq.
  reflexivity.
Qed.

Lemma key_lt_false_iff (k1 k2 : Z * Z) :
  key_lt k1 k2 = false <-> fst k2 < fst k1 \/ (fst k1 = fst k2 /\ snd k2 <= snd k1).
Proof.
  unfold key_lt.
  rewrite orb_false_iff, andb_false_iff, !Z.ltb_ge, Z.eqb_neq.
  lia.
Qed.

Section BuiltinFacts.
Context {A : Type}.
Variable key : A -> Z * Z.

Lemma key_le_trans (a b c : A) : key_le key a b -> key_le key b c -> key_le key a c.
Proof.
  unfold key_le; rewrite !key_lt_false_iff; lia.
Qed.

Lemma key_lt_key_le (a b : A) : key_lt (key a) (key b) = true -> key_le key a b.
Proof.
  unfold key_le; rewrite key_lt_true_iff, key_lt_false_iff; lia.
Qed.

Lemma insert_by_perm (x : A) (l : list A) : Permutation (insert_by key x l) (x :: l).
Proof.
  induction l as [|y l IH]; simpl.
  - apply Permutation_refl.
  - destruct (key_lt (key y) (key x)).
    + apply perm_trans with (y :: x :: l).
      * now apply perm_skip.
      * apply perm_swap.
    + apply Permutation_refl.
Qed.

Lemma sorted_perm (l : list A) : Permutation (sorted key l) l.
Proof.
  induction l as [|x l IH]; simpl.
  - apply perm_nil.
  - apply perm_trans with (x :: sorted key l).
    + apply insert_by_perm.
    + now apply perm_skip.
Qed.

Lemma sorted_In (l : list A) (x : A) : In x (sorted key l) <-> In x l.
Proof.
  split; apply Permutation_in.
  - apply sorted_perm.
  - apply Permutation_sym, sorted_perm.
Qed.

Lemma insert_by_sorted (x : A) (l : list A) :
  StronglySorted (key_le key) l -> StronglySorted (key_le key) (insert_by key x l).
Proof.
  induction l as [|y l IH]; simpl; intros Hs.
  - constructor; constructor.
  - inversion Hs as [|? ? Hl Hy]; subst.
    destruct (key_lt (key y) (key x)) eqn:Hlt.
    + constructor; [now apply IH|].
      apply Forall_forall; intros z Hz.
      apply (Permutation_in _ (insert_by_perm x l)) in Hz.
      destruct Hz as [<-|Hz].
      * now apply key_lt_key_le.
      * rewrite Forall_forall in Hy; now apply Hy.
    + constructor; [assumption|].
      constructor; [exact Hlt|].
      apply Forall_forall; intros z Hz.
      rewrite Forall_forall in Hy.
      apply key_le_trans with y; [exact Hlt|now apply Hy].
Qed.

Lemma sorted_sorted (l : list A) : StronglySorted (key_le key) (sorted key l).
Proof.
  induction l as [|x l IH]; simpl.
  - constructor.
  - now apply insert_by_sorted.
Qed.

(** An element not above the head of a sorted list is inserted in front. *)
Lemma insert_by_front (x : A) (l : list A) :
  Forall (key_le key x) l -> insert_by key x l = x :: l.
Proof.
  destruct l as [|y l]; simpl; [reflexivity|].
  intros H; inversion H as [|? ? Hxy _]; subst.
  unfold key_le in Hxy; now rewrite Hxy.
Qed.

(** Filtering commutes with a stable sort. *)
Lemma filter_insert_by (f : A -> bool) (x : A) (l : list A) :
  StronglySorted (key_le key) l ->
  filter f (insert_by key x l) =
  if f x then insert_by key x (filter f l) else filter f l.
Proof.
  induction 1 as [|y l Hs IH Hy]; simpl.
  - now destruct (f x).
  - destruct (key_lt (key y) (key x)) eqn:Hlt; simpl.
    + rewrite IH.
      destruct (f y), (f x); simpl; rewrite ?Hlt; reflexivity.
    + destruct (f x) eqn:Hx, (f y) eqn:Hfy; simpl; rewrite ?Hlt; try reflexivity.
      symmetry; apply insert_by_front.
      rewrite Forall_forall in *.
      intros z Hz; apply filter_In in Hz.
      apply key_le_trans with y; [exact Hlt|now apply Hy].
Qed.

Lemma filter_sorted (f : A -> bool) (l : list A) :
  filter f (sorted key l) = sorted key (filter f l).
Proof.
  induction l as [|x l IH]; simpl.
  - reflexivity.
  - rewrite filter_insert_by by apply sorted_sorted.
    rewrite IH.
    now destruct (f x).
Qed.
End BuiltinFacts.

Section MaxFacts.
Context {A : Type}.
Variable weight : A -> Z.

Lemma py_max_In (l : list A) (x : A) : In (py_max weight x l) (x :: l).
Proof.
  unfold py_max; revert x.
  induction l as [|y l IH]; intros x; simpl.
  - now left.
  - destruct (weight x <? weight y).
    + right; apply IH.
    + destruct (IH x) as [H|H]; [now left|now right; right].
Qed.

Lemma py_max_ge_head (l : list A) (x : A) : weight x <= weight (py_max weight x l).
Proof.
  unfold py_max; revert x.
  induction l as [|y l IH]; intros x; simpl.
  - lia.
  - destruct (weight x <? weight y) eqn:H.
    + apply Z.ltb_lt in H; specialize (IH y); lia.
    + apply IH.
Qed.

Lemma py_max_greatest (l : list A) (x y : A) :
  In y (x :: l) -> weight y <= weight (py_max weight x l).
Proof.
  revert x.
  induction l as [|z l IH]; intros x Hy.
  - destruct Hy as [<-|[]]; apply py_max_ge_head.
  - destruct Hy as [<-|[<-|Hy]].
    + apply py_max_ge_head.
    + unfold py_max; simpl.
      destruct (weight x <? weight z) eqn:H.
      * apply py_max_ge_head.
      * apply Z.ltb_ge in H.
        pose proof (py_max_ge_head l x) as Hx; unfold py_max in Hx; lia.
    + unfold py_max; simpl.
      destruct (weight x <? weight z); apply IH; now right.
Qed.
End MaxFacts.

(** ** Values *)

Lemma pyval_eqb_eq (x y : pyval) : pyval_eqb x y = true <-> x = y.
Proof.
  destruct x, y; simpl; split; intros H; try congruence; try discriminate.
  - apply Z.eqb_eq in H; now subst.
  - injection H as ->; apply Z.eqb_refl.
  - apply String.eqb_eq in H; now subst.
  - injection H as ->; apply String.eqb_refl.
Qed.

Lemma pyval_eqb_neq (x y : pyval) : pyval_eqb x y = false <-> x <> y.
Proof.
  rewrite <- pyval_eqb_eq.
  destruct (pyval_eqb x y); split; congruence.
Qed.

Lemma py_in_true (x : pyval) (xs : list string) :
  py_in x xs = true <-> exists s, x = PStr s /\ In s xs.
Proof.
  destruct x as [| z | s]; simpl.
  - split; [discriminate|intros (s & H & _); discriminate].
  - split; [discriminate|intros (s & H & _); discriminate].
  - rewrite existsb_exists; split.
    + intros (y & Hy & E); apply String.eqb_eq in E; subst y; now exists s.
    + intros (y & E & Hy); injection E as <-; exists s; split; [assumption|apply String.eqb_refl].
Qed.

Lemma py_in_false (x : pyval) (xs : list string) :
  py_in x xs = false <-> forall s, In s xs -> x <> PStr s.
Proof.
  split.
  - intros H s Hs ->.
    assert (py_in (PStr s) xs = true) by (apply py_in_true; now exists s).
    congruence.
  - intros H; destruct (py_in x xs) eqn:E; [|reflexivity].
    apply py_in_true in E; destruct E as (s & -> & Hs).
    now destruct (H s Hs).
Qed.

(** ** Frame lemmas: what each operation leaves alone *)

Lemma log_event_alarms w ev st : alarms (log_event w ev st) = alarms st.
Proof. unfold log_event; now destruct (log_dir_ok w). Qed.

Lemma log_event_triggered w ev st :
  triggered_alarm (log_event w ev st) = triggered_alarm st.
Proof. unfold log_event; now destruct (log_dir_ok w). Qed.

Lemma log_event_alarms_file w ev st : alarms_file (log_event w ev st) = alarms_file st.
Proof. unfold log_event; now destruct (log_dir_ok w). Qed.

Lemma save_alarms_alarms w l st : alarms (save_alarms w l st) = alarms st.
Proof.
  unfold save_alarms; destruct (save_error w) as [[cls|cls]|];
    rewrite ?log_event_alarms; reflexivity.
Qed.

Lemma save_alarms_triggered w l st :
  triggered_alarm (save_alarms w l st) = triggered_alarm st.
Proof.
  unfold save_alarms; destruct (save_error w) as [[cls|cls]|];
    rewrite ?log_event_triggered; reflexivity.
Qed.

Lemma save_alarms_file w l st :
  alarms_file (save_alarms w l st) =
  match save_error w with
  | None => JsonList l
  | Some (OpenFails _) => alarms_file st
  | Some (WriteFails _) => Malformed
  end.
Proof.
  unfold save_alarms; destruct (save_error w) as [[cls|cls]|];
    rewrite ?log_event_alarms_file; reflexivity.
Qed.

Lemma send_alert_email_frame w st :
  match send_alert_email w st with
  | inl (_, st') | inr (_, st') =>
      alarms st' = alarms st /\ triggered_alarm st' = triggered_alarm st
      /\ alarms_file st' = alarms_file st
  end.
Proof.
  unfold send_alert_email.
  destruct (mail w), (mail_config_error w);
    rewrite ?log_event_alarms, ?log_event_triggered, ?log_event_alarms_file; auto.
Qed.

Lemma trigger_alarm_triggered w a v st :
  triggered_alarm (_trigger_alarm w a v st) = Some (mk_triggered a v (now_iso w)).
Proof.
  unfold _trigger_alarm.
  match goal with
  | |- context [send_alert_email w ?s] =>
      pose proof (send_alert_email_frame w s) as H;
      destruct (send_alert_email w s) as [[e s']|[b s']]
  end.
  - destruct H as (_ & H & _).
    destruct (_ || _); [rewrite log_event_triggered, H|]; reflexivity.
  - destruct H as (_ & H & _).
    destruct (_ || _); [rewrite H|]; reflexivity.
Qed.

Lemma trigger_alarm_alarms w a v st : alarms (_trigger_alarm w a v st) = alarms st.
Proof.
  unfold _trigger_alarm.
  match goal with
  | |- context [send_alert_email w ?s] =>
      pose proof (send_alert_email_frame w s) as H;
      destruct (send_alert_email w s) as [[e s']|[b s']]
  end;
    destruct H as (H & _ & _);
    destruct (_ || _); rewrite ?log_event_alarms, ?H; simpl;
    destruct (String.eqb _ _); now rewrite log_event_alarms.
Qed.

Lemma trigger_alarm_alarms_file w a v st :
  alarms_file (_trigger_alarm w a v st) = alarms_file st.
Proof.
  unfold _trigger_alarm.
  match goal with
  | |- context [send_alert_email w ?s] =>
      pose proof (send_alert_email_frame w s) as H;
      destruct (send_alert_email w s) as [[e s']|[b s']]
  end;
    destruct H as (_ & _ & H);
    destruct (_ || _); rewrite ?log_event_alarms_file, ?H; simpl;
    destruct (String.eqb _ _); now rewrite log_event_alarms_file.
Qed.

(** ** Active periods *)

(** C8.  Whatever the hour, a rule is active: always for ['always']; for
    ['day'] exactly when 6 <= hour <= 21; for ['night'] exactly when
    hour < 6 or hour > 21; for ['office'] exactly when 9 <= hour <= 17; for
    ['non-office'] exactly when it would not be for ['office']; and always
    for a tag that is none of the five (and when the key is absent). *)
Theorem is_alarm_active_by_period (hour : Z) (i : string) (n : pyval) (r : string) (t : Z) :
  let rule_with p := mk_alarm i n r t p in
  _is_alarm_active hour (rule_with (Some "always")) = true
  /\ (_is_alarm_active hour (rule_with (Some "day")) = true <-> 6 <= hour <= 21)
  /\ (_is_alarm_active hour (rule_with (Some "night")) = true <-> hour < 6 \/ hour > 21)
  /\ (_is_alarm_active hour (rule_with (Some "office")) = true <-> 9 <= hour <= 17)
  /\ _is_alarm_active hour (rule_with (Some "non-office"))
     = negb (_is_alarm_active hour (rule_with (Some "office")))
  /\ (forall p, ~ In p valid_periods -> _is_alarm_active hour (rule_with (Some p)) = true)
  /\ _is_alarm_active hour (rule_with None) = true.
Proof.
  intros rule_with; unfold rule_with, _is_alarm_active; simpl.
  rewrite orb_true_iff, !andb_true_iff, !Z.leb_le, Z.ltb_lt, Z.gtb_gt.
  split; [reflexivity|].
  split; [reflexivity|].
  split; [reflexivity|].
  split; [reflexivity|].
  split; [reflexivity|].
  split; [|reflexivity].
  intros p Hp.
  assert (Hne : forall q, In q valid_periods -> String.eqb p q = false).
  { intros q Hq; apply String.eqb_neq; intros ->; now apply Hp. }
  rewrite !Hne by (simpl; tauto).
  reflexivity.
Qed.

Lemma is_alarm_active_by_period_witness :
  _is_alarm_active 23 (mk_alarm "7f" PNone "cpu" 50 (Some "weekend")) = true
  /\ _is_alarm_active 22 (mk_alarm "7f" PNone "cpu" 50 (Some "night")) = true.
Proof.
  destruct (is_alarm_active_by_period 23 "7f" PNone "cpu" 50)
    as (_ & _ & _ & _ & _ & Hunknown & _).
  destruct (is_alarm_active_by_period 22 "7f" PNone "cpu" 50)
    as (_ & _ & Hnight & _).
  split.
  - apply Hunknown.
    simpl; intros [H|[H|[H|[H|[H|[]]]]]]; discriminate H.
  - apply Hnight.
    right; lia.
Defined.

(** ** Removing a rule *)

Lemma filter_keeps_all {A : Type} (f : A -> bool) (l : list A) :
  (forall x, In x l -> f x = true) -> filter f l = l.
Proof.
  induction l as [|x l IH]; simpl; intros H.
  - reflexivity.
  - rewrite (H x) by now left.
    f_equal; apply IH; intros y Hy; apply H; now right.
Qed.

Lemma filter_length_le' {A : Type} (f : A -> bool) (l : list A) :
  (List.length (filter f l) <= List.length l)%nat.
Proof.
  induction l as [|x l IH]; simpl; [lia|].
  destruct (f x); simpl; lia.
Qed.

Lemma filter_drops_one {A : Type} (f : A -> bool) (l : list A) (x : A) :
  In x l -> f x = false -> (List.length (filter f l) < List.length l)%nat.
Proof.
  induction l as [|y l IH]; simpl; intros Hin Hx.
  - destruct Hin.
  - destruct Hin as [->|Hin].
    + rewrite Hx; pose proof (filter_length_le' f l); lia.
    + specialize (IH Hin Hx); destruct (f y); simpl; lia.
Qed.

Lemma state_eta (st : state) :
  mk_state (alarms st) (triggered_alarm st) (alarms_file st) (log_file st) = st.
Proof. now destruct st. Qed.

Lemma log_event_keeps w ev ev' st :
  In ev (log_file st) -> In ev (log_file (log_event w ev' st)).
Proof.
  unfold log_event; destruct (log_dir_ok w); cbn [log_file set_log_file]; [|auto].
  intros H; apply in_or_app; now left.
Qed.

Lemma log_event_logged w ev st :
  log_dir_ok w = true -> In ev (log_file (log_event w ev st)).
Proof.
  unfold log_event; intros ->; cbn [log_file set_log_file].
  apply in_or_app; right; now left.
Qed.

Lemma save_alarms_logged w l st f :
  save_error w = Some f -> log_dir_ok w = true ->
  In (Error_saving_alarms (failure_class f)) (log_file (save_alarms w l st)).
Proof.
  unfold save_alarms; intros -> Hlog.
  destruct f as [cls|cls]; now apply log_event_logged.
Qed.




(** ** Adding a rule *)

Lemma store_new_alarm_spec w nm r t p st :
  let new := mk_alarm (uuid4 w) (if truthy nm then nm else PStr (default_name r t)) r t (Some p) in
  fst (store_new_alarm w nm r t p st) = inr (uuid4 w)
  /\ alarms (snd (store_new_alarm w nm r t p st)) = alarms st ++ [new]
  /\ In new (get_alarms (snd (store_new_alarm w nm r t p st)))
  /\ alarms_file (snd (store_new_alarm w nm r t p st)) =
     match save_error w with
     | None => JsonList (alarms st ++ [new])
     | Some (OpenFails _) => alarms_file st
     | Some (WriteFails _) => Malformed
     end.
Proof.
  intros new; unfold store_new_alarm; cbn [fst snd].
  assert (Hal : alarms (log_event w (Alarm_added (name new) r t)
                          (save_alarms w (alarms (set_alarms (alarms st ++ [new]) st))
                             (set_alarms (alarms st ++ [new]) st))) = alarms st ++ [new]).
  { now rewrite log_event_alarms, save_alarms_alarms. }
  fold new.
  split; [reflexivity|].
  split; [exact Hal|].
  split.
  - unfold get_alarms; rewrite Hal.
    apply sorted_In, in_or_app; right; now left.
  - now rewrite log_event_alarms_file, save_alarms_file.
Qed.

Lemma add_alarm_valid w r t nm per st :
  In r AVAILABLE_RESOURCES -> valid_threshold r t -> In per valid_periods ->
  add_alarm w (PStr r) (PInt t) nm (PStr per) st = store_new_alarm w nm r t per st.
Proof.
  intros Hr Ht Hp.
  unfold add_alarm.
  assert (Hin : py_in (PStr r) AVAILABLE_RESOURCES = true)
    by (apply py_in_true; now exists r).
  assert (Hper : py_in (PStr per) valid_periods = true)
    by (apply py_in_true; now exists per).
  rewrite Hin; cbn [negb andb str_value].
  rewrite Hin, Hper; cbn [negb].
  unfold valid_threshold in Ht.
  destruct (String.eqb r "logs").
  - destruct (t <=? 0) eqn:E; [apply Z.leb_le in E; lia|reflexivity].
  - assert (E : (1 <=? t) && (t <=? 100) = true)
      by (apply andb_true_iff; rewrite !Z.leb_le; lia).
    rewrite E; reflexivity.
Qed.

(** C10.  When the first argument is not a resource name and the second is
    a string that is one, [add_alarm(a, b, c)] reads its arguments as
    name, resource, threshold: the call is the call [add_alarm(b, c, a)],
    result and state alike; with an integer [c] in range it stores a rule of
    name [a], resource [b] and threshold [c]. *)
Theorem add_alarm_name_first (w : world) (a c p : pyval) (b : string) (st : state) :
  (forall s, In s AVAILABLE_RESOURCES -> a <> PStr s) ->
  In b AVAILABLE_RESOURCES ->
  add_alarm w a (PStr b) c p st = add_alarm w (PStr b) c a p st
  /\ (forall t per, c = PInt t -> valid_threshold b t -> p = PStr per -> In per valid_periods ->
      truthy a = true ->
      fst (add_alarm w a (PStr b) c p st) = inr (uuid4 w)
      /\ alarms (snd (add_alarm w a (PStr b) c p st))
         = alarms st ++ [mk_alarm (uuid4 w) a b t (Some per)]).
Proof.
  intros Ha Hb.
  assert (Hina : py_in a AVAILABLE_RESOURCES = false) by now apply py_in_false.
  assert (Hinb : py_in (PStr b) AVAILABLE_RESOURCES = true)
    by (apply py_in_true; now exists b).
  assert (Heq : add_alarm w a (PStr b) c p st = add_alarm w (PStr b) c a p st).
  { unfold add_alarm.
    rewrite Hina, Hinb; cbn [negb andb isinstance_str].
    reflexivity. }
  split; [exact Heq|].
  intros t per -> Ht -> Hper Hname.
  rewrite Heq, add_alarm_valid by assumption.
  pose proof (store_new_alarm_spec w a b t per st) as H; cbv zeta in H.
  rewrite Hname in H.
  destruct H as (H1 & H2 & _); now rewrite H1, H2.
Qed.

Lemma add_alarm_name_first_witness :
  let w := mk_world 10 "2025-01-01T10:00:02" "id-3" (inr (mk_metrics 91 10 10)) true None
                    false None MailNotConfigured in
  let st := mk_state [] None (JsonList []) [] in
  add_alarm w (PStr "My alarm") (PStr "cpu") (PInt 85) (PStr "always") st
  = add_alarm w (PStr "cpu") (PInt 85) (PStr "My alarm") (PStr "always") st
  /\ fst (add_alarm w (PStr "My alarm") (PStr "cpu") (PInt 85) (PStr "always") st) = inr "id-3"
  /\ alarms (snd (add_alarm w (PStr "My alarm") (PStr "cpu") (PInt 85) (PStr "always") st))
     = [mk_alarm "id-3" (PStr "My alarm") "cpu" 85 (Some "always")].
Proof.
  intros w st.
  destruct (add_alarm_name_first w (PStr "My alarm") (PInt 85) (PStr "always") "cpu" st)
    as [Heq Hrule].
  - simpl; intros s [<-|[<-|[<-|[<-|[]]]]]; discriminate.
  - simpl; tauto.
  - split; [exact Heq|].
    apply (Hrule 85 "always"); try reflexivity.
    + unfold valid_threshold; simpl; lia.
    + simpl; tauto.
Defined.

Lemma rejected_log_event w ev st msg :
  rejected st (inl (ValueError msg), log_event w ev st).
Proof.
  unfold rejected; cbn [fst snd].
  rewrite log_event_alarms, log_event_alarms_file, log_event_triggered.
  repeat split; now exists msg.
Qed.

(** C6, as the code has it.  With a resource among the four, an integer
    threshold in its range and a period among the five, [add_alarm] returns
    the id just generated and [get_alarms] lists a rule with that id and
    those fields.  The call raises [ValueError] and leaves the rules alone
    when the first argument is not a resource and the second is not a string
    naming one (when it is, the arguments are read as name, resource,
    threshold); when the resource is one of the four and the integer
    threshold is out of range; and when the resource is one of the four, the
    threshold is an integer and the period is not among the five.  When the
    resource is one of the four and the threshold is [None] or a string, the
    comparison with a number raises [TypeError], no [ValueError], whatever
    the period; the rules are left alone then too. *)
Theorem add_alarm_validates (w : world) (nm : pyval) (st : state) :
  (forall r t per,
      In r AVAILABLE_RESOURCES -> valid_threshold r t -> In per valid_periods ->
      let res := add_alarm w (PStr r) (PInt t) nm (PStr per) st in
      fst res = inr (uuid4 w)
      /\ exists new,
          In new (get_alarms (snd res))
          /\ alarms (snd res) = alarms st ++ [new]
          /\ id new = uuid4 w /\ resource new = r /\ threshold new = t
          /\ active_period new = Some per)
  /\ (forall res thr per,
      (forall s, In s AVAILABLE_RESOURCES -> res <> PStr s) ->
      (forall s, In s AVAILABLE_RESOURCES -> thr <> PStr s) ->
      rejected st (add_alarm w res thr nm per st))
  /\ (forall r t per,
      In r AVAILABLE_RESOURCES -> ~ valid_threshold r t ->
      rejected st (add_alarm w (PStr r) (PInt t) nm per st))
  /\ (forall r t per,
      In r AVAILABLE_RESOURCES ->
      (forall s, In s valid_periods -> per <> PStr s) ->
      rejected st (add_alarm w (PStr r) (PInt t) nm per st))
  /\ (forall r thr per,
      In r AVAILABLE_RESOURCES -> (forall t, thr <> PInt t) ->
      add_alarm w (PStr r) thr nm per st = (inl TypeError, st)).
Proof.
  split; [|split; [|split; [|split]]].
  - intros r t per Hr Ht Hper res; unfold res.
    rewrite add_alarm_valid by assumption.
    pose proof (store_new_alarm_spec w nm r t per st) as H; cbv zeta in H.
    destruct H as (H1 & H2 & H3 & _).
    split; [exact H1|].
    eexists; split; [exact H3|].
    split; [exact H2|].
    repeat split.
  - intros res thr per Hres Hthr.
    apply py_in_false in Hres, Hthr.
    unfold add_alarm.
    rewrite Hres, Hthr, andb_false_r, Hres; cbn [negb].
    apply rejected_log_event.
  - intros r t per Hr Ht.
    assert (Hin : py_in (PStr r) AVAILABLE_RESOURCES = true)
      by (apply py_in_true; now exists r).
    unfold add_alarm.
    rewrite Hin; cbn [negb andb str_value]; rewrite Hin; cbn [negb].
    unfold valid_threshold in Ht.
    destruct (String.eqb r "logs").
    + destruct (t <=? 0) eqn:E; [apply rejected_log_event|].
      apply Z.leb_gt in E; lia.
    + destruct ((1 <=? t) && (t <=? 100)) eqn:E; cbn [negb]; [|apply rejected_log_event].
      apply andb_true_iff in E; rewrite !Z.leb_le in E; lia.
  - intros r t per Hr Hper.
    assert (Hin : py_in (PStr r) AVAILABLE_RESOURCES = true)
      by (apply py_in_true; now exists r).
    apply py_in_false in Hper.
    unfold add_alarm.
    rewrite Hin; cbn [negb andb str_value]; rewrite Hin, Hper; cbn [negb].
    destruct (String.eqb r "logs").
    + destruct (t <=? 0) eqn:E; apply rejected_log_event.
    + destruct (negb ((1 <=? t) && (t <=? 100))); apply rejected_log_event.
  - intros r thr per Hr Hthr.
    assert (Hin : py_in (PStr r) AVAILABLE_RESOURCES = true)
      by (apply py_in_true; now exists r).
    unfold add_alarm.
    rewrite Hin; cbn [negb andb str_value]; rewrite Hin; cbn [negb].
    destruct thr as [|t|s]; [reflexivity|now destruct (Hthr t)|reflexivity].
Qed.

Lemma add_alarm_validates_witness :
  let w := mk_world 10 "2025-01-01T10:00:02" "id-3" (inr (mk_metrics 91 10 10)) true None
                    false None MailNotConfigured in
  let st := mk_state [] None (JsonList []) [] in
  fst (add_alarm w (PStr "logs") (PInt 500) PNone (PStr "night") st) = inr "id-3"
  /\ rejected st (add_alarm w (PStr "gpu") (PInt 50) PNone (PStr "always") st)
  /\ rejected st (add_alarm w (PStr "cpu") (PInt 101) PNone (PStr "always") st)
  /\ rejected st (add_alarm w (PStr "cpu") (PInt 50) PNone (PStr "weekend") st)
  /\ rejected st (add_alarm w (PStr "cpu") (PInt 0) PNone (PStr "weekend") st)
  /\ add_alarm w (PStr "cpu") PNone PNone (PStr "weekend") st = (inl TypeError, st).
Proof.
  intros w st.
  destruct (add_alarm_validates w PNone st) as (Hok & Hres & Hthr & Hper & Htype).
  split; [|split; [|split; [|split; [|split]]]].
  - apply (Hok "logs" 500 "night").
    + simpl; tauto.
    + unfold valid_threshold; simpl; lia.
    + simpl; tauto.
  - apply Hres.
    + simpl; intros s [<-|[<-|[<-|[<-|[]]]]]; discriminate.
    + intros s _; discriminate.
  - apply Hthr.
    + simpl; tauto.
    + unfold valid_threshold; simpl; lia.
  - apply Hper.
    + simpl; tauto.
    + simpl; intros s [<-|[<-|[<-|[<-|[<-|[]]]]]]; discriminate.
  - apply Hper.
    + simpl; tauto.
    + simpl; intros s [<-|[<-|[<-|[<-|[<-|[]]]]]]; discriminate.
  - apply Htype.
    + simpl; tauto.
    + intros t; discriminate.
Defined.

(** C6 as stated fails: ['My alarm'] is not a resource, yet the call
    succeeds and a rule is stored. *)
Lemma add_alarm_invalid_resource_stored :
  let w := mk_world 10 "2025-01-01T10:00:02" "id-3" (inr (mk_metrics 91 10 10)) true None
                    false None MailNotConfigured in
  let st := mk_state [] None (JsonList []) [] in
  let res := add_alarm w (PStr "My alarm") (PStr "cpu") (PInt 85) (PStr "always") st in
  ~ In "My alarm" AVAILABLE_RESOURCES
  /\ fst res = inr "id-3"
  /\ alarms (snd res) = [mk_alarm "id-3" (PStr "My alarm") "cpu" 85 (Some "always")]
  /\ alarms (snd res) <> alarms st
  /\ ~ rejected st res.
Proof.
  intros w st res.
  split; [simpl; intros [H|[H|[H|[H|[]]]]]; discriminate H|].
  split; [reflexivity|].
  split; [reflexivity|].
  split; [discriminate|].
  intros (_ & H & _); discriminate H.
Qed.

(** ** Evaluation: one resource *)

Lemma filter_filter_comm {A : Type} (f g : A -> bool) (l : list A) :
  filter f (filter g l) = filter g (filter f l).
Proof.
  induction l as [|x l IH]; simpl; [reflexivity|].
  destruct (f x) eqn:Hf, (g x) eqn:Hg; simpl; rewrite ?Hf, ?Hg, IH; reflexivity.
Qed.

Lemma filter_idem {A : Type} (f : A -> bool) (l : list A) :
  filter f (filter f l) = filter f l.
Proof.
  induction l as [|x l IH]; simpl; [reflexivity|].
  destruct (f x) eqn:Hf; simpl; rewrite ?Hf, IH; reflexivity.
Qed.

Lemma check_resource_winner w u n st r :
  check_resource w u n st r =
  match winner w u n st r with
  | Some a => _trigger_alarm w a (current_value_of u n r) st
  | None => st
  end.
Proof.
  unfold check_resource, winner.
  destruct (filter _ (get_alarms st)) as [|y l]; [reflexivity|].
  destruct (filter _ (y :: l)); reflexivity.
Qed.

Lemma winner_alarms w u n st st' r :
  alarms st' = alarms st -> winner w u n st' r = winner w u n st r.
Proof.
  intros H; unfold winner, get_alarms; now rewrite H.
Qed.

Lemma candidates_In w u n st r (a : alarm) :
  In a (filter (_is_alarm_active (now_hour w))
          (filter (fun a => String.eqb (resource a) r
                            && int_le_num (threshold a) (current_value_of u n r))
                  (get_alarms st)))
  <-> In a (alarms st) /\ breaching (now_hour w) (current_value_of u n r) r a = true.
Proof.
  rewrite !filter_In; unfold get_alarms; rewrite sorted_In; unfold breaching.
  rewrite (andb_true_iff (_ && _)); tauto.
Qed.

Lemma winner_highest w u n st r a :
  winner w u n st r = Some a -> highest_breaching w u n st r a.
Proof.
  unfold winner, highest_breaching.
  destruct (filter (_is_alarm_active _) _) as [|x l] eqn:E; [discriminate|].
  intros [= <-].
  assert (Hin : forall b, In b (x :: l) <->
                          In b (alarms st)
                          /\ breaching (now_hour w) (current_value_of u n r) r b = true).
  { intros b; rewrite <- E; apply candidates_In. }
  split; [apply Hin, py_max_In|].
  split; [apply Hin, py_max_In|].
  intros b Hb Hbr; apply py_max_greatest, Hin; now split.
Qed.

Lemma winner_None w u n st r :
  winner w u n st r = None <-> resource_breaches w u n st r = false.
Proof.
  unfold winner, resource_breaches.
  destruct (filter (_is_alarm_active _) _) as [|x l] eqn:E.
  - split; [intros _|reflexivity].
    destruct (existsb _ _) eqn:Hex; [|reflexivity].
    apply existsb_exists in Hex; destruct Hex as (b & Hb & Hbr).
    assert (H : In b []) by (rewrite <- E; apply candidates_In; now split).
    destruct H.
  - split; [discriminate|intros Hex].
    assert (H : In x (x :: l)) by now left.
    rewrite <- E in H; apply candidates_In in H; destruct H as [Hx Hbr].
    assert (existsb (breaching (now_hour w) (current_value_of u n r) r) (alarms st) = true)
      by (apply existsb_exists; now exists x).
    congruence.
Qed.

Lemma winner_Some w u n st r :
  resource_breaches w u n st r = true <-> exists a, winner w u n st r = Some a.
Proof.
  pose proof (winner_None w u n st r) as H.
  destruct (winner w u n st r) as [a|].
  - split; [now exists a|intros _].
    destruct (resource_breaches w u n st r); [reflexivity|].
    discriminate (proj2 H eq_refl).
  - rewrite (proj1 H eq_refl); split; [discriminate|intros [a Ha]; discriminate].
Qed.

(** C3.  For a resource with a stored rule that is active at the current
    hour and whose threshold is at most the current value (a threshold equal
    to the value counts), the iteration of the loop for that resource calls
    [_trigger_alarm] on a rule of greatest threshold among those rules: it
    is the triggered alarm when the iteration ends. *)
Theorem check_resource_triggers_highest (w : world) (u : usage) (n : Z) (st : state)
    (r : string) :
  (exists b, In b (alarms st)
             /\ String.eqb (resource b) r = true
             /\ _is_alarm_active (now_hour w) b = true
             /\ int_le_num (threshold b) (current_value_of u n r) = true) ->
  exists a,
    highest_breaching w u n st r a
    /\ check_resource w u n st r = _trigger_alarm w a (current_value_of u n r) st
    /\ get_triggered_alarm (check_resource w u n st r)
       = Some (mk_triggered a (current_value_of u n r) (now_iso w)).
Proof.
  intros (b & Hb & Hres & Hact & Hle).
  assert (Hbr : resource_breaches w u n st r = true).
  { apply existsb_exists; exists b; split; [assumption|].
    unfold breaching; now rewrite Hres, Hle, Hact. }
  apply winner_Some in Hbr; destruct Hbr as [a Ha].
  exists a.
  split; [now apply winner_highest|].
  rewrite check_resource_winner, Ha.
  split; [reflexivity|].
  apply trigger_alarm_triggered.
Qed.

Lemma check_resource_triggers_highest_witness :
  let w := mk_world 10 "2025-01-01T10:00:02" "id-3" (inr (mk_metrics 90 10 10)) true None
                    false None MailNotConfigured in
  let a70 := mk_alarm "id-1" (PStr "CPU warning") "cpu" 70 (Some "always") in
  let a85 := mk_alarm "id-2" (PStr "CPU critical") "cpu" 85 (Some "always") in
  let a95 := mk_alarm "id-4" (PStr "CPU fatal") "cpu" 95 (Some "always") in
  let st := mk_state [a85; a95; a70] None (JsonList [a85; a95; a70]) [] in
  let u := mk_usage (NFloat 90) (NFloat 10) (NFloat 10) (Some (NInt 0)) in
  get_triggered_alarm (check_resource w u 0 st "cpu")
  = Some (mk_triggered a85 (NFloat 90) "2025-01-01T10:00:02").
Proof.
  intros w a70 a85 a95 st u.
  destruct (check_resource_triggers_highest w u 0 st "cpu") as (a & Hhigh & _ & Ht).
  - exists a70; split; [right; right; now left|]; repeat split.
  - rewrite Ht; do 2 f_equal.
    destruct Hhigh as (Hin & Hbr & Hmax).
    assert (H85 : threshold a85 <= threshold a).
    { apply Hmax; [now left|reflexivity]. }
    destruct Hin as [<-|[<-|[<-|[]]]].
    + reflexivity.
    + discriminate Hbr.
    + simpl in H85; lia.
Defined.

(** ** Evaluation: the whole loop *)

Lemma check_resource_alarms w u n st r : alarms (check_resource w u n st r) = alarms st.
Proof.
  rewrite check_resource_winner.
  destruct (winner w u n st r); [apply trigger_alarm_alarms|reflexivity].
Qed.

Lemma check_resource_alarms_file w u n st r :
  alarms_file (check_resource w u n st r) = alarms_file st.
Proof.
  rewrite check_resource_winner.
  destruct (winner w u n st r); [apply trigger_alarm_alarms_file|reflexivity].
Qed.

Lemma check_resource_overwrite w u n st st0 r :
  alarms st0 = alarms st ->
  triggered_alarm (check_resource w u n st0 r) = overwrite w u n st (triggered_alarm st0) r.
Proof.
  intros H.
  rewrite check_resource_winner; unfold overwrite.
  rewrite (winner_alarms w u n st st0 r H).
  destruct (winner w u n st r); [apply trigger_alarm_triggered|reflexivity].
Qed.

Lemma fold_check_resource w u n st rs : forall st0,
  alarms st0 = alarms st ->
  triggered_alarm (fold_left (check_resource w u n) rs st0)
  = fold_left (overwrite w u n st) rs (triggered_alarm st0)
  /\ alarms (fold_left (check_resource w u n) rs st0) = alarms st
  /\ alarms_file (fold_left (check_resource w u n) rs st0) = alarms_file st0.
Proof.
  induction rs as [|r rs IH]; intros st0 H; simpl.
  - auto.
  - destruct (IH (check_resource w u n st0 r)) as (H1 & H2 & H3).
    + now rewrite check_resource_alarms.
    + rewrite H1, H2, H3.
      rewrite (check_resource_overwrite w u n st st0 r H), check_resource_alarms_file.
      auto.
Qed.

(** The loop leaves the triggered alarm of the last resource that has a
    winner, and the alarm it found when there is none. *)
Lemma check_resources_triggered w u n st :
  triggered_alarm (check_resources w u n st)
  = fold_left (overwrite w u n st) AVAILABLE_RESOURCES (triggered_alarm st).
Proof.
  unfold check_resources.
  now destruct (fold_check_resource w u n st AVAILABLE_RESOURCES st eq_refl) as (H & _).
Qed.

Lemma check_resources_alarms w u n st : alarms (check_resources w u n st) = alarms st.
Proof.
  unfold check_resources.
  now destruct (fold_check_resource w u n st AVAILABLE_RESOURCES st eq_refl) as (_ & H & _).
Qed.

Lemma check_resources_alarms_file w u n st :
  alarms_file (check_resources w u n st) = alarms_file st.
Proof.
  unfold check_resources.
  now destruct (fold_check_resource w u n st AVAILABLE_RESOURCES st eq_refl) as (_ & _ & H).
Qed.

Lemma fold_overwrite_cases w u n st rs : forall t0,
  fold_left (overwrite w u n st) rs t0 = t0
  \/ exists r a, In r rs /\ winner w u n st r = Some a
                 /\ fold_left (overwrite w u n st) rs t0
                    = Some (mk_triggered a (current_value_of u n r) (now_iso w)).
Proof.
  induction rs as [|r rs IH]; intros t0; simpl.
  - now left.
  - destruct (IH (overwrite w u n st t0 r)) as [H|(r' & a & Hr' & Ha & H)].
    + rewrite H; unfold overwrite.
      destruct (winner w u n st r) as [a|] eqn:E; [|now left].
      right; exists r, a; auto.
    + right; exists r', a; auto.
Qed.

Lemma fold_overwrite_none w u n st rs : forall t0,
  (forall r, In r rs -> winner w u n st r = None) ->
  fold_left (overwrite w u n st) rs t0 = t0.
Proof.
  induction rs as [|r rs IH]; intros t0 H; simpl.
  - reflexivity.
  - unfold overwrite at 2; rewrite (H r) by now left.
    apply IH; intros r' Hr'; apply H; now right.
Qed.

(** When no resource breaches, the loop leaves the triggered alarm it
    found. *)
Lemma check_resources_no_breach w u n st :
  (forall r, In r AVAILABLE_RESOURCES -> resource_breaches w u n st r = false) ->
  triggered_alarm (check_resources w u n st) = triggered_alarm st.
Proof.
  intros H.
  rewrite check_resources_triggered.
  apply fold_overwrite_none.
  intros r Hr; apply winner_None; now apply H.
Qed.

(** ** The tick: evaluation inside the [try] *)

Lemma get_system_usage_alarms w st : alarms (snd (get_system_usage w st)) = alarms st.
Proof.
  unfold get_system_usage; destruct (psutil_sample w); cbn [snd];
    [apply log_event_alarms|reflexivity].
Qed.

Lemma get_system_usage_triggered w st :
  triggered_alarm (snd (get_system_usage w st)) = triggered_alarm st.
Proof.
  unfold get_system_usage; destruct (psutil_sample w); cbn [snd];
    [apply log_event_triggered|reflexivity].
Qed.

Lemma get_system_usage_alarms_file w st :
  alarms_file (snd (get_system_usage w st)) = alarms_file st.
Proof.
  unfold get_system_usage; destruct (psutil_sample w); cbn [snd];
    [apply log_event_alarms_file|reflexivity].
Qed.

(** A tick that can read the log evaluates the rules. *)
Lemma run_tick_evaluates w st :
  log_dir_ok w = true ->
  run_tick w st
  = check_resources w (tick_usage w st) (tick_log_count w st) (snd (get_system_usage w st)).
Proof.
  intros Hok.
  unfold run_tick, tick_body, tick_usage, tick_log_count, get_log_history.
  destruct (get_system_usage w st) as [u st1]; cbn [fst snd].
  now rewrite Hok.
Qed.

(** A tick that cannot read the log raises inside its [try]; the handler
    leaves the state as it was. *)
Lemma run_tick_raises w st : log_dir_ok w = false -> run_tick w st = st.
Proof.
  intros Hno.
  unfold run_tick, tick_body, get_log_history, get_system_usage, log_event.
  rewrite Hno.
  destruct (psutil_sample w); reflexivity.
Qed.

Lemma resource_breaches_alarms w u n st st' r :
  alarms st' = alarms st -> resource_breaches w u n st' r = resource_breaches w u n st r.
Proof.
  intros H; unfold resource_breaches; now rewrite H.
Qed.

(** The loop on a store where some resource breaches: the winner of the
    last breaching resource is what it leaves. *)
Lemma check_resources_last_breaching w u n st :
  breaching_resources w u n st <> [] ->
  exists a,
    let r := last (breaching_resources w u n st) "" in
    winner w u n st r = Some a
    /\ highest_breaching w u n st r a
    /\ triggered_alarm (check_resources w u n st)
       = Some (mk_triggered a (current_value_of u n r) (now_iso w)).
Proof.
  rewrite check_resources_triggered.
  unfold breaching_resources, AVAILABLE_RESOURCES; cbn [filter fold_left].
  pose proof (winner_None w u n st "cpu") as Nc.
  pose proof (winner_None w u n st "ram") as Nr.
  pose proof (winner_None w u n st "disk") as Nd.
  pose proof (winner_None w u n st "logs") as Nl.
  unfold overwrite.
  destruct (winner w u n st "cpu") as [ac|] eqn:Wc;
    [destruct (resource_breaches w u n st "cpu"); [|discriminate (proj2 Nc eq_refl)]
    |rewrite (proj1 Nc eq_refl)];
  (destruct (winner w u n st "ram") as [ar|] eqn:Wr;
    [destruct (resource_breaches w u n st "ram"); [|discriminate (proj2 Nr eq_refl)]
    |rewrite (proj1 Nr eq_refl)]);
  (destruct (winner w u n st "disk") as [ad|] eqn:Wd;
    [destruct (resource_breaches w u n st "disk"); [|discriminate (proj2 Nd eq_refl)]
    |rewrite (proj1 Nd eq_refl)]);
  (destruct (winner w u n st "logs") as [al|] eqn:Wl;
    [destruct (resource_breaches w u n st "logs"); [|discriminate (proj2 Nl eq_refl)]
    |rewrite (proj1 Nl eq_refl)]);
  cbn [last]; intros Hne; try (now destruct Hne);
  eexists; (split; [eassumption|]); (split; [now apply winner_highest|reflexivity]).
Qed.

Lemma breaching_resources_alarms w u n st st' :
  alarms st' = alarms st -> breaching_resources w u n st' = breaching_resources w u n st.
Proof.
  intros H; unfold breaching_resources.
  apply filter_ext; intros r; now apply resource_breaches_alarms.
Qed.

Lemma highest_breaching_alarms w u n st st' r a :
  alarms st' = alarms st -> highest_breaching w u n st' r a -> highest_breaching w u n st r a.
Proof.
  unfold highest_breaching; now intros ->.
Qed.

(** C1.  When more than one resource breaches in a cycle, the triggered
    alarm at the end of the loop is the winning rule of the last of them in
    the order cpu, ram, disk, logs, with the value of that resource; so
    when cpu and logs both breach it is the winning rule of logs, with the
    log count.  The same holds of a whole tick of the monitor loop, on the
    values the tick samples. *)
Theorem last_breaching_resource_wins (w : world) (u : usage) (n : Z) (st : state) :
  ((1 < List.length (breaching_resources w u n st))%nat ->
   exists a,
     let r := last (breaching_resources w u n st) "" in
     winner w u n st r = Some a
     /\ highest_breaching w u n st r a
     /\ get_triggered_alarm (check_resources w u n st)
        = Some (mk_triggered a (current_value_of u n r) (now_iso w)))
  /\ (resource_breaches w u n st "cpu" = true ->
      resource_breaches w u n st "logs" = true ->
      exists a,
        winner w u n st "logs" = Some a
        /\ highest_breaching w u n st "logs" a
        /\ resource a = "logs"
        /\ get_triggered_alarm (check_resources w u n st)
           = Some (mk_triggered a (NInt n) (now_iso w)))
  /\ (log_dir_ok w = true ->
      let tu := tick_usage w st in
      let tn := tick_log_count w st in
      (1 < List.length (breaching_resources w tu tn st))%nat ->
      exists a,
        let r := last (breaching_resources w tu tn st) "" in
        highest_breaching w tu tn st r a
        /\ get_triggered_alarm (run_tick w st)
           = Some (mk_triggered a (current_value_of tu tn r) (now_iso w))).
Proof.
  split; [|split].
  - intros Hlen.
    apply check_resources_last_breaching.
    intros E; rewrite E in Hlen; simpl in Hlen; lia.
  - intros Hc Hl.
    assert (Hlast : last (breaching_resources w u n st) "" = "logs").
    { unfold breaching_resources, AVAILABLE_RESOURCES; cbn [filter].
      rewrite Hc, Hl.
      destruct (resource_breaches w u n st "ram"), (resource_breaches w u n st "disk");
        reflexivity. }
    destruct (check_resources_last_breaching w u n st) as (a & Ha & Hhigh & Ht).
    + unfold breaching_resources, AVAILABLE_RESOURCES; cbn [filter].
      rewrite Hc; discriminate.
    + rewrite Hlast in Ha, Hhigh, Ht.
      exists a; split; [assumption|]; split; [assumption|].
      split; [|exact Ht].
      destruct Hhigh as (_ & Hbr & _).
      unfold breaching in Hbr.
      apply andb_true_iff in Hbr; destruct Hbr as [Hbr _].
      apply andb_true_iff in Hbr; destruct Hbr as [Hbr _].
      now apply String.eqb_eq in Hbr.
  - intros Hok tu tn Hlen.
    pose proof (get_system_usage_alarms w st) as Hal.
    unfold get_triggered_alarm.
    rewrite run_tick_evaluates by assumption; fold tu tn.
    destruct (check_resources_last_breaching w tu tn (snd (get_system_usage w st)))
      as (a & _ & Hhigh & Ht).
    + rewrite (breaching_resources_alarms _ _ _ st) by assumption.
      intros E; rewrite E in Hlen; simpl in Hlen; lia.
    + rewrite (breaching_resources_alarms _ _ _ st) in Hhigh, Ht by assumption.
      exists a; split; [|exact Ht].
      now apply highest_breaching_alarms with (snd (get_system_usage w st)).
Qed.

Lemma last_breaching_resource_wins_witness :
  let w := mk_world 10 "2025-01-01T10:00:02" "id-3" (inr (mk_metrics 90 10 10)) true None
                    false None MailNotConfigured in
  let c85 := mk_alarm "id-1" (PStr "CPU critical") "cpu" 85 (Some "always") in
  let l3 := mk_alarm "id-2" (PStr "Log flood") "logs" 3 (Some "always") in
  let d50 := mk_alarm "id-4" (PStr "Disk half") "disk" 50 (Some "always") in
  let st := mk_state [l3; c85; d50] None (JsonList [l3; c85; d50]) [] in
  let u := mk_usage (NFloat 90) (NFloat 10) (NFloat 10) (Some (NInt 5)) in
  let lines := [Alert_email_sent; Alert_email_sent; Alert_email_sent] in
  get_triggered_alarm (check_resources w u 5 st)
  = Some (mk_triggered l3 (NInt 5) "2025-01-01T10:00:02")
  /\ (exists a, resource a = "logs"
                /\ get_triggered_alarm (check_resources w u 5 st)
                   = Some (mk_triggered a (NInt 5) "2025-01-01T10:00:02"))
  /\ exists a, threshold a = 3
               /\ get_triggered_alarm (run_tick w (set_log_file lines st))
                  = Some (mk_triggered a (NInt 3) "2025-01-01T10:00:02").
Proof.
  intros w c85 l3 d50 st u lines.
  destruct (last_breaching_resource_wins w u 5 st) as (Hlast & Hlogs & _).
  destruct (last_breaching_resource_wins w u 5 (set_log_file lines st)) as (_ & _ & Htick).
  split; [|split].
  - destruct Hlast as (a & Hw & _ & Ht).
    + simpl; lia.
    + rewrite Ht.
      change (winner w u 5 st "logs" = Some a) in Hw.
      injection Hw as <-; reflexivity.
  - destruct Hlogs as (a & _ & _ & Hres & Ht); [reflexivity|reflexivity|].
    exists a; split; [exact Hres|exact Ht].
  - destruct Htick as (a & Hhigh & Ht); [reflexivity|simpl; lia|].
    exists a; split; [|exact Ht].
    destruct Hhigh as (Hin & Hbr & _).
    destruct Hin as [<-|[<-|[<-|[]]]]; [reflexivity|discriminate Hbr|discriminate Hbr].
Defined.

(** ** Evaluation: active periods *)

Lemma winner_filter_active w u n st r :
  winner w u n (set_alarms (filter (_is_alarm_active (now_hour w)) (alarms st)) st) r
  = winner w u n st r.
Proof.
  unfold winner, get_alarms; cbn [alarms set_alarms].
  rewrite <- (filter_sorted sort_key).
  rewrite (filter_filter_comm _ (_is_alarm_active (now_hour w))), filter_idem.
  reflexivity.
Qed.

Lemma fold_left_ext {A B : Type} (f g : A -> B -> A) (l : list B) :
  (forall a b, f a b = g a b) -> forall a, fold_left f l a = fold_left g l a.
Proof.
  intros H; induction l as [|b l IH]; intros a; simpl; [reflexivity|].
  now rewrite H, IH.
Qed.

(** The example of C4 through whole ticks: an office rule breached at
    22 h is not triggered, the same rule and breach at 10 h is; and a night
    rule of threshold 95 does not keep the office rule of threshold 85 from
    winning at 10 h. *)
Example office_rule_at_22_and_at_10 :
  let at_hour h := mk_world h "2025-01-01" "id-3" (inr (mk_metrics 97 10 10)) true None
                            false None MailNotConfigured in
  let office85 := mk_alarm "id-1" (PStr "Office CPU") "cpu" 85 (Some "office") in
  let night95 := mk_alarm "id-2" (PStr "Night CPU") "cpu" 95 (Some "night") in
  let st := mk_state [office85; night95] None (JsonList [office85; night95]) [] in
  get_triggered_alarm (run_tick (at_hour 22) (set_alarms [office85] st)) = None
  /\ get_triggered_alarm (run_tick (at_hour 10) (set_alarms [office85] st))
     = Some (mk_triggered office85 (NFloat 97) "2025-01-01")
  /\ get_triggered_alarm (run_tick (at_hour 10) st)
     = Some (mk_triggered office85 (NFloat 97) "2025-01-01")
  /\ get_triggered_alarm (run_tick (at_hour 22) st)
     = Some (mk_triggered night95 (NFloat 97) "2025-01-01").
Proof.
  repeat split.
Qed.

(** ** The tick: a cycle without breach *)

Lemma run_tick_alarms w st : alarms (run_tick w st) = alarms st.
Proof.
  destruct (log_dir_ok w) eqn:Hok.
  - now rewrite run_tick_evaluates, check_resources_alarms, get_system_usage_alarms.
  - now rewrite run_tick_raises.
Qed.

Lemma run_tick_alarms_file w st : alarms_file (run_tick w st) = alarms_file st.
Proof.
  destruct (log_dir_ok w) eqn:Hok.
  - now rewrite run_tick_evaluates, check_resources_alarms_file, get_system_usage_alarms_file.
  - now rewrite run_tick_raises.
Qed.

(** A tick in which no rule breaches leaves the triggered alarm it found:
    the loop of [run] has no statement that clears it. *)
Lemma run_tick_no_breach w st :
  (forall r, In r AVAILABLE_RESOURCES ->
             resource_breaches w (tick_usage w st) (tick_log_count w st) st r = false) ->
  triggered_alarm (run_tick w st) = triggered_alarm st.
Proof.
  intros H.
  destruct (log_dir_ok w) eqn:Hok.
  - rewrite run_tick_evaluates by assumption.
    rewrite check_resources_no_breach; [apply get_system_usage_triggered|].
    intros r Hr.
    rewrite (resource_breaches_alarms _ _ _ st) by apply get_system_usage_alarms.
    now apply H.
  - now rewrite run_tick_raises.
Qed.

Lemma filter_none {A : Type} (f : A -> bool) (l : list A) :
  (forall x, In x l -> f x = false) -> filter f l = [].
Proof.
  induction l as [|x l IH]; simpl; intros H; [reflexivity|].
  rewrite (H x) by now left.
  apply IH; intros y Hy; apply H; now right.
Qed.

(** [_check_alarms] clears the triggered alarm first: when no stored rule
    has a threshold at most the value of its resource, none is left. *)
Lemma check_alarms_resets w u st :
  (forall r a, In r AVAILABLE_RESOURCES -> In a (alarms st) -> resource a = r ->
               int_le_num (threshold a) (usage_get u (String.append r "_percent") (NInt 0))
               = false) ->
  triggered_alarm (_check_alarms w u st) = None.
Proof.
  intros H.
  assert (Hnone : forall r, In r AVAILABLE_RESOURCES ->
            filter (fun a => String.eqb (resource a) r
                             && int_le_num (threshold a)
                                  (usage_get u (String.append r "_percent") (NInt 0)))
                   (alarms (set_triggered_alarm None st)) = []).
  { intros r Hr; apply filter_none; intros a Ha.
    destruct (String.eqb (resource a) r) eqn:E; [|reflexivity].
    apply String.eqb_eq in E; cbn [andb]; now apply (H r a). }
  unfold _check_alarms, AVAILABLE_RESOURCES; cbn [fold_left].
  rewrite !Hnone by (simpl; tauto).
  reflexivity.
Qed.

(** [_check_alarms] does not look at periods: on a store holding one
    office rule, breached at 22 h, it leaves that rule triggered.  The
    program does not call it. *)
Example check_alarms_ignores_periods :
  let w := mk_world 22 "2025-01-01T22:00:02" "id-3" (inr (mk_metrics 90 10 10)) true None
                    false None MailNotConfigured in
  let office85 := mk_alarm "id-1" (PStr "Office CPU") "cpu" 85 (Some "office") in
  let st := mk_state [office85] None (JsonList [office85]) [] in
  _is_alarm_active 22 office85 = false
  /\ get_triggered_alarm (_check_alarms w (tick_usage w st) st)
     = Some (mk_triggered office85 (NFloat 90) "2025-01-01T22:00:02")
  /\ get_triggered_alarm (run_tick w st) = None.
Proof.
  repeat split.
Qed.

(** ** Rules outside their period *)

Lemma trigger_alarm_set_alarms w a v l st :
  _trigger_alarm w a v (set_alarms l st) = set_alarms l (_trigger_alarm w a v st).
Proof.
  unfold _trigger_alarm, send_alert_email, log_event.
  destruct (String.eqb (upper (resource a)) "LOGS"), (alert_any w), (log_dir_ok w),
    (mail w), (mail_config_error w); reflexivity.
Qed.

Lemma check_resource_without_inactive w u n st r :
  check_resource w u n (set_alarms (filter (_is_alarm_active (now_hour w)) (alarms st)) st) r
  = set_alarms (filter (_is_alarm_active (now_hour w)) (alarms st)) (check_resource w u n st r).
Proof.
  rewrite !check_resource_winner, winner_filter_active.
  destruct (winner w u n st r); [apply trigger_alarm_set_alarms|reflexivity].
Qed.

Lemma fold_check_resource_without_inactive w u n rs : forall st,
  fold_left (check_resource w u n) rs
    (set_alarms (filter (_is_alarm_active (now_hour w)) (alarms st)) st)
  = set_alarms (filter (_is_alarm_active (now_hour w)) (alarms st))
      (fold_left (check_resource w u n) rs st).
Proof.
  induction rs as [|r rs IH]; intros st; cbn [fold_left]; [reflexivity|].
  rewrite check_resource_without_inactive.
  rewrite <- (check_resource_alarms w u n st r).
  apply IH.
Qed.

Lemma run_tick_without_inactive w st :
  run_tick w (set_alarms (filter (_is_alarm_active (now_hour w)) (alarms st)) st)
  = set_alarms (filter (_is_alarm_active (now_hour w)) (alarms st)) (run_tick w st).
Proof.
  destruct (log_dir_ok w) eqn:Hok; [|now rewrite !run_tick_raises].
  rewrite !run_tick_evaluates by assumption.
  set (l := filter (_is_alarm_active (now_hour w)) (alarms st)).
  assert (Hs : snd (get_system_usage w (set_alarms l st))
               = set_alarms l (snd (get_system_usage w st))).
  { unfold get_system_usage, log_event.
    destruct (psutil_sample w), (log_dir_ok w); reflexivity. }
  assert (Hu : tick_usage w (set_alarms l st) = tick_usage w st).
  { unfold tick_usage, get_system_usage, log_event.
    destruct (psutil_sample w), (log_dir_ok w); reflexivity. }
  assert (Hn : tick_log_count w (set_alarms l st) = tick_log_count w st).
  { unfold tick_log_count, get_system_usage, log_event.
    destruct (psutil_sample w), (log_dir_ok w); reflexivity. }
  rewrite Hs, Hu, Hn.
  unfold l; rewrite <- (get_system_usage_alarms w st).
  apply fold_check_resource_without_inactive.
Qed.

Lemma breaching_iff hour cur r a :
  breaching hour cur r a = true
  <-> resource a = r /\ int_le_num (threshold a) cur = true
      /\ _is_alarm_active hour a = true.
Proof.
  unfold breaching; rewrite !andb_true_iff, String.eqb_eq; tauto.
Qed.

Lemma only_inactive_no_breach w u n st r :
  (forall a, In a (alarms st) -> resource a = r ->
             int_le_num (threshold a) (current_value_of u n r) = true ->
             _is_alarm_active (now_hour w) a = false) ->
  resource_breaches w u n st r = false.
Proof.
  intros H; unfold resource_breaches.
  destruct (existsb _ _) eqn:E; [|reflexivity].
  apply existsb_exists in E; destruct E as (a & Ha & Hbr).
  apply breaching_iff in Hbr; destruct Hbr as (Hr & Hle & Hact).
  rewrite (H a Ha Hr Hle) in Hact; discriminate.
Qed.

Lemma active_breach w u n st r b :
  In b (alarms st) -> resource b = r ->
  int_le_num (threshold b) (current_value_of u n r) = true ->
  _is_alarm_active (now_hour w) b = true ->
  resource_breaches w u n st r = true.
Proof.
  intros Hb Hr Hle Hact; unfold resource_breaches.
  apply existsb_exists; exists b; split; [assumption|].
  apply breaching_iff; auto.
Qed.

(** C4.  Rules whose period excludes the current hour are invisible to
    the evaluation.  In one iteration of the loop, for a resource [r]:
    when every stored rule of [r] whose threshold is at most the current
    value is outside its period, the iteration changes nothing (no rule is
    triggered, nothing is logged or sent); when some stored rule of [r] is
    in its period with its threshold at most the current value, the
    iteration triggers a rule of [r] that is in its period, at the current
    value, with a threshold at least that of every such rule, whatever
    rules outside their period the store holds besides; and the iteration
    gives the same state as on the store with the rules outside their
    period taken out.  In a whole pass of the loop: when only rules outside
    their period have their threshold reached, the triggered alarm is left
    as it was; when the log can be read and a rule in its period has its
    threshold reached, the pass leaves a triggered alarm taken in this pass
    from a stored rule in its period; and the pass gives the same state as
    on the store without the rules outside their period.  In an iteration
    as in a pass, the triggered alarm left is the one found or a copy of a
    stored rule that is in its period with its threshold reached. *)
Theorem inactive_rules_are_invisible (w : world) (st : state) :
  let hour := now_hour w in
  let st_active := set_alarms (filter (_is_alarm_active hour) (alarms st)) st in
  (forall u n r,
     (forall a, In a (alarms st) -> resource a = r ->
                int_le_num (threshold a) (current_value_of u n r) = true ->
                _is_alarm_active hour a = false) ->
     check_resource w u n st r = st)
  /\ (forall u n r b,
        In b (alarms st) -> resource b = r ->
        int_le_num (threshold b) (current_value_of u n r) = true ->
        _is_alarm_active hour b = true ->
        exists a,
          get_triggered_alarm (check_resource w u n st r)
          = Some (mk_triggered a (current_value_of u n r) (now_iso w))
          /\ In a (alarms st) /\ resource a = r
          /\ int_le_num (threshold a) (current_value_of u n r) = true
          /\ _is_alarm_active hour a = true
          /\ threshold b <= threshold a)
  /\ (forall u n r,
        check_resource w u n st_active r
        = set_alarms (alarms st_active) (check_resource w u n st r))
  /\ ((forall r a, In r AVAILABLE_RESOURCES -> In a (alarms st) -> resource a = r ->
         int_le_num (threshold a)
           (current_value_of (tick_usage w st) (tick_log_count w st) r) = true ->
         _is_alarm_active hour a = false) ->
      get_triggered_alarm (run_tick w st) = triggered_alarm st)
  /\ (forall r b,
        log_dir_ok w = true ->
        In r AVAILABLE_RESOURCES -> In b (alarms st) -> resource b = r ->
        int_le_num (threshold b)
          (current_value_of (tick_usage w st) (tick_log_count w st) r) = true ->
        _is_alarm_active hour b = true ->
        exists t,
          get_triggered_alarm (run_tick w st) = Some t
          /\ triggered_at t = now_iso w
          /\ In (rule t) (alarms st)
          /\ int_le_num (threshold (rule t)) (current_value t) = true
          /\ _is_alarm_active hour (rule t) = true)
  /\ run_tick w st_active = set_alarms (alarms st_active) (run_tick w st)
  /\ (forall u n r t,
        get_triggered_alarm (check_resource w u n st r) = Some t ->
        triggered_alarm st = Some t
        \/ (In (rule t) (alarms st) /\ resource (rule t) = r
            /\ _is_alarm_active hour (rule t) = true
            /\ int_le_num (threshold (rule t)) (current_value t) = true))
  /\ (forall t,
        get_triggered_alarm (run_tick w st) = Some t ->
        triggered_alarm st = Some t
        \/ (In (rule t) (alarms st)
            /\ _is_alarm_active hour (rule t) = true
            /\ int_le_num (threshold (rule t)) (current_value t) = true)).
Proof.
  intros hour st_active.
  split; [|split; [|split; [|split; [|split; [|split; [|split]]]]]].
  - intros u n r H.
    rewrite check_resource_winner.
    replace (winner w u n st r) with (@None alarm); [reflexivity|].
    symmetry; apply winner_None; now apply only_inactive_no_breach.
  - intros u n r b Hb Hr Hle Hact.
    pose proof (active_breach w u n st r b Hb Hr Hle Hact) as Hbr.
    apply winner_Some in Hbr; destruct Hbr as (a & Ha).
    exists a.
    unfold get_triggered_alarm.
    rewrite check_resource_winner, Ha, trigger_alarm_triggered.
    split; [reflexivity|].
    apply winner_highest in Ha; destruct Ha as (Hin & Hbra & Hmax).
    apply breaching_iff in Hbra; destruct Hbra as (Hra & Hlea & Hacta).
    split; [assumption|].
    split; [assumption|].
    split; [assumption|].
    split; [assumption|].
    apply Hmax; [assumption|].
    apply breaching_iff; auto.
  - intros u n r; apply check_resource_without_inactive.
  - intros H; unfold get_triggered_alarm.
    apply run_tick_no_breach.
    intros r Hr; apply only_inactive_no_breach.
    intros a Ha Hra Hle; now apply (H r a).
  - intros r b Hok Hr Hb Hrb Hle Hact.
    set (u := tick_usage w st) in *.
    set (n := tick_log_count w st) in *.
    set (st1 := snd (get_system_usage w st)).
    assert (Hal : alarms st1 = alarms st) by apply get_system_usage_alarms.
    assert (Hne : breaching_resources w u n st1 <> []).
    { rewrite (breaching_resources_alarms w u n st st1 Hal).
      intros E.
      assert (Hin : In r (breaching_resources w u n st)).
      { apply filter_In; split; [assumption|].
        now apply active_breach with b. }
      rewrite E in Hin; destruct Hin. }
    destruct (check_resources_last_breaching w u n st1 Hne) as (a & Hlast); cbv zeta in Hlast.
    destruct Hlast as (_ & Hhigh & Htr).
    apply (highest_breaching_alarms w u n st st1 _ a Hal) in Hhigh.
    destruct Hhigh as (Hin & Hbra & _).
    apply breaching_iff in Hbra; destruct Hbra as (_ & Hlea & Hacta).
    eexists; split.
    { unfold get_triggered_alarm.
      rewrite run_tick_evaluates by assumption.
      exact Htr. }
    cbn [triggered_at rule current_value].
    split; [reflexivity|].
    split; [assumption|].
    split; assumption.
  - apply run_tick_without_inactive.
  - intros u n r t Ht.
    unfold get_triggered_alarm in Ht; rewrite check_resource_winner in Ht.
    destruct (winner w u n st r) as [a|] eqn:Ha; [right|now left].
    rewrite trigger_alarm_triggered in Ht; injection Ht as <-.
    cbn [rule current_value].
    apply winner_highest in Ha; destruct Ha as (Hin & Hbr & _).
    apply breaching_iff in Hbr; tauto.
  - intros t Ht.
    destruct (log_dir_ok w) eqn:Hok; [|left; now rewrite run_tick_raises in Ht].
    unfold get_triggered_alarm in Ht.
    rewrite run_tick_evaluates, check_resources_triggered in Ht by assumption.
    set (st1 := snd (get_system_usage w st)) in *.
    assert (Hal : alarms st1 = alarms st) by apply get_system_usage_alarms.
    assert (Htr : triggered_alarm st1 = triggered_alarm st)
      by apply get_system_usage_triggered.
    destruct (fold_overwrite_cases w (tick_usage w st) (tick_log_count w st) st1
                AVAILABLE_RESOURCES (triggered_alarm st1)) as [H|(r & a & _ & Ha & H)].
    + left; congruence.
    + right.
      rewrite H in Ht; injection Ht as <-; cbn [rule current_value].
      apply winner_highest in Ha; destruct Ha as (Hin & Hbr & _).
      apply breaching_iff in Hbr; rewrite Hal in Hin; tauto.
Qed.

Lemma inactive_rules_are_invisible_witness :
  let at_hour h := mk_world h "2025-01-01" "id-3" (inr (mk_metrics 97 10 10)) true None
                            false None MailNotConfigured in
  let office85 := mk_alarm "id-1" (PStr "Office CPU") "cpu" 85 (Some "office") in
  let night95 := mk_alarm "id-2" (PStr "Night CPU") "cpu" 95 (Some "night") in
  let alone := mk_state [office85] None (JsonList [office85]) [] in
  let both := mk_state [office85; night95] None (JsonList [office85; night95]) [] in
  let u := mk_usage (NFloat 97) (NFloat 10) (NFloat 10) (Some (NInt 0)) in
  check_resource (at_hour 22) u 0 alone "cpu" = alone
  /\ get_triggered_alarm (run_tick (at_hour 22) alone) = None
  /\ get_triggered_alarm (check_resource (at_hour 10) u 0 alone "cpu")
     = Some (mk_triggered office85 (NFloat 97) "2025-01-01")
  /\ get_triggered_alarm (check_resource (at_hour 10) u 0 both "cpu")
     = Some (mk_triggered office85 (NFloat 97) "2025-01-01")
  /\ (exists t, get_triggered_alarm (run_tick (at_hour 10) both) = Some t
                /\ rule t = office85)
  /\ run_tick (at_hour 10) (set_alarms [office85] both)
     = set_alarms [office85] (run_tick (at_hour 10) both).
Proof.
  intros at_hour office85 night95 alone both u.
  destruct (inactive_rules_are_invisible (at_hour 22) alone)
    as (Hquiet & _ & _ & Hquiet_tick & _ & _ & _ & _).
  destruct (inactive_rules_are_invisible (at_hour 10) alone)
    as (_ & Hwins & _ & _ & _ & _ & _ & _).
  destruct (inactive_rules_are_invisible (at_hour 10) both)
    as (_ & Hwins2 & _ & _ & Htick & Hsame & _ & _).
  split.
  { apply Hquiet.
    intros a [<-|[]] _ _; reflexivity. }
  split.
  { apply Hquiet_tick.
    intros r a _ [<-|[]] _ _; reflexivity. }
  split.
  { destruct (Hwins u 0 "cpu" office85) as (a & Ha & [<-|[]] & _);
      [now left|reflexivity|reflexivity|reflexivity|exact Ha]. }
  split.
  { destruct (Hwins2 u 0 "cpu" office85) as (a & Ha & [<-|[<-|[]]] & _ & _ & Hact & _);
      [now left|reflexivity|reflexivity|reflexivity|exact Ha|discriminate Hact]. }
  split.
  { destruct (Htick "cpu" office85) as (t & Ht & _ & [E|[E|[]]] & _ & Hact);
      [reflexivity|simpl; tauto|now left|reflexivity|reflexivity|reflexivity| |].
    - exists t; split; [exact Ht|now symmetry].
    - rewrite <- E in Hact; discriminate Hact. }
  exact Hsame.
Defined.

(** C2 on the code.  Two ticks of the monitor loop on one cpu rule of
    threshold 85: cpu is at 90 in the first and at 10 in the second.  No
    rule breaches in the second tick, and the triggered alarm of the first
    is still there when it ends; [_check_alarms], on the values of the
    second tick, leaves none. *)
Theorem stale_alarm_survives_quiet_tick :
  let w1 := mk_world 10 "2025-01-01T10:00:00" "id-3" (inr (mk_metrics 90 10 10)) true None
                     false None MailNotConfigured in
  let w2 := mk_world 10 "2025-01-01T10:00:02" "id-3" (inr (mk_metrics 10 10 10)) true None
                     false None MailNotConfigured in
  let c85 := mk_alarm "id-1" (PStr "CPU critical") "cpu" 85 (Some "always") in
  let st0 := mk_state [c85] None (JsonList [c85]) [] in
  let st1 := run_tick w1 st0 in
  breaching_resources w2 (tick_usage w2 st1) (tick_log_count w2 st1) st1 = []
  /\ get_triggered_alarm (run [w1; w2] st0)
     = Some (mk_triggered c85 (NFloat 90) "2025-01-01T10:00:00")
  /\ get_triggered_alarm (run [w1; w2] st0) <> None
  /\ get_triggered_alarm (_check_alarms w2 (tick_usage w2 st1) st1) = None.
Proof.
  intros w1 w2 c85 st0 st1.
  split; [|split; [|split]].
  - reflexivity.
  - reflexivity.
  - discriminate.
  - reflexivity.
Qed.

(** ** A tick whose sample fails *)

Lemma send_alert_email_keeps w ev st :
  In ev (log_file st) ->
  match send_alert_email w st with
  | inl (_, st') | inr (_, st') => In ev (log_file st')
  end.
Proof.
  intros H; unfold send_alert_email.
  destruct (mail w), (mail_config_error w); auto using log_event_keeps.
Qed.

Lemma trigger_alarm_keeps w a v ev st :
  In ev (log_file st) -> In ev (log_file (_trigger_alarm w a v st)).
Proof.
  intros H; unfold _trigger_alarm.
  set (st1 := if String.eqb (upper (resource a)) "LOGS"
              then log_event w (Security_Alert_Log_Count_Exceeds v (threshold a)) st
              else log_event w (usage_alarm_triggered_percent (upper (resource a)) (threshold a)) st).
  assert (H1 : In ev (log_file st1))
    by (unfold st1; destruct (String.eqb _ _); now apply log_event_keeps).
  set (st2 := set_triggered_alarm (Some (mk_triggered a v (now_iso w))) st1).
  assert (H2 : In ev (log_file st2)) by exact H1.
  destruct (_ || _); [|exact H2].
  pose proof (send_alert_email_keeps w ev st2 H2) as H3.
  destruct (send_alert_email w st2) as [[e s]|[b s]]; [now apply log_event_keeps|exact H3].
Qed.

Lemma check_resources_keeps w u n ev st :
  In ev (log_file st) -> In ev (log_file (check_resources w u n st)).
Proof.
  unfold check_resources; generalize AVAILABLE_RESOURCES as rs; intros rs; revert st.
  induction rs as [|r rs IH]; intros st H; simpl; [exact H|].
  apply IH.
  rewrite check_resource_winner.
  destruct (winner w u n st r); [now apply trigger_alarm_keeps|exact H].
Qed.

Lemma zero_below_positive_threshold (t : Z) : 1 <= t -> int_le_num t (NFloat 0) = false.
Proof.
  intros H; unfold int_le_num.
  destruct (Qle_bool (inject_Z t) 0) eqn:E; [|reflexivity].
  apply Qle_bool_iff in E.
  unfold Qle in E; cbn [Qnum Qden inject_Z] in E; lia.
Qed.

Lemma logs_breach_triggers_logs w u n st :
  resource_breaches w u n st "logs" = true ->
  exists a, triggered_alarm (check_resources w u n st)
            = Some (mk_triggered a (NInt n) (now_iso w))
            /\ In a (alarms st) /\ resource a = "logs".
Proof.
  intros Hl.
  assert (Hlast : last (breaching_resources w u n st) "" = "logs").
  { unfold breaching_resources, AVAILABLE_RESOURCES; cbn [filter].
    rewrite Hl.
    destruct (resource_breaches w u n st "cpu"), (resource_breaches w u n st "ram"),
      (resource_breaches w u n st "disk"); reflexivity. }
  destruct (check_resources_last_breaching w u n st) as (a & _ & Hhigh & Ht).
  - unfold breaching_resources, AVAILABLE_RESOURCES; cbn [filter].
    rewrite Hl.
    destruct (resource_breaches w u n st "cpu"), (resource_breaches w u n st "ram"),
      (resource_breaches w u n st "disk"); discriminate.
  - rewrite Hlast in Hhigh, Ht.
    exists a; split; [exact Ht|].
    destruct Hhigh as (Hin & Hbr & _); split; [assumption|].
    unfold breaching in Hbr.
    apply andb_true_iff in Hbr; destruct Hbr as [Hbr _].
    apply andb_true_iff in Hbr; destruct Hbr as [Hbr _].
    now apply String.eqb_eq in Hbr.
Qed.

Lemma logs_breach_triggers_highest w u n st :
  resource_breaches w u n st "logs" = true ->
  exists a, triggered_alarm (check_resources w u n st)
            = Some (mk_triggered a (NInt n) (now_iso w))
            /\ highest_breaching w u n st "logs" a.
Proof.
  intros Hl.
  assert (Hlast : last (breaching_resources w u n st) "" = "logs").
  { unfold breaching_resources, AVAILABLE_RESOURCES; cbn [filter].
    rewrite Hl.
    destruct (resource_breaches w u n st "cpu"), (resource_breaches w u n st "ram"),
      (resource_breaches w u n st "disk"); reflexivity. }
  destruct (check_resources_last_breaching w u n st) as (a & _ & Hhigh & Ht).
  - intros E; rewrite E in Hlast; discriminate Hlast.
  - rewrite Hlast in Hhigh, Ht.
    exists a; split; [exact Ht|exact Hhigh].
Qed.

(** C5, as the code has it.  In a tick whose sample fails,
    [get_system_usage] catches the failure, hands it to [log_event] and
    returns zeros for cpu, ram and disk.  When the log can be written, the
    failure is on the log and the tick goes on to evaluate the rules, on
    those zeros and on the log count, which counts the failure line: an
    active logs rule whose threshold the count reaches becomes the triggered
    alarm.  When the log directory cannot be made, nothing is logged,
    counting the log lines raises, the handler of the loop takes the
    exception, and the tick leaves the state as it found it.  In both cases
    the rules in memory and on file are left alone, the triggered alarm is
    the one the tick found whenever no rule breaches on those values, and no
    rule of cpu, ram or disk with a threshold of 1 or more breaches on
    them. *)
Theorem failed_sample_tick (w : world) (e : string) (st : state) :
  psutil_sample w = inl e ->
  let u := tick_usage w st in
  let n := tick_log_count w st in
  get_system_usage w st
  = (mk_usage (NFloat 0) (NFloat 0) (NFloat 0) None,
     log_event w (Failed_to_retrieve_system_metrics e) st)
  /\ (log_dir_ok w = true ->
      tick_body w st = inr (run_tick w st)
      /\ In (Failed_to_retrieve_system_metrics e) (log_file (run_tick w st))
      /\ n = Z.of_nat (List.length (log_file st)) + 1
      /\ run_tick w st
         = check_resources w u n (log_event w (Failed_to_retrieve_system_metrics e) st)
      /\ (forall b, In b (alarms st) -> resource b = "logs" -> threshold b <= n ->
                    _is_alarm_active (now_hour w) b = true ->
          exists a, get_triggered_alarm (run_tick w st)
                    = Some (mk_triggered a (NInt n) (now_iso w))
                    /\ In a (alarms st) /\ resource a = "logs"
                    /\ _is_alarm_active (now_hour w) a = true
                    /\ threshold b <= threshold a <= n))
  /\ (log_dir_ok w = false ->
      tick_body w st = inl (OSError, st)
      /\ run_tick w st = st)
  /\ (cpu_percent u = NFloat 0 /\ ram_percent u = NFloat 0 /\ disk_percent u = NFloat 0)
  /\ alarms (run_tick w st) = alarms st
  /\ alarms_file (run_tick w st) = alarms_file st
  /\ ((forall r, In r AVAILABLE_RESOURCES -> resource_breaches w u n st r = false) ->
      get_triggered_alarm (run_tick w st) = get_triggered_alarm st)
  /\ (forall r, In r ["cpu"; "ram"; "disk"] ->
                (forall a, In a (alarms st) -> resource a = r -> 1 <= threshold a) ->
                resource_breaches w u n st r = false).
Proof.
  intros Hs u n.
  assert (Hget : get_system_usage w st
                 = (mk_usage (NFloat 0) (NFloat 0) (NFloat 0) None,
                    log_event w (Failed_to_retrieve_system_metrics e) st))
    by (unfold get_system_usage; now rewrite Hs).
  assert (Hsnd : snd (get_system_usage w st)
                 = log_event w (Failed_to_retrieve_system_metrics e) st)
    by now rewrite Hget.
  assert (Hu : cpu_percent u = NFloat 0 /\ ram_percent u = NFloat 0
               /\ disk_percent u = NFloat 0)
    by (unfold u, tick_usage; rewrite Hget; auto).
  split; [exact Hget|].
  split; [|split; [|split; [exact Hu|split; [|split; [|split]]]]].
  - intros Hok.
    assert (Hrun : run_tick w st
                   = check_resources w u n
                       (log_event w (Failed_to_retrieve_system_metrics e) st)).
    { rewrite run_tick_evaluates by assumption.
      fold u n; now rewrite Hsnd. }
    split.
    { rewrite Hrun; unfold tick_body; rewrite Hget.
      unfold get_log_history; rewrite Hok.
      unfold u, n, tick_usage, tick_log_count; rewrite Hget; reflexivity. }
    split.
    { rewrite Hrun; apply check_resources_keeps, log_event_logged, Hok. }
    split.
    { unfold n, tick_log_count; rewrite Hsnd.
      unfold log_event; rewrite Hok; cbn [log_file set_log_file].
      rewrite length_app; cbn [List.length]; lia. }
    split; [exact Hrun|].
    intros b Hb Hres Hle Hact.
    rewrite Hrun; unfold get_triggered_alarm.
    set (st1 := log_event w (Failed_to_retrieve_system_metrics e) st).
    assert (Hal : alarms st1 = alarms st) by apply log_event_alarms.
    assert (Hbb : breaching (now_hour w) (current_value_of u n "logs") "logs" b = true).
    { unfold breaching; rewrite Hres, Hact.
      unfold current_value_of; cbn [String.eqb Ascii.eqb Bool.eqb int_le_num andb].
      rewrite andb_true_r; now apply Z.leb_le. }
    destruct (logs_breach_triggers_highest w u n st1) as (a & Ha & Hin & Hbr & Hmax).
    { unfold resource_breaches; apply existsb_exists; exists b.
      split; [now rewrite Hal|exact Hbb]. }
    specialize (Hmax b); rewrite Hal in Hmax, Hin.
    specialize (Hmax Hb Hbb).
    apply breaching_iff in Hbr; destruct Hbr as (Hra & Hlea & Hacta).
    unfold current_value_of in Hlea;
      cbn [String.eqb Ascii.eqb Bool.eqb int_le_num] in Hlea.
    apply Z.leb_le in Hlea.
    exists a; split; [exact Ha|].
    split; [exact Hin|].
    split; [exact Hra|].
    split; [exact Hacta|].
    split; assumption.
  - intros Hno.
    assert (Hbody : tick_body w st = inl (OSError, st)).
    { unfold tick_body; rewrite Hget.
      unfold get_log_history, log_event; rewrite Hno; reflexivity. }
    split; [exact Hbody|].
    now apply run_tick_raises.
  - apply run_tick_alarms.
  - apply run_tick_alarms_file.
  - intros H; unfold get_triggered_alarm; now apply run_tick_no_breach.
  - intros r Hr Hthr.
    unfold resource_breaches.
    destruct (existsb _ _) eqn:Hex; [|reflexivity].
    apply existsb_exists in Hex; destruct Hex as (a & Ha & Hbr).
    unfold breaching in Hbr.
    apply andb_true_iff in Hbr; destruct Hbr as [Hbr _].
    apply andb_true_iff in Hbr; destruct Hbr as [Hres Hle].
    apply String.eqb_eq in Hres.
    specialize (Hthr a Ha Hres).
    destruct Hu as (Hc & Hm & Hd).
    assert (Hv : current_value_of u n r = NFloat 0).
    { destruct Hr as [<-|[<-|[<-|[]]]]; unfold current_value_of, usage_get; simpl;
        assumption. }
    rewrite Hv, zero_below_positive_threshold in Hle by assumption.
    discriminate Hle.
Qed.

Lemma failed_sample_tick_witness :
  let w := mk_world 10 "2025-01-01T10:00:02" "id-3" (inl "psutil.Error") true None
                    false None MailNotConfigured in
  let nolog := mk_world 10 "2025-01-01T10:00:02" "id-3" (inl "psutil.Error") false None
                        false None MailNotConfigured in
  let c85 := mk_alarm "id-1" (PStr "CPU critical") "cpu" 85 (Some "always") in
  let l9 := mk_alarm "id-2" (PStr "Log flood") "logs" 9 (Some "always") in
  let l1 := mk_alarm "id-3" (PStr "Any log") "logs" 1 (Some "always") in
  let before := Some (mk_triggered c85 (NFloat 90) "2025-01-01T10:00:00") in
  let st := mk_state [c85; l9] before (JsonList [c85; l9]) [] in
  let st' := mk_state [c85; l1] before (JsonList [c85; l1]) [] in
  In (Failed_to_retrieve_system_metrics "psutil.Error") (log_file (run_tick w st))
  /\ get_triggered_alarm (run_tick w st) = before
  /\ get_triggered_alarm (run_tick w st')
     = Some (mk_triggered l1 (NInt 1) "2025-01-01T10:00:02")
  /\ run_tick nolog st' = st'.
Proof.
  intros w nolog c85 l9 l1 before st st'.
  destruct (failed_sample_tick w "psutil.Error" st eq_refl)
    as (_ & Hlog & _ & _ & _ & _ & Hsame & _).
  destruct (failed_sample_tick w "psutil.Error" st' eq_refl)
    as (_ & Hlog' & _ & _ & _ & _ & _ & _).
  destruct (failed_sample_tick nolog "psutil.Error" st' eq_refl)
    as (_ & _ & Hno & _ & _ & _ & _ & _).
  destruct (Hlog eq_refl) as (_ & Hin & _ & _ & _).
  destruct (Hlog' eq_refl) as (_ & _ & _ & _ & Hlogs).
  destruct (Hno eq_refl) as (_ & Hskip).
  split; [exact Hin|].
  split.
  { apply Hsame.
    intros r [<-|[<-|[<-|[<-|[]]]]]; reflexivity. }
  split; [|exact Hskip].
  destruct (Hlogs l1) as (a & Ha & [E|[E|[]]] & Hra & _ & _).
  - right; now left.
  - reflexivity.
  - vm_compute; discriminate.
  - reflexivity.
  - rewrite <- E in Hra; discriminate Hra.
  - rewrite Ha, <- E; reflexivity.
Defined.

(** C5 as stated fails: the sample fails, the failure is logged, and the
    tick still evaluates the rules: the log now holds one line, the logs
    rule of threshold 1 breaches, and the triggered alarm changes from none
    to that rule. *)
Lemma failed_sample_still_evaluates :
  let w := mk_world 10 "2025-01-01T10:00:02" "id-3" (inl "psutil.Error") true None
                    false None MailNotConfigured in
  let l1 := mk_alarm "id-2" (PStr "Any log") "logs" 1 (Some "always") in
  let st := mk_state [l1] None (JsonList [l1]) [] in
  psutil_sample w = inl "psutil.Error"
  /\ get_triggered_alarm st = None
  /\ get_triggered_alarm (run_tick w st)
     = Some (mk_triggered l1 (NInt 1) "2025-01-01T10:00:02")
  /\ get_triggered_alarm (run_tick w st) <> get_triggered_alarm st.
Proof.
  intros w l1 st.
  split; [reflexivity|].
  split; [reflexivity|].
  split; [reflexivity|].
  discriminate.
Qed.

(** ** The list [get_alarms] returns *)

Lemma get_alarms_sorted st :
  StronglySorted (key_le sort_key) (get_alarms st) /\ Permutation (get_alarms st) (alarms st).
Proof.
  split; [apply sorted_sorted|apply sorted_perm].
Qed.

Lemma store_obj_other l l' o h :
  l <> l' -> nth_error (Objects.store_obj l o h) l' = nth_error h l'.
Proof.
  revert l l'; induction h as [|x h IH]; intros [|l] [|l'] H; simpl;
    try reflexivity; try (now destruct H).
  apply IH; congruence.
Qed.

Lemma deref_dict_allocated h l a : Objects.deref_dict h l = Some a -> (l < List.length h)%nat.
Proof.
  unfold Objects.deref_dict; intros H.
  apply nth_error_Some; intros E; now rewrite E in H.
Qed.

Lemma deref_all_ext h h' ls :
  (forall l, In l ls -> Objects.deref_dict h' l = Objects.deref_dict h l) ->
  Objects.deref_all h' ls = Objects.deref_all h ls.
Proof.
  induction ls as [|l ls IH]; intros H; simpl; [reflexivity|].
  rewrite (H l) by now left.
  rewrite IH by (intros l' Hl'; apply H; now right).
  reflexivity.
Qed.

Lemma deref_all_allocated h ls al :
  Objects.deref_all h ls = Some al -> forall l, In l ls -> (l < List.length h)%nat.
Proof.
  revert al; induction ls as [|l0 ls IH]; intros al H l Hl; [destruct Hl|].
  simpl in H.
  destruct (Objects.deref_dict h l0) as [a|] eqn:E; [|discriminate].
  destruct (Objects.deref_all h ls) as [al'|]; [|discriminate].
  destruct Hl as [<-|Hl]; [now apply deref_dict_allocated with a|now apply (IH al')].
Qed.

Lemma deref_all_insert h l a ls al :
  Objects.deref_dict h l = Some a ->
  Objects.deref_all h ls = Some al ->
  Objects.deref_all h (insert_by (Objects.key_at h) l ls) = Some (insert_by sort_key a al).
Proof.
  intros Hl; revert al.
  assert (Hkl : Objects.key_at h l = sort_key a) by (unfold Objects.key_at; now rewrite Hl).
  induction ls as [|y ls IH]; intros al H; simpl in H.
  - injection H as <-; simpl; now rewrite Hl.
  - destruct (Objects.deref_dict h y) as [b|] eqn:Hy; [|discriminate].
    destruct (Objects.deref_all h ls) as [al'|] eqn:Hls; [|discriminate].
    injection H as <-.
    assert (Hky : Objects.key_at h y = sort_key b) by (unfold Objects.key_at; now rewrite Hy).
    simpl; rewrite Hkl, Hky.
    destruct (key_lt (sort_key b) (sort_key a)); simpl.
    + now rewrite Hy, (IH al' eq_refl).
    + now rewrite Hl, Hy, Hls.
Qed.

(** Read through the heap, the list returned holds the value of
    [sorted(self.alarms, ...)]. *)
Lemma deref_all_sorted h ls al :
  Objects.deref_all h ls = Some al ->
  Objects.deref_all h (sorted (Objects.key_at h) ls) = Some (sorted sort_key al).
Proof.
  revert al; induction ls as [|l ls IH]; intros al H; simpl in H.
  - injection H as <-; reflexivity.
  - destruct (Objects.deref_dict h l) as [a|] eqn:Hl; [|discriminate].
    destruct (Objects.deref_all h ls) as [al'|] eqn:Hls; [|discriminate].
    injection H as <-.
    simpl; apply deref_all_insert; [assumption|now apply IH].
Qed.

Lemma deref_dict_alloc h o l :
  (l < List.length h)%nat -> Objects.deref_dict (h ++ [o]) l = Objects.deref_dict h l.
Proof.
  intros H; unfold Objects.deref_dict; now rewrite nth_error_app1.
Qed.

(** C9, as the code has it.  [get_alarms] allocates a new list: its
    address is not that of [self.alarms]; read through the heap it holds the
    stored rules in priority order; the call leaves the store as it was; and
    whatever the caller then makes of that list (appending, deleting,
    reordering, replacing items) leaves the store as it was.  The items of
    the new list are the addresses [self.alarms] holds: the records are
    shared, not copied. *)
Theorem get_alarms_returns_new_list (h : Objects.heap) (self_alarms : Objects.loc)
    (st : state) :
  Objects.alarms_of h self_alarms = Some (alarms st) ->
  exists ret h',
    Objects.get_alarms h self_alarms = Some (ret, h')
    /\ ret <> self_alarms
    /\ nth_error h ret = None
    /\ Objects.alarms_of h' ret = Some (get_alarms st)
    /\ StronglySorted (key_le sort_key) (get_alarms st)
    /\ Permutation (get_alarms st) (alarms st)
    /\ Objects.alarms_of h' self_alarms = Some (alarms st)
    /\ (forall items,
          Objects.alarms_of (Objects.mutate ret (Objects.MutateList items) h') self_alarms
          = Some (alarms st))
    /\ (exists items items',
          Objects.deref_list h' self_alarms = Some items
          /\ Objects.deref_list h' ret = Some items'
          /\ Permutation items' items).
Proof.
  unfold Objects.alarms_of, Objects.get_alarms, Objects.alloc.
  destruct (Objects.deref_list h self_alarms) as [items|] eqn:Hself; [|discriminate].
  intros Hal.
  set (ret := List.length h).
  set (new := Objects.OList (sorted (Objects.key_at h) items)).
  assert (Hlt : (self_alarms < ret)%nat).
  { unfold Objects.deref_list in Hself.
    apply nth_error_Some; intros E; now rewrite E in Hself. }
  assert (Hself' : Objects.deref_list (h ++ [new]) self_alarms = Some items).
  { unfold Objects.deref_list in *; now rewrite nth_error_app1. }
  assert (Hret : Objects.deref_list (h ++ [new]) ret
                 = Some (sorted (Objects.key_at h) items)).
  { unfold Objects.deref_list, ret.
    rewrite nth_error_app2, Nat.sub_diag by lia; reflexivity. }
  assert (Hitems : forall l, In l items -> (l < ret)%nat)
    by (apply deref_all_allocated with (alarms st); assumption).
  assert (Hold : forall ls, (forall l, In l ls -> (l < ret)%nat) ->
                            Objects.deref_all (h ++ [new]) ls = Objects.deref_all h ls).
  { intros ls Hls; apply deref_all_ext; intros l Hl; apply deref_dict_alloc, Hls, Hl. }
  exists ret, (h ++ [new]).
  split; [reflexivity|].
  split; [lia|].
  split; [apply nth_error_None; unfold ret; lia|].
  split.
  { rewrite Hret, Hold.
    - unfold get_alarms; now apply deref_all_sorted.
    - intros l Hl; apply Hitems; revert Hl; apply sorted_In. }
  split; [apply sorted_sorted|].
  split; [apply sorted_perm|].
  split; [rewrite Hself', Hold; assumption|].
  split.
  - intros items'; cbn [Objects.mutate].
    assert (Hs : Objects.deref_list
                   (Objects.store_obj ret (Objects.OList items') (h ++ [new])) self_alarms
                 = Some items).
    { unfold Objects.deref_list in *.
      rewrite store_obj_other by lia; exact Hself'. }
    rewrite Hs.
    rewrite <- Hal, <- (Hold items Hitems).
    apply deref_all_ext; intros l Hl.
    unfold Objects.deref_dict; rewrite store_obj_other; [reflexivity|].
    specialize (Hitems l Hl); lia.
  - exists items, (sorted (Objects.key_at h) items).
    split; [assumption|]; split; [assumption|apply sorted_perm].
Qed.

Lemma get_alarms_returns_new_list_witness :
  let c85 := mk_alarm "id-1" (PStr "CPU critical") "cpu" 85 (Some "always") in
  let c70 := mk_alarm "id-2" (PStr "CPU warning") "cpu" 70 (Some "always") in
  let h := [Objects.ODict c85; Objects.ODict c70; Objects.OList [0%nat; 1%nat]] in
  let st := mk_state [c85; c70] None (JsonList [c85; c70]) [] in
  exists ret h',
    Objects.get_alarms h 2%nat = Some (ret, h')
    /\ Objects.alarms_of h' ret = Some [c70; c85]
    /\ Objects.alarms_of (Objects.mutate ret (Objects.MutateList []) h') 2%nat
       = Some [c85; c70].
Proof.
  intros c85 c70 h st.
  destruct (get_alarms_returns_new_list h 2%nat st eq_refl)
    as (ret & h' & Hget & _ & _ & Hret & _ & _ & _ & Hmut & _).
  exists ret, h'.
  split; [exact Hget|].
  split; [exact Hret|].
  exact (Hmut []).
Defined.

(** C9 as stated fails: a change made to a record of the list returned is
    a change of the stored rule.  Here the caller sets the threshold of the
    first record to 0. *)
Lemma get_alarms_exposes_records :
  let c85 := mk_alarm "id-1" (PStr "CPU critical") "cpu" 85 (Some "always") in
  let c0 := mk_alarm "id-1" (PStr "CPU critical") "cpu" 0 (Some "always") in
  let h := [Objects.ODict c85; Objects.OList [0%nat]] in
  exists ret h',
    Objects.get_alarms h 1%nat = Some (ret, h')
    /\ Objects.alarms_of h' 1%nat = Some [c85]
    /\ Objects.alarms_of (Objects.mutate ret (Objects.MutateRecord 0 c0) h') 1%nat = Some [c0]
    /\ Objects.alarms_of (Objects.mutate ret (Objects.MutateRecord 0 c0) h') 1%nat
       <> Objects.alarms_of h' 1%nat.
Proof.
  intros c85 c0 h.
  exists 2%nat, (h ++ [Objects.OList [0%nat]]).
  split; [reflexivity|].
  split; [reflexivity|].
  split; [reflexivity|].
  discriminate.
Qed.

(** * Further properties of the program *)

(** ** What a call of [add_alarm] can do *)

Lemma add_alarm_unfold w a b c p st :
  add_alarm w a b c p st =
  if negb (py_in a AVAILABLE_RESOURCES) && isinstance_str b && py_in b AVAILABLE_RESOURCES
  then add_alarm_checked w a b c p st
  else add_alarm_checked w c a b p st.
Proof.
  unfold add_alarm, add_alarm_checked.
  destruct (negb (py_in a AVAILABLE_RESOURCES) && isinstance_str b
            && py_in b AVAILABLE_RESOURCES); reflexivity.
Qed.

Lemma add_alarm_checked_inv w nm res thr p st :
  (exists r t per,
      In r AVAILABLE_RESOURCES /\ valid_threshold r t /\ In per valid_periods
      /\ add_alarm_checked w nm res thr p st = store_new_alarm w nm r t per st)
  \/ (exists e, fst (add_alarm_checked w nm res thr p st) = inl e
                /\ alarms (snd (add_alarm_checked w nm res thr p st)) = alarms st
                /\ alarms_file (snd (add_alarm_checked w nm res thr p st)) = alarms_file st
                /\ triggered_alarm (snd (add_alarm_checked w nm res thr p st))
                   = triggered_alarm st).
Proof.
  unfold add_alarm_checked.
  destruct (py_in res AVAILABLE_RESOURCES) eqn:Hin; cbn [negb].
  2:{ right; eexists; cbn [fst snd].
      rewrite log_event_alarms, log_event_alarms_file, log_event_triggered; auto. }
  apply py_in_true in Hin; destruct Hin as (r & -> & Hr); cbn [str_value].
  destruct thr as [|t|s0].
  - right; eexists; cbn [fst snd]; auto.
  - destruct (if String.eqb r "logs" then t <=? 0 else negb ((1 <=? t) && (t <=? 100)))
      eqn:Hbad.
    + right; eexists; cbn [fst snd].
      rewrite log_event_alarms, log_event_alarms_file, log_event_triggered; auto.
    + destruct (py_in p valid_periods) eqn:Hp; cbn [negb].
      2:{ right; eexists; cbn [fst snd].
          rewrite log_event_alarms, log_event_alarms_file, log_event_triggered; auto. }
      apply py_in_true in Hp; destruct Hp as (per & -> & Hper); cbn [str_value].
      left; exists r, t, per.
      split; [assumption|]; split; [|split; [assumption|reflexivity]].
      unfold valid_threshold.
      destruct (String.eqb r "logs").
      * apply Z.leb_gt in Hbad; lia.
      * apply negb_false_iff, andb_true_iff in Hbad; rewrite !Z.leb_le in Hbad; lia.
  - right; eexists; cbn [fst snd]; auto.
Qed.

(** Every call either stores one rule built from validated arguments, or
    raises and leaves rules, file and triggered alarm alone. *)
Lemma add_alarm_inv w a b c p st :
  (exists nm r t per,
      In r AVAILABLE_RESOURCES /\ valid_threshold r t /\ In per valid_periods
      /\ add_alarm w a b c p st = store_new_alarm w nm r t per st)
  \/ (exists e, fst (add_alarm w a b c p st) = inl e
                /\ alarms (snd (add_alarm w a b c p st)) = alarms st
                /\ alarms_file (snd (add_alarm w a b c p st)) = alarms_file st
                /\ triggered_alarm (snd (add_alarm w a b c p st)) = triggered_alarm st).
Proof.
  rewrite add_alarm_unfold.
  destruct (negb (py_in a AVAILABLE_RESOURCES) && isinstance_str b
            && py_in b AVAILABLE_RESOURCES).
  - destruct (add_alarm_checked_inv w a b c p st) as [(r & t & per & H)|H];
      [left; now exists a, r, t, per|now right].
  - destruct (add_alarm_checked_inv w c a b p st) as [(r & t & per & H)|H];
      [left; now exists c, r, t, per|now right].
Qed.

Lemma store_new_alarm_triggered w nm r t p st :
  triggered_alarm (snd (store_new_alarm w nm r t p st)) = triggered_alarm st.
Proof.
  unfold store_new_alarm; cbn [snd].
  now rewrite log_event_triggered, save_alarms_triggered.
Qed.

Lemma store_new_alarm_alarms w nm r t p st :
  alarms (snd (store_new_alarm w nm r t p st))
  = alarms st ++ [mk_alarm (uuid4 w) (if truthy nm then nm else PStr (default_name r t))
                           r t (Some p)].
Proof.
  unfold store_new_alarm; cbn [snd].
  now rewrite log_event_alarms, save_alarms_alarms.
Qed.

Lemma add_alarm_triggered w a b c p st :
  triggered_alarm (snd (add_alarm w a b c p st)) = triggered_alarm st.
Proof.
  destruct (add_alarm_inv w a b c p st) as [(nm & r & t & per & _ & _ & _ & ->)|(e & _ & _ & _ & H)].
  - apply store_new_alarm_triggered.
  - exact H.
Qed.

(** ** What a call of [remove_alarm] can do *)

Lemma remove_alarm_alarms w i st :
  alarms (snd (remove_alarm w i st))
  = filter (fun a => negb (pyval_eqb (PStr (id a)) i)) (alarms st).
Proof.
  unfold remove_alarm.
  destruct (_ <? _)%nat; cbn [snd]; [|reflexivity].
  match goal with
  | |- alarms (match ?x with Some t => if ?c then _ else _ | None => _ end) = _ =>
      destruct x as [t|]; [destruct (pyval_eqb (PStr (id (rule t))) i)|]
  end; cbn [alarms set_triggered_alarm];
    now rewrite log_event_alarms, save_alarms_alarms.
Qed.

Lemma remove_alarm_found_iff w i st :
  fst (remove_alarm w i st) = true <-> exists a, In a (alarms st) /\ PStr (id a) = i.
Proof.
  unfold remove_alarm; cbn [alarms set_alarms].
  destruct (_ <? _)%nat eqn:Hlt; cbn [fst].
  - split; [intros _|reflexivity].
    apply Nat.ltb_lt in Hlt.
    destruct (existsb (fun a => pyval_eqb (PStr (id a)) i) (alarms st)) eqn:Hex.
    + apply existsb_exists in Hex; destruct Hex as (a & Ha & E).
      exists a; split; [assumption|now apply pyval_eqb_eq].
    + rewrite filter_keeps_all in Hlt; [lia|].
      intros x Hx; apply negb_true_iff.
      destruct (pyval_eqb (PStr (id x)) i) eqn:E; [|reflexivity].
      assert (existsb (fun a => pyval_eqb (PStr (id a)) i) (alarms st) = true)
        by (apply existsb_exists; now exists x).
      congruence.
  - split; [discriminate|intros (a & Ha & E)].
    apply Nat.ltb_ge in Hlt.
    assert (List.length (filter (fun a0 => negb (pyval_eqb (PStr (id a0)) i)) (alarms st))
            < List.length (alarms st))%nat; [|lia].
    apply filter_drops_one with a; [assumption|].
    apply negb_false_iff, pyval_eqb_eq; assumption.
Qed.

Lemma remove_alarm_triggered_kept w i st t :
  triggered_alarm (snd (remove_alarm w i st)) = Some t ->
  triggered_alarm st = Some t
  /\ (In (rule t) (alarms st) -> In (rule t) (alarms (snd (remove_alarm w i st)))).
Proof.
  intros H.
  pose proof (remove_alarm_alarms w i st) as Hal.
  pose proof (remove_alarm_found_iff w i st) as Hfound.
  revert H Hal Hfound; unfold remove_alarm.
  destruct (_ <? _)%nat; cbn [fst snd].
  - set (st3 := log_event w (Alarm_removed i) _).
    assert (H3 : triggered_alarm st3 = triggered_alarm st)
      by (unfold st3; now rewrite log_event_triggered, save_alarms_triggered).
    destruct (triggered_alarm st3) as [t0|] eqn:E; [|intros H; rewrite E in H; discriminate].
    destruct (pyval_eqb (PStr (id (rule t0))) i) eqn:Eid; [discriminate|].
    intros H Hal _; rewrite E in H; injection H as <-.
    split; [congruence|].
    intros Hin; rewrite Hal; apply filter_In; split; [assumption|now rewrite Eid].
  - cbn [triggered_alarm set_alarms].
    intros H Hal Hfound; split; [assumption|].
    intros Hin; rewrite Hal; apply filter_In; split; [assumption|].
    apply negb_true_iff, pyval_eqb_neq; intros E.
    assert (false = true) by (apply Hfound; now exists (rule t)).
    discriminate.
Qed.

(** ** What a tick can do *)

Lemma run_tick_triggered_cases w st :
  triggered_alarm (run_tick w st) = triggered_alarm st
  \/ exists t, triggered_alarm (run_tick w st) = Some t
               /\ In (rule t) (alarms st)
               /\ int_le_num (threshold (rule t)) (current_value t) = true.
Proof.
  destruct (log_dir_ok w) eqn:Hok; [|left; now rewrite run_tick_raises].
  rewrite run_tick_evaluates by assumption.
  set (st1 := snd (get_system_usage w st)).
  rewrite check_resources_triggered.
  destruct (fold_overwrite_cases w (tick_usage w st) (tick_log_count w st) st1
              AVAILABLE_RESOURCES (triggered_alarm st1)) as [H|(r & a & _ & Ha & H)].
  - left; rewrite H; apply get_system_usage_triggered.
  - right; eexists; split; [exact H|]; cbn [rule current_value].
    apply winner_highest in Ha; destruct Ha as (Hin & Hbr & _).
    unfold st1 in Hin; rewrite get_system_usage_alarms in Hin.
    split; [assumption|].
    unfold breaching in Hbr.
    apply andb_true_iff in Hbr; destruct Hbr as [Hbr _].
    apply andb_true_iff in Hbr; now destruct Hbr.
Qed.

(** ** Invariants over any sequence of calls *)

Lemma step_valid_rules st wo :
  Forall valid_rule (alarms st) -> Forall valid_rule (alarms (step st wo)).
Proof.
  intros H; destruct wo as [w [a b c p|i| |]]; unfold step; cbn [fst snd].
  - destruct (add_alarm_inv w a b c p st)
      as [(nm & r & t & per & Hr & Ht & Hp & ->)|(e & _ & -> & _)]; [|assumption].
    rewrite store_new_alarm_alarms.
    apply Forall_app; split; [assumption|].
    constructor; [|constructor].
    unfold valid_rule; cbn [resource threshold active_period].
    split; [assumption|]; split; [assumption|now exists per].
  - rewrite remove_alarm_alarms.
    rewrite Forall_forall in *; intros x Hx; apply filter_In in Hx; now apply H.
  - now rewrite run_tick_alarms.
  - exact H.
Qed.

(** X1.  The rules in the store stay valid, for arguments that are
    [None], integers or strings.  Starting from a store whose rules all have
    a resource among the four, an integer threshold in the range of that
    resource and a period among the five, no sequence of [add_alarm] calls
    whose arguments are each [None], an integer or a string, [remove_alarm]
    calls, passes of the monitor loop and acknowledgements leaves a rule in
    the store that is not of that kind.  Float and boolean arguments are not
    covered. *)
Theorem stored_rules_stay_valid (l : list (world * op)) (st : state) :
  Forall valid_rule (alarms st) -> Forall valid_rule (alarms (steps l st)).
Proof.
  unfold steps; revert st.
  induction l as [|wo l IH]; intros st H; simpl; [exact H|].
  apply IH, step_valid_rules, H.
Qed.

Lemma stored_rules_stay_valid_witness :
  let w := mk_world 10 "2025-01-01T10:00:02" "id-3" (inr (mk_metrics 91 10 10)) true None
                    false None MailNotConfigured in
  let calls := [(w, OpAdd (PStr "cpu") (PInt 85) PNone (PStr "always"));
                (w, OpAdd (PStr "cpu") (PInt 0) PNone (PStr "always"));
                (w, OpAdd (PStr "My alarm") (PStr "logs") (PInt 7) (PStr "weekend"));
                (w, OpTick);
                (w, OpRemove (PStr "id-9"))] in
  Forall valid_rule (alarms (steps calls (mk_state [] None (JsonList []) []))).
Proof.
  intros w calls.
  apply (stored_rules_stay_valid calls (mk_state [] None (JsonList []) [])).
  constructor.
Defined.

Lemma step_triggered_is_stored st wo :
  triggered_is_stored st -> triggered_is_stored (step st wo).
Proof.
  intros H; destruct wo as [w [a b c p|i| |]]; unfold step; cbn [fst snd].
  - intros t Ht; rewrite add_alarm_triggered in Ht.
    destruct (H t Ht) as [Hin Hle]; split; [|assumption].
    destruct (add_alarm_inv w a b c p st)
      as [(nm & r & t0 & per & _ & _ & _ & ->)|(e & _ & -> & _)]; [|assumption].
    rewrite store_new_alarm_alarms; apply in_or_app; now left.
  - intros t Ht.
    destruct (remove_alarm_triggered_kept w i st t Ht) as [Hst Hkeep].
    destruct (H t Hst) as [Hin Hle]; split; [now apply Hkeep|assumption].
  - intros t Ht; rewrite run_tick_alarms.
    destruct (run_tick_triggered_cases w st) as [E|(t' & E & Hin & Hle)].
    + apply H; congruence.
    + rewrite E in Ht; injection Ht as <-; now split.
  - intros t Ht; discriminate Ht.
Qed.

Lemma check_resource_during_winner w u n w' c st r :
  check_resource_during w u n w' c st r =
  match winner w u n st r with
  | Some a => _trigger_alarm w a (current_value_of u n r) (do_call w' c st)
  | None => do_call w' c st
  end.
Proof.
  unfold check_resource_during, winner.
  destruct (filter _ (get_alarms st)) as [|y l]; [reflexivity|].
  destruct (filter _ (y :: l)); reflexivity.
Qed.

Lemma winner_stored_and_reached w u n st r a :
  winner w u n st r = Some a ->
  In a (alarms st) /\ int_le_num (threshold a) (current_value_of u n r) = true.
Proof.
  intros H; apply winner_highest in H; destruct H as (Hin & Hbr & _).
  apply breaching_iff in Hbr; tauto.
Qed.

Lemma check_resource_triggered_is_stored w u n st r :
  triggered_is_stored st -> triggered_is_stored (check_resource w u n st r).
Proof.
  intros H; rewrite check_resource_winner.
  destruct (winner w u n st r) as [a|] eqn:E; [|exact H].
  intros t Ht; rewrite trigger_alarm_triggered in Ht; injection Ht as <-.
  rewrite trigger_alarm_alarms; cbn [rule current_value].
  exact (winner_stored_and_reached w u n st r a E).
Qed.

Lemma do_call_triggered_is_stored w c st :
  triggered_is_stored st -> triggered_is_stored (do_call w c st).
Proof.
  intros H; destruct c as [a b c p|i|].
  - exact (step_triggered_is_stored st (w, OpAdd a b c p) H).
  - exact (step_triggered_is_stored st (w, OpRemove i) H).
  - exact (step_triggered_is_stored st (w, OpAcknowledge) H).
Qed.

Lemma do_call_keeps_rules w c st x :
  (forall i, c <> CallRemove i) -> In x (alarms st) -> In x (alarms (do_call w c st)).
Proof.
  intros Hc Hx; destruct c as [a b c p|i|]; cbn [do_call].
  - destruct (add_alarm_inv w a b c p st)
      as [(nm & r & t & per & _ & _ & _ & ->)|(e & _ & -> & _)]; [|assumption].
    rewrite store_new_alarm_alarms; apply in_or_app; now left.
  - now destruct (Hc i).
  - exact Hx.
Qed.

Lemma check_resource_during_triggered_is_stored w u n w' c st r :
  (forall i, c <> CallRemove i) ->
  triggered_is_stored st -> triggered_is_stored (check_resource_during w u n w' c st r).
Proof.
  intros Hc H; rewrite check_resource_during_winner.
  destruct (winner w u n st r) as [a|] eqn:E; [|now apply do_call_triggered_is_stored].
  intros t Ht; rewrite trigger_alarm_triggered in Ht; injection Ht as <-.
  rewrite trigger_alarm_alarms; cbn [rule current_value].
  destruct (winner_stored_and_reached w u n st r a E) as [Hin Hle].
  split; [now apply do_call_keeps_rules|exact Hle].
Qed.

Lemma check_resources_during_triggered_is_stored w u n r0 w' c st :
  (forall i, c <> CallRemove i) ->
  triggered_is_stored st -> triggered_is_stored (check_resources_during w u n r0 w' c st).
Proof.
  intros Hc; unfold check_resources_during.
  generalize AVAILABLE_RESOURCES as rs; intros rs; revert st.
  induction rs as [|r rs IH]; intros st Hs; cbn [fold_left]; [exact Hs|].
  apply IH.
  destruct (String.eqb r r0).
  - now apply check_resource_during_triggered_is_stored.
  - now apply check_resource_triggered_is_stored.
Qed.

Lemma run_tick_during_triggered_is_stored w r0 w' c st :
  (forall i, c <> CallRemove i) ->
  triggered_is_stored st -> triggered_is_stored (run_tick_during w r0 w' c st).
Proof.
  intros Hc H; unfold run_tick_during.
  destruct (get_system_usage w st) as [u0 st1] eqn:Eg.
  assert (H1 : triggered_is_stored st1).
  { intros t Ht.
    replace st1 with (snd (get_system_usage w st)) in * by now rewrite Eg.
    rewrite get_system_usage_triggered in Ht; rewrite get_system_usage_alarms.
    now apply H. }
  destruct (get_log_history w st1) as [e|lines].
  - intros t Ht; rewrite log_event_triggered in Ht; rewrite log_event_alarms.
    now apply H1.
  - now apply check_resources_during_triggered_is_stored.
Qed.

Lemma slot_step_triggered_is_stored st ws :
  removal_in_flight (snd ws) = false ->
  triggered_is_stored st -> triggered_is_stored (slot_step st ws).
Proof.
  destruct ws as [w [o|r0 w' c]]; unfold slot_step; cbn [fst snd]; intros Hr H.
  - now apply step_triggered_is_stored.
  - apply run_tick_during_triggered_is_stored; [|exact H].
    intros i ->; discriminate Hr.
Qed.

(** X2.  The triggered alarm belongs to a stored rule, as long as no
    removal lands inside a pass.  If the triggered alarm, when there is
    one, is a copy of a rule in the store taken at a value that rule's
    threshold did not exceed, this is still so after any sequence of
    [add_alarm] and [remove_alarm] calls, acknowledgements and passes of the
    monitor loop that each run to their end before the next starts; and it
    is still so when [add_alarm] calls and acknowledgements land inside
    passes, between the reading of the rules and [_trigger_alarm].  A
    [remove_alarm] call landing there is excluded. *)
Theorem triggered_alarm_stays_stored (st : state) :
  triggered_is_stored st ->
  (forall l : list (world * op), triggered_is_stored (steps l st))
  /\ (forall l : list (world * slot),
        (forall ws, In ws l -> removal_in_flight (snd ws) = false) ->
        triggered_is_stored (schedule l st)).
Proof.
  intros H; split.
  - intros l; unfold steps; revert st H.
    induction l as [|wo l IH]; intros st H; simpl; [exact H|].
    apply IH, step_triggered_is_stored, H.
  - intros l; unfold schedule; revert st H.
    induction l as [|ws l IH]; intros st H Hl; simpl; [exact H|].
    apply IH.
    + apply slot_step_triggered_is_stored; [apply Hl; now left|exact H].
    + intros ws' Hws'; apply Hl; now right.
Qed.

Lemma triggered_alarm_stays_stored_witness :
  let w := mk_world 10 "2025-01-01T10:00:02" "id-3" (inr (mk_metrics 91 10 10)) true None
                    false None MailNotConfigured in
  let w' := mk_world 10 "2025-01-01T10:00:03" "id-4" (inr (mk_metrics 91 10 10)) true None
                     false None MailNotConfigured in
  let calls := [(w, OpAdd (PStr "cpu") (PInt 85) PNone (PStr "always"));
                (w, OpTick);
                (w, OpRemove (PStr "id-3"))] in
  let slots := [(w, Alone (OpAdd (PStr "cpu") (PInt 85) PNone (PStr "always")));
                (w, During "cpu" w' (CallAdd (PStr "cpu") (PInt 90) PNone (PStr "always")));
                (w, During "cpu" w' CallAcknowledge);
                (w, Alone (OpRemove (PStr "id-3")))] in
  triggered_alarm (steps (firstn 2 calls) (mk_state [] None (JsonList []) [])) <> None
  /\ triggered_is_stored (steps calls (mk_state [] None (JsonList []) []))
  /\ triggered_alarm (schedule (firstn 3 slots) (mk_state [] None (JsonList []) [])) <> None
  /\ triggered_is_stored (schedule slots (mk_state [] None (JsonList []) [])).
Proof.
  intros w w' calls slots.
  destruct (triggered_alarm_stays_stored (mk_state [] None (JsonList []) []))
    as [Hsteps Hsched].
  { intros t Ht; discriminate Ht. }
  split; [discriminate|].
  split; [apply Hsteps|].
  split; [discriminate|].
  apply Hsched.
  intros ws [<-|[<-|[<-|[<-|[]]]]]; reflexivity.
Defined.

(** ** Adding and removing *)

Lemma remove_alarm_absent w i st :
  (forall a, In a (alarms st) -> PStr (id a) <> i) -> remove_alarm w i st = (false, st).
Proof.
  intros Hnone.
  unfold remove_alarm.
  rewrite filter_keeps_all.
  - unfold set_alarms at 1; simpl.
    rewrite Nat.ltb_irrefl.
    unfold set_alarms; now rewrite state_eta.
  - intros a Ha; apply negb_true_iff, pyval_eqb_neq; now apply Hnone.
Qed.

(** X3.  Adding a rule and removing the id returned gives back the list
    of rules there was, provided the id generated is not the id of a rule
    already stored: the removal reports success and takes out the new rule
    only. *)
Theorem add_then_remove_restores (w w' : world) (a b c p : pyval) (st : state) (i : string) :
  (forall x, In x (alarms st) -> id x <> uuid4 w) ->
  fst (add_alarm w a b c p st) = inr i ->
  fst (remove_alarm w' (PStr i) (snd (add_alarm w a b c p st))) = true
  /\ alarms (snd (remove_alarm w' (PStr i) (snd (add_alarm w a b c p st)))) = alarms st.
Proof.
  intros Hfresh Hok.
  destruct (add_alarm_inv w a b c p st)
    as [(nm & r & t & per & _ & _ & _ & E)|(e & E & _)]; [|congruence].
  rewrite E in *.
  assert (Hi : i = uuid4 w).
  { pose proof (store_new_alarm_spec w nm r t per st) as S; cbv zeta in S.
    destruct S as (S0 & _); congruence. }
  subst i.
  split.
  - apply remove_alarm_found_iff.
    eexists; split; [rewrite store_new_alarm_alarms; apply in_or_app; right; now left|].
    reflexivity.
  - rewrite remove_alarm_alarms, store_new_alarm_alarms, filter_app.
    rewrite filter_keeps_all.
    + cbn [filter id pyval_eqb]; rewrite String.eqb_refl; cbn [negb]; apply app_nil_r.
    + intros x Hx; apply negb_true_iff, pyval_eqb_neq.
      intros [= Hid]; now apply (Hfresh x).
Qed.

Lemma add_then_remove_restores_witness :
  let w := mk_world 10 "2025-01-01T10:00:02" "id-3" (inr (mk_metrics 91 10 10)) true None
                    false None MailNotConfigured in
  let c85 := mk_alarm "id-1" (PStr "CPU critical") "cpu" 85 (Some "always") in
  let st := mk_state [c85] None (JsonList [c85]) [] in
  let st' := snd (add_alarm w (PStr "disk") (PInt 90) PNone (PStr "day") st) in
  alarms (snd (remove_alarm w (PStr "id-3") st')) = [c85].
Proof.
  intros w c85 st st'.
  apply (add_then_remove_restores w w (PStr "disk") (PInt 90) PNone (PStr "day") st "id-3").
  - intros x [<-|[]]; discriminate.
  - reflexivity.
Defined.

(** X4.  Removing twice is removing once: whatever the first call of
    [remove_alarm] did, a second call with the same id returns [False] and
    leaves the state, log included, exactly as the first call left it. *)
Theorem remove_alarm_twice (w w' : world) (i : pyval) (st : state) :
  remove_alarm w' i (snd (remove_alarm w i st)) = (false, snd (remove_alarm w i st)).
Proof.
  apply remove_alarm_absent.
  intros a Ha; rewrite remove_alarm_alarms in Ha.
  apply filter_In in Ha; destruct Ha as [_ Ha].
  now apply pyval_eqb_neq, negb_true_iff.
Qed.

(** X5.  A threshold that is not a number is not a validation error.
    With a resource among the four as first argument and a threshold that
    is [None] or a string, [add_alarm] raises [TypeError], from the
    comparison of the threshold with a number, and nothing is stored or
    logged: the state is the one before the call.  This is what the call
    [add_alarm(name, resource, threshold)] of the GUI does when the name is
    itself a resource name. *)
Theorem add_alarm_threshold_type_error (w : world) (r : string) (thr nm p : pyval)
    (st : state) :
  In r AVAILABLE_RESOURCES ->
  (forall t, thr <> PInt t) ->
  add_alarm w (PStr r) thr nm p st = (inl TypeError, st).
Proof.
  intros Hr Hthr.
  assert (Hin : py_in (PStr r) AVAILABLE_RESOURCES = true)
    by (apply py_in_true; now exists r).
  rewrite add_alarm_unfold, Hin; cbn [negb andb].
  unfold add_alarm_checked; rewrite Hin; cbn [negb].
  destruct thr as [|t|s]; [reflexivity|now destruct (Hthr t)|reflexivity].
Qed.

Lemma add_alarm_threshold_type_error_witness :
  let w := mk_world 10 "2025-01-01T10:00:02" "id-3" (inr (mk_metrics 91 10 10)) true None
                    false None MailNotConfigured in
  let st := mk_state [] None (JsonList []) [] in
  add_alarm w (PStr "cpu") (PStr "ram") (PInt 50) (PStr "always") st = (inl TypeError, st).
Proof.
  intros w st.
  apply (add_alarm_threshold_type_error w "cpu" (PStr "ram") (PInt 50) (PStr "always") st).
  - simpl; tauto.
  - intros t; discriminate.
Defined.

(** ** Memory and file *)

Lemma remove_alarm_alarms_file w i st :
  alarms_file (snd (remove_alarm w i st)) =
  if fst (remove_alarm w i st)
  then match save_error w with
       | None => JsonList (alarms (snd (remove_alarm w i st)))
       | Some (OpenFails _) => alarms_file st
       | Some (WriteFails _) => Malformed
       end
  else alarms_file st.
Proof.
  pose proof (remove_alarm_alarms w i st) as Hal; revert Hal.
  unfold remove_alarm.
  destruct (_ <? _)%nat; cbn [fst snd]; [|reflexivity].
  set (st1 := set_alarms _ st).
  set (st3 := log_event w (Alarm_removed i) (save_alarms w (alarms st1) st1)).
  assert (H3 : alarms_file st3 = match save_error w with
                                 | None => JsonList (alarms st1)
                                 | Some (OpenFails _) => alarms_file st
                                 | Some (WriteFails _) => Malformed
                                 end)
    by (unfold st3; now rewrite log_event_alarms_file, save_alarms_file).
  intros Hal.
  assert (Hf : alarms_file (match triggered_alarm st3 with
                            | Some t => if pyval_eqb (PStr (id (rule t))) i
                                        then set_triggered_alarm None st3 else st3
                            | None => st3
                            end) = alarms_file st3).
  { destruct (triggered_alarm st3) as [t|]; [|reflexivity].
    destruct (pyval_eqb (PStr (id (rule t))) i); reflexivity. }
  rewrite Hf, H3, Hal.
  reflexivity.
Qed.

Lemma step_file_follows st wo :
  save_error (fst wo) = None ->
  alarms_file st = JsonList (alarms st) ->
  alarms_file (step st wo) = JsonList (alarms (step st wo)).
Proof.
  intros Hsave H; destruct wo as [w [a b c p|i| |]]; unfold step; cbn [fst snd] in *.
  - destruct (add_alarm_inv w a b c p st)
      as [(nm & r & t & per & _ & _ & _ & ->)|(e & _ & Ha & Hf & _)];
      [|now rewrite Ha, Hf].
    pose proof (store_new_alarm_spec w nm r t per st) as S; cbv zeta in S.
    destruct S as (_ & S1 & _ & S2); rewrite S1, S2, Hsave; reflexivity.
  - rewrite remove_alarm_alarms_file, Hsave.
    destruct (fst (remove_alarm w i st)) eqn:E; [reflexivity|].
    rewrite H, remove_alarm_alarms.
    f_equal; symmetry; apply filter_keeps_all.
    intros x Hx; apply negb_true_iff, pyval_eqb_neq; intros Hid.
    assert (fst (remove_alarm w i st) = true)
      by (apply remove_alarm_found_iff; now exists x).
    congruence.
  - now rewrite run_tick_alarms, run_tick_alarms_file.
  - exact H.
Qed.

(** X6.  The file follows the memory.  If the rules on file are the rules
    in memory and no write fails, then after any sequence of [add_alarm]
    and [remove_alarm] calls, passes of the monitor loop and
    acknowledgements the file again holds the rules in memory, in the same
    order: a manager started on that file by [load_alarms] has the same
    rules. *)
Theorem file_follows_memory (l : list (world * op)) (st : state) :
  (forall wo, In wo l -> save_error (fst wo) = None) ->
  alarms_file st = JsonList (alarms st) ->
  alarms_file (steps l st) = JsonList (alarms (steps l st))
  /\ alarms (restart (steps l st)) = alarms (steps l st).
Proof.
  intros Hsave H.
  assert (Hf : alarms_file (steps l st) = JsonList (alarms (steps l st))).
  { unfold steps; revert st H.
    induction l as [|wo l IH]; intros st H; simpl; [exact H|].
    apply IH.
    - intros wo' Hwo'; apply Hsave; now right.
    - apply step_file_follows; [apply Hsave; now left|exact H]. }
  split; [exact Hf|].
  unfold restart; rewrite Hf; reflexivity.
Qed.

Lemma file_follows_memory_witness :
  let w := mk_world 10 "2025-01-01T10:00:02" "id-3" (inr (mk_metrics 91 10 10)) true None
                    false None MailNotConfigured in
  let calls := [(w, OpAdd (PStr "cpu") (PInt 85) PNone (PStr "always"));
                (w, OpTick);
                (w, OpAdd (PStr "Logs!") (PStr "logs") (PInt 7) (PStr "night"))] in
  let st' := steps calls (mk_state [] None (JsonList []) []) in
  alarms (restart st') = alarms st' /\ List.length (alarms st') = 2%nat.
Proof.
  intros w calls st'.
  split; [|reflexivity].
  apply (file_follows_memory calls (mk_state [] None (JsonList []) [])).
  - intros wo [<-|[<-|[<-|[]]]]; reflexivity.
  - reflexivity.
Defined.

(** X7.  A write that fails costs neither the call nor the rule in
    memory, but it can cost the file.  When writing [alarms.json] raises,
    [add_alarm] on valid arguments still returns the new id and keeps the
    rule in memory, and the failure is logged as [Error_saving_alarms].
    The file is left as it was when it could not be opened; when the write
    fails after the opening the file is cut off, and a manager started on
    it by [load_alarms] has no rule at all.  The next call that stores or
    removes a rule while the write works puts the whole list in memory on
    file. *)
Theorem failed_write_is_not_fatal (w w' : world) (f : save_failure) (r per : string)
    (t : Z) (nm : pyval) (st : state) :
  save_error w = Some f ->
  In r AVAILABLE_RESOURCES -> valid_threshold r t -> In per valid_periods ->
  let st1 := snd (add_alarm w (PStr r) (PInt t) nm (PStr per) st) in
  fst (add_alarm w (PStr r) (PInt t) nm (PStr per) st) = inr (uuid4 w)
  /\ List.length (alarms st1) = S (List.length (alarms st))
  /\ (forall cls, f = OpenFails cls -> alarms_file st1 = alarms_file st)
  /\ (forall cls, f = WriteFails cls ->
      alarms_file st1 = Malformed /\ alarms (restart st1) = [])
  /\ (log_dir_ok w = true -> In (Error_saving_alarms (failure_class f)) (log_file st1))
  /\ (save_error w' = None ->
      forall a b c p i,
        fst (add_alarm w' a b c p st1) = inr i ->
        alarms_file (snd (add_alarm w' a b c p st1))
        = JsonList (alarms (snd (add_alarm w' a b c p st1))))
  /\ (save_error w' = None ->
      forall i,
        fst (remove_alarm w' i st1) = true ->
        alarms_file (snd (remove_alarm w' i st1))
        = JsonList (alarms (snd (remove_alarm w' i st1)))).
Proof.
  intros Hsave Hr Ht Hper st1; unfold st1.
  rewrite add_alarm_valid by assumption.
  pose proof (store_new_alarm_spec w nm r t per st) as S; cbv zeta in S.
  destruct S as (S0 & S1 & _ & S2).
  rewrite Hsave in S2.
  split; [exact S0|].
  split; [rewrite S1, length_app; simpl; lia|].
  split; [intros cls ->; exact S2|].
  split.
  { intros cls ->; split; [exact S2|].
    unfold restart; rewrite S2; reflexivity. }
  split.
  - intros Hok.
    unfold store_new_alarm; cbn [snd].
    apply log_event_keeps.
    now apply save_alarms_logged.
  - split.
    + intros Hsave' a b c p i Hi.
      set (s := snd (store_new_alarm w nm r t per st)) in *.
      destruct (add_alarm_inv w' a b c p s)
        as [(nm' & r' & t' & per' & _ & _ & _ & E)|(e & E & _)]; [|congruence].
      rewrite E.
      pose proof (store_new_alarm_spec w' nm' r' t' per' s) as S'; cbv zeta in S'.
      destruct S' as (_ & S1' & _ & S2'); now rewrite S1', S2', Hsave'.
    + intros Hsave' i Hi.
      now rewrite remove_alarm_alarms_file, Hi, Hsave'.
Qed.

Lemma failed_write_is_not_fatal_witness :
  let denied := mk_world 10 "2025-01-01T10:00:02" "id-3" (inr (mk_metrics 91 10 10)) true
                         (Some (OpenFails "PermissionError")) false None
                         MailNotConfigured in
  let full := mk_world 10 "2025-01-01T10:00:02" "id-3" (inr (mk_metrics 91 10 10)) true
                       (Some (WriteFails "OSError")) false None MailNotConfigured in
  let ok := mk_world 10 "2025-01-01T10:00:05" "id-4" (inr (mk_metrics 91 10 10)) true
                     None false None MailNotConfigured in
  let c85 := mk_alarm "id-1" (PStr "CPU critical") "cpu" 85 (Some "always") in
  let st := mk_state [c85] None (JsonList [c85]) [] in
  let st1 := snd (add_alarm denied (PStr "ram") (PInt 80) PNone (PStr "always") st) in
  let st2 := snd (add_alarm full (PStr "ram") (PInt 80) PNone (PStr "always") st) in
  let st3 := snd (add_alarm ok (PStr "disk") (PInt 90) PNone (PStr "always") st2) in
  fst (add_alarm denied (PStr "ram") (PInt 80) PNone (PStr "always") st) = inr "id-3"
  /\ alarms_file st1 = JsonList [c85]
  /\ In (Error_saving_alarms "PermissionError") (log_file st1)
  /\ fst (add_alarm full (PStr "ram") (PInt 80) PNone (PStr "always") st) = inr "id-3"
  /\ List.length (alarms st2) = 2%nat
  /\ alarms_file st2 = Malformed
  /\ alarms (restart st2) = []
  /\ In (Error_saving_alarms "OSError") (log_file st2)
  /\ alarms_file st3 = JsonList (alarms st3)
  /\ List.length (alarms st3) = 3%nat.
Proof.
  intros denied full ok c85 st st1 st2 st3.
  destruct (failed_write_is_not_fatal denied ok (OpenFails "PermissionError")
              "ram" "always" 80 PNone st)
    as (H0 & _ & H2 & _ & H4 & _).
  { reflexivity. }
  { simpl; tauto. }
  { unfold valid_threshold; simpl; lia. }
  { simpl; tauto. }
  destruct (failed_write_is_not_fatal full ok (WriteFails "OSError")
              "ram" "always" 80 PNone st)
    as (K0 & K1 & _ & K3 & K4 & K5 & _).
  { reflexivity. }
  { simpl; tauto. }
  { unfold valid_threshold; simpl; lia. }
  { simpl; tauto. }
  destruct (K3 "OSError" eq_refl) as [K3a K3b].
  split; [exact H0|].
  split; [exact (H2 "PermissionError" eq_refl)|].
  split; [now apply H4|].
  split; [exact K0|].
  split; [exact K1|].
  split; [exact K3a|].
  split; [exact K3b|].
  split; [now apply K4|].
  split; [|reflexivity].
  apply (K5 eq_refl (PStr "disk") (PInt 90) PNone (PStr "always") "id-4").
  reflexivity.
Defined.

(** ** Loading the rules *)

(** X8.  [load_alarms] never fails and never damages a file.  It returns
    the list on file when the file holds a JSON list and the empty list in
    every other case; a missing file is created holding the empty list,
    any other file, a corrupt one included, is left as it is, so loading
    again returns the same rules.  Every case in which rules could not be
    read ends with an error line, and a file holding a JSON object or
    string of length [n] is first reported as [n] alarms loaded. *)
Theorem load_alarms_never_fails (f : alarms_json) :
  let rules := fst (fst (load_alarms f)) in
  let f' := snd (fst (load_alarms f)) in
  let lines := snd (load_alarms f) in
  (forall l, f = JsonList l -> rules = l /\ lines = [Loaded_alarms_from_disk (List.length l)])
  /\ ((forall l, f <> JsonList l) -> rules = [])
  /\ (f = NoFile None -> f' = JsonList [] /\ lines = [Created_empty_alarms_file])
  /\ (f <> NoFile None -> f' = f)
  /\ fst (fst (load_alarms f')) = rules
  /\ ((forall l, f <> JsonList l) -> f <> NoFile None ->
      exists cls, last lines Created_empty_alarms_file = Error_loading_alarms cls
                  \/ last lines Created_empty_alarms_file = Unexpected_error_loading_alarms cls)
  /\ (forall n, f = JsonSized n ->
                lines = [Loaded_alarms_from_disk n; Error_loading_alarms "ValueError"]).
Proof.
  intros rules f' lines; unfold rules, f', lines.
  split; [intros l ->; split; reflexivity|].
  split.
  { intros H; destruct f as [[c|]| | |l| |]; try reflexivity; now destruct (H l). }
  split; [intros ->; split; reflexivity|].
  split.
  { intros H; destruct f as [[c|]| | |l| |]; try reflexivity; now destruct H. }
  split; [destruct f as [[c|]| | |l| |]; reflexivity|].
  split.
  { intros H H'; destruct f as [[c|]|c| |l| |]; cbn [load_alarms snd last].
    - exists c; now right.
    - now destruct H'.
    - exists c; now right.
    - exists "JSONDecodeError"; now left.
    - now destruct (H l).
    - exists "ValueError"; now left.
    - exists "TypeError"; now right. }
  intros n ->; reflexivity.
Qed.

Lemma load_alarms_never_fails_witness :
  fst (fst (load_alarms Malformed)) = []
  /\ snd (fst (load_alarms (NoFile None))) = JsonList []
  /\ snd (fst (load_alarms (JsonSized 3))) = JsonSized 3.
Proof.
  destruct (load_alarms_never_fails Malformed) as (_ & H1 & _).
  destruct (load_alarms_never_fails (NoFile None)) as (_ & _ & H2 & _).
  destruct (load_alarms_never_fails (JsonSized 3)) as (_ & _ & _ & H3 & _).
  split; [apply H1; intros l; discriminate|].
  split; [now apply H2|].
  apply H3; discriminate.
Defined.

(** ** The log history *)

Section LogHistoryFacts.
Context {line : Type}.
Variable line_date : line -> option Z.
Variable contains : string -> line -> bool.

(** X9.  What [get_log_history] returns with valid dates and a readable
    log: the last lines, in the order of the file, among those that pass
    the date and search filters.  With [max_entries] positive that is the
    last [max_entries] of them, or all when there are fewer; with
    [max_entries] absent or 0, all of them; and with [max_entries]
    negative, all but the first [-max_entries] of them. *)
Theorem get_log_history_returns_last (today : Z) (file : list line) (max_entries : option Z)
    (search_text : option string) (start_date end_date : date_arg) :
  date_rejected today start_date = false ->
  date_rejected today end_date = false ->
  dates_crossed start_date end_date = false ->
  let matching := filter (include_line line_date contains search_text start_date end_date)
                         file in
  exists dropped res,
    get_log_history_filtered line_date contains true today file max_entries search_text
                             start_date end_date = inr res
    /\ matching = dropped ++ res
    /\ (forall l, In l res ->
                  In l file
                  /\ include_line line_date contains search_text start_date end_date l = true)
    /\ (max_entries = None \/ max_entries = Some 0 -> dropped = [])
    /\ (forall n, max_entries = Some n -> 0 < n ->
                  List.length res = Nat.min (Z.to_nat n) (List.length matching))
    /\ (forall n, max_entries = Some n -> n < 0 ->
                  List.length dropped = Nat.min (Z.to_nat (- n)) (List.length matching)).
Proof.
  intros Hs He Hc matching.
  unfold get_log_history_filtered; rewrite Hs, He, Hc; cbn [negb].
  fold matching.
  assert (Hin : forall d r, matching = d ++ r ->
                forall l, In l r ->
                  In l file
                  /\ include_line line_date contains search_text start_date end_date l = true).
  { intros d r E l Hl; apply filter_In; fold matching; rewrite E.
    apply in_or_app; now right. }
  destruct max_entries as [n|].
  - destruct (n =? 0) eqn:E0.
    + apply Z.eqb_eq in E0; subst n.
      exists [], matching.
      split; [reflexivity|]; split; [reflexivity|].
      split; [now apply (Hin [])|].
      split; [reflexivity|].
      split; intros n [= <-] Hn; lia.
    + apply Z.eqb_neq in E0.
      unfold py_last.
      destruct (0 <? n) eqn:Hpos.
      * apply Z.ltb_lt in Hpos.
        set (k := (List.length matching - Z.to_nat n)%nat).
        exists (firstn k matching), (skipn k matching).
        split; [reflexivity|].
        split; [symmetry; apply firstn_skipn|].
        split; [apply (Hin (firstn k matching)); symmetry; apply firstn_skipn|].
        split; [intros [H|H]; [discriminate|injection H as Hn0; lia]|].
        split.
        -- intros n' [= <-] _; rewrite length_skipn; unfold k; lia.
        -- intros n' [= <-] Hn; lia.
      * apply Z.ltb_ge in Hpos.
        set (k := Z.to_nat (- n)).
        exists (firstn k matching), (skipn k matching).
        split; [reflexivity|].
        split; [symmetry; apply firstn_skipn|].
        split; [apply (Hin (firstn k matching)); symmetry; apply firstn_skipn|].
        split; [intros [H|H]; [discriminate|injection H as Hn0; lia]|].
        split.
        -- intros n' [= <-] Hn; lia.
        -- intros n' [= <-] _; rewrite length_firstn; unfold k; lia.
  - exists [], matching.
    split; [reflexivity|]; split; [reflexivity|].
    split; [now apply (Hin [])|].
    split; [reflexivity|].
    split; intros n H; discriminate H.
Qed.

(** X10.  A date that cannot be used ends the call before the log is
    touched.  When the start or the end date is not of the form
    year-month-day or lies after today, or when the start date is after the
    end date, [get_log_history] returns the empty list, whatever the log
    holds and whatever the other arguments are, and also when the log
    directory cannot be created: it does not raise then. *)
Theorem get_log_history_rejects_dates (dir_ok : bool) (today : Z) (file : list line)
    (max_entries : option Z) (search_text : option string) (start_date end_date : date_arg) :
  date_rejected today start_date = true
  \/ date_rejected today end_date = true
  \/ dates_crossed start_date end_date = true ->
  get_log_history_filtered line_date contains dir_ok today file max_entries search_text
                           start_date end_date = inr [].
Proof.
  unfold get_log_history_filtered.
  intros [H|[H|H]]; rewrite ?H.
  - reflexivity.
  - now destruct (date_rejected today start_date).
  - now destruct (date_rejected today start_date), (date_rejected today end_date).
Qed.
End LogHistoryFacts.

(** The call of the monitor loop, [get_log_history(max_entries=None)], is
    the general function without filters. *)
Lemma get_log_history_unfiltered {line : Type} (line_date : line -> option Z)
    (contains : string -> line -> bool) (dir_ok : bool) (today : Z) (file : list line) :
  get_log_history_filtered line_date contains dir_ok today file None None NoDate NoDate
  = if dir_ok then inr file else inl OSError.
Proof.
  unfold get_log_history_filtered; cbn [date_rejected dates_crossed].
  destruct dir_ok; cbn [negb]; [|reflexivity].
  f_equal; apply filter_keeps_all.
  intros l _; unfold include_line; now destruct (line_date l).
Qed.

Lemma get_log_history_returns_last_witness :
  let day (l : Z * string) := Some (fst l) in
  let has (s : string) (l : Z * string) := String.eqb s (snd l) in
  let file := [(1, "start"); (2, "alarm"); (3, "alarm"); (4, "stop"); (5, "alarm")] in
  exists res,
    get_log_history_filtered day has true 9 file (Some 2) (Some "alarm") (GoodDate 2) NoDate
    = inr res
    /\ List.length res = 2%nat
    /\ forall l, In l res -> snd l = "alarm".
Proof.
  intros day has file.
  destruct (get_log_history_returns_last day has 9 file (Some 2) (Some "alarm")
              (GoodDate 2) NoDate eq_refl eq_refl eq_refl)
    as (dropped & res & Hget & _ & Hin & _ & Hlen & _).
  exists res.
  split; [exact Hget|].
  split; [rewrite (Hlen 2 eq_refl) by lia; reflexivity|].
  intros l Hl; destruct (Hin l Hl) as [_ Hinc].
  unfold include_line in Hinc.
  apply andb_true_iff in Hinc; destruct Hinc as [_ Hinc].
  change (String.eqb "alarm" (snd l) = true) in Hinc.
  apply String.eqb_eq in Hinc; now symmetry.
Defined.

Lemma get_log_history_rejects_dates_witness :
  let day (l : Z * string) := Some (fst l) in
  let has (s : string) (l : Z * string) := String.eqb s (snd l) in
  get_log_history_filtered day has false 9 [(1, "start")] None None (GoodDate 7) (GoodDate 3)
  = inr [].
Proof.
  intros day has.
  apply (get_log_history_rejects_dates day has false 9 [(1, "start")] None None
           (GoodDate 7) (GoodDate 3)).
  right; right; reflexivity.
Defined.

(** ** Order and ties *)

Lemma key_lt_irrefl (k : Z * Z) : key_lt k k = false.
Proof. apply key_lt_false_iff; lia. Qed.

Section StableSort.
Context {A : Type}.
Variable key : A -> Z * Z.

Lemma sorted_same_key (l : list A) :
  (forall x y, In x l -> In y l -> key x = key y) -> sorted key l = l.
Proof.
  induction l as [|x l IH]; intros H; simpl; [reflexivity|].
  rewrite IH by (intros y z Hy Hz; apply H; now right).
  apply insert_by_front.
  apply Forall_forall; intros y Hy.
  unfold key_le; rewrite (H y x) by (simpl; auto).
  apply key_lt_irrefl.
Qed.

(** The sort is stable: elements of one key keep their order. *)
Lemma filter_sorted_same_key (f : A -> bool) (l : list A) :
  (forall x y, In x l -> In y l -> f x = true -> f y = true -> key x = key y) ->
  filter f (sorted key l) = filter f l.
Proof.
  intros H.
  rewrite filter_sorted.
  apply sorted_same_key.
  intros x y Hx Hy; apply filter_In in Hx, Hy; apply H; tauto.
Qed.

Lemma StronglySorted_pair (R : A -> A -> Prop) (l1 l2 l3 : list A) (a b : A) :
  StronglySorted R (l1 ++ a :: l2 ++ b :: l3) -> R a b.
Proof.
  induction l1 as [|x l1 IH]; simpl; intros H; inversion H as [|? ? Hs Hall]; subst.
  - rewrite Forall_forall in Hall; apply Hall.
    apply in_or_app; right; now left.
  - now apply IH.
Qed.
End StableSort.

(** X11.  The order [get_alarms] lists the rules in.  The list is a
    rearrangement of the stored rules.  Of two rules in it, the first has
    the lower resource rank (cpu 1, ram 2, disk 3, anything else, logs
    included, 99) or the same rank and a threshold that is not greater.
    Rules of the same resource and threshold come in the order they have
    in the store. *)
Theorem get_alarms_priority_order (st : state) :
  Permutation (get_alarms st) (alarms st)
  /\ (forall l1 a l2 b l3,
         get_alarms st = l1 ++ a :: l2 ++ b :: l3 ->
         sort_order (resource a) < sort_order (resource b)
         \/ (sort_order (resource a) = sort_order (resource b)
             /\ threshold a <= threshold b))
  /\ (forall r t,
         filter (fun a => String.eqb (resource a) r && (threshold a =? t)) (get_alarms st)
         = filter (fun a => String.eqb (resource a) r && (threshold a =? t)) (alarms st)).
Proof.
  split; [apply sorted_perm|split].
  - intros l1 a l2 b l3 E.
    pose proof (sorted_sorted sort_key (alarms st)) as Hs.
    fold (get_alarms st) in Hs; rewrite E in Hs.
    apply StronglySorted_pair in Hs.
    unfold key_le in Hs; apply key_lt_false_iff in Hs.
    unfold sort_key in Hs; cbn [fst snd] in Hs; lia.
  - intros r t; unfold get_alarms.
    apply filter_sorted_same_key.
    intros x y _ _ Hx Hy.
    apply andb_true_iff in Hx, Hy.
    destruct Hx as [Hx1 Hx2], Hy as [Hy1 Hy2].
    apply String.eqb_eq in Hx1, Hy1; apply Z.eqb_eq in Hx2, Hy2.
    unfold sort_key; congruence.
Qed.

Lemma get_alarms_priority_order_witness :
  let l5 := mk_alarm "id-1" (PStr "Logs") "logs" 5 (Some "always") in
  let d90 := mk_alarm "id-2" (PStr "Disk") "disk" 90 (Some "always") in
  let c85 := mk_alarm "id-3" (PStr "CPU late") "cpu" 85 (Some "night") in
  let c85' := mk_alarm "id-4" (PStr "CPU early") "cpu" 85 (Some "day") in
  let st := mk_state [l5; d90; c85; c85'] None (JsonList []) [] in
  get_alarms st = [c85; c85'; d90; l5]
  /\ (sort_order (resource c85) < sort_order (resource l5)
      \/ (sort_order (resource c85) = sort_order (resource l5)
          /\ threshold c85 <= threshold l5)).
Proof.
  intros l5 d90 c85 c85' st.
  split; [reflexivity|].
  destruct (get_alarms_priority_order st) as (_ & Horder & _).
  apply (Horder [] c85 [c85'; d90] l5 []); reflexivity.
Defined.

Section MaxSplit.
Context {A : Type}.
Variable weight : A -> Z.

(** [max] returns the first of the elements of greatest weight. *)
Lemma py_max_split (l : list A) : forall x,
  exists s1 s2,
    x :: l = s1 ++ py_max weight x l :: s2
    /\ (forall b, In b s1 -> weight b < weight (py_max weight x l))
    /\ (forall b, In b s2 -> weight b <= weight (py_max weight x l)).
Proof.
  induction l as [|y l IH]; intros x.
  - exists [], []; split; [reflexivity|]; split; intros b [].
  - change (py_max weight x (y :: l))
      with (py_max weight (if weight x <? weight y then y else x) l).
    destruct (weight x <? weight y) eqn:E.
    + apply Z.ltb_lt in E.
      destruct (IH y) as (s1 & s2 & Heq & H1 & H2).
      exists (x :: s1), s2.
      split; [simpl; now rewrite Heq|].
      split; [|assumption].
      intros b [<-|Hb]; [|now apply H1].
      pose proof (py_max_ge_head weight l y); lia.
    + apply Z.ltb_ge in E.
      destruct (IH x) as (s1 & s2 & Heq & H1 & H2).
      destruct s1 as [|x' s1].
      * simpl in Heq; injection Heq as Hx Hl.
        exists [], (y :: s2).
        split; [simpl; now rewrite <- Hx, Hl|].
        split; [intros b []|].
        intros b [<-|Hb]; [rewrite <- Hx; lia|now apply H2].
      * simpl in Heq; injection Heq as Hx Hl; subst x'.
        exists (x :: y :: s1), s2.
        split; [simpl; do 2 f_equal; exact Hl|].
        split; [|assumption].
        intros b [<-|[<-|Hb]].
        -- apply H1; now left.
        -- assert (weight x < weight (py_max weight x l)) by (apply H1; now left).
           lia.
        -- apply H1; now right.
Qed.
End MaxSplit.

Lemma filter_filter_and {A : Type} (f g : A -> bool) (l : list A) :
  filter f (filter g l) = filter (fun x => g x && f x) l.
Proof.
  induction l as [|x l IH]; simpl; [reflexivity|].
  destruct (g x); simpl; [destruct (f x)|]; now rewrite IH.
Qed.

Lemma filter_head_split {A : Type} (g : A -> bool) (l : list A) (a : A) (rest : list A) :
  filter g l = a :: rest ->
  exists l1 l2, l = l1 ++ a :: l2 /\ (forall b, In b l1 -> g b = false).
Proof.
  induction l as [|x l IH]; simpl; [discriminate|].
  destruct (g x) eqn:E.
  - intros [= -> _]; exists [], l; split; [reflexivity|intros b []].
  - intros H; destruct (IH H) as (l1 & l2 & -> & Hl1).
    exists (x :: l1), l2; split; [reflexivity|].
    intros b [<-|Hb]; [assumption|now apply Hl1].
Qed.

(** X12.  Ties go to the rule stored first.  The rule the loop hands to
    [_trigger_alarm] for a resource stands in the store behind rules that,
    when they breach, have a smaller threshold, and before rules that,
    when they breach, have no greater one: among several breaching rules
    of the greatest threshold it is the one that was added first, although
    [get_alarms] has sorted the rules in between. *)
Theorem earliest_rule_wins_ties (w : world) (u : usage) (n : Z) (st : state)
    (r : string) (a : alarm) :
  winner w u n st r = Some a ->
  check_resource w u n st r = _trigger_alarm w a (current_value_of u n r) st
  /\ exists l1 l2,
      alarms st = l1 ++ a :: l2
      /\ (forall b, In b l1 ->
                    breaching (now_hour w) (current_value_of u n r) r b = true ->
                    threshold b < threshold a)
      /\ (forall b, In b l2 ->
                    breaching (now_hour w) (current_value_of u n r) r b = true ->
                    threshold b <= threshold a).
Proof.
  intros Hw.
  split; [now rewrite check_resource_winner, Hw|].
  pose proof (winner_highest w u n st r a Hw) as (_ & _ & Hmax).
  revert Hw; unfold winner.
  set (cur := current_value_of u n r) in *.
  set (cand := fun b => String.eqb (resource b) r && int_le_num (threshold b) cur).
  set (act := _is_alarm_active (now_hour w)).
  destruct (filter act (filter cand (get_alarms st))) as [|x l0] eqn:EC; [discriminate|].
  intros [= Ha].
  destruct (py_max_split threshold l0 x) as (s1 & s2 & Hsplit & Hs1 & Hs2).
  rewrite Ha in Hsplit, Hs1, Hs2.
  set (eqm := fun b : alarm => threshold b =? threshold a).
  assert (Hhead : filter eqm (filter act (filter cand (get_alarms st)))
                  = a :: filter eqm s2).
  { rewrite EC, Hsplit, filter_app.
    rewrite filter_none.
    - simpl; unfold eqm at 1; now rewrite Z.eqb_refl.
    - intros b Hb; unfold eqm; apply Z.eqb_neq.
      specialize (Hs1 b Hb); lia. }
  rewrite !filter_filter_and in Hhead.
  unfold get_alarms in Hhead.
  rewrite filter_sorted_same_key in Hhead.
  2:{ intros y z _ _ Hy Hz.
      apply andb_true_iff in Hy, Hz; destruct Hy as [Hy Hym], Hz as [Hz Hzm].
      apply andb_true_iff in Hym, Hzm; destruct Hym as [_ Hym], Hzm as [_ Hzm].
      unfold cand in Hy, Hz.
      apply andb_true_iff in Hy, Hz; destruct Hy as [Hy _], Hz as [Hz _].
      apply String.eqb_eq in Hy, Hz; apply Z.eqb_eq in Hym, Hzm.
      unfold sort_key; congruence. }
  destruct (filter_head_split _ _ _ _ Hhead) as (l1 & l2 & Hal & Hl1).
  exists l1, l2.
  split; [exact Hal|].
  split.
  - intros b Hb Hbr.
    assert (Hle : threshold b <= threshold a).
    { apply Hmax; [rewrite Hal; apply in_or_app; now left|exact Hbr]. }
    specialize (Hl1 b Hb); cbn beta in Hl1.
    unfold breaching in Hbr; fold cur in Hbr.
    change (cand b && act b = true) in Hbr.
    apply andb_true_iff in Hbr; destruct Hbr as [Hc Ha'].
    rewrite Hc, Ha' in Hl1; cbn [andb] in Hl1.
    unfold eqm in Hl1; apply Z.eqb_neq in Hl1; lia.
  - intros b Hb Hbr.
    apply Hmax; [rewrite Hal; apply in_or_app; right; now right|exact Hbr].
Qed.

Lemma earliest_rule_wins_ties_witness :
  let w := mk_world 10 "2025-01-01T10:00:02" "id-9" (inr (mk_metrics 90 10 10)) true None
                    false None MailNotConfigured in
  let d90 := mk_alarm "id-1" (PStr "Disk") "disk" 90 (Some "always") in
  let first85 := mk_alarm "id-2" (PStr "CPU, added first") "cpu" 85 (Some "always") in
  let c70 := mk_alarm "id-3" (PStr "CPU warning") "cpu" 70 (Some "always") in
  let second85 := mk_alarm "id-4" (PStr "CPU, added second") "cpu" 85 (Some "always") in
  let st := mk_state [d90; first85; c70; second85] None (JsonList []) [] in
  let u := mk_usage (NFloat 90) (NFloat 10) (NFloat 10) (Some (NInt 0)) in
  check_resource w u 0 st "cpu" = _trigger_alarm w first85 (NFloat 90) st.
Proof.
  intros w d90 first85 c70 second85 st u.
  apply (earliest_rule_wins_ties w u 0 st "cpu" first85).
  reflexivity.
Defined.

(** ** The monitor loop over many passes *)

Lemma log_event_appends w ev st : exists l, log_file (log_event w ev st) = log_file st ++ l.
Proof.
  unfold log_event; destruct (log_dir_ok w); cbn [log_file set_log_file].
  - now exists [ev].
  - exists []; now rewrite app_nil_r.
Qed.

Lemma appends_trans (l0 l1 l2 : list event) :
  (exists l, l1 = l0 ++ l) -> (exists l, l2 = l1 ++ l) -> exists l, l2 = l0 ++ l.
Proof.
  intros [a ->] [b ->]; exists (a ++ b); now rewrite app_assoc.
Qed.

Lemma send_alert_email_appends w st :
  match send_alert_email w st with
  | inl (_, st') | inr (_, st') => exists l, log_file st' = log_file st ++ l
  end.
Proof.
  unfold send_alert_email.
  assert (H0 : exists l, log_file st = log_file st ++ l)
    by (exists []; now rewrite app_nil_r).
  destruct (mail w), (mail_config_error w); try exact H0;
    try apply log_event_appends;
    (eapply appends_trans; [apply log_event_appends|apply log_event_appends]).
Qed.

Lemma trigger_alarm_appends w a v st :
  exists l, log_file (_trigger_alarm w a v st) = log_file st ++ l.
Proof.
  unfold _trigger_alarm.
  set (st1 := if String.eqb (upper (resource a)) "LOGS"
              then log_event w (Security_Alert_Log_Count_Exceeds v (threshold a)) st
              else log_event w (usage_alarm_triggered_percent (upper (resource a)) (threshold a)) st).
  assert (H1 : exists l, log_file st1 = log_file st ++ l)
    by (unfold st1; destruct (String.eqb _ _); apply log_event_appends).
  set (st2 := set_triggered_alarm (Some (mk_triggered a v (now_iso w))) st1).
  destruct (_ || _); [|exact H1].
  pose proof (send_alert_email_appends w st2) as H3.
  destruct (send_alert_email w st2) as [[e s]|[b s]].
  - eapply appends_trans; [exact H1|].
    eapply appends_trans; [exact H3|apply log_event_appends].
  - eapply appends_trans; [exact H1|exact H3].
Qed.

Lemma check_resources_appends w u n st :
  exists l, log_file (check_resources w u n st) = log_file st ++ l.
Proof.
  unfold check_resources; generalize AVAILABLE_RESOURCES as rs; intros rs; revert st.
  induction rs as [|r rs IH]; intros st; simpl.
  - exists []; now rewrite app_nil_r.
  - eapply appends_trans; [|apply IH].
    rewrite check_resource_winner.
    destruct (winner w u n st r); [apply trigger_alarm_appends|].
    exists []; now rewrite app_nil_r.
Qed.

Lemma get_system_usage_appends w st :
  exists l, log_file (snd (get_system_usage w st)) = log_file st ++ l.
Proof.
  unfold get_system_usage; destruct (psutil_sample w); cbn [snd].
  - apply log_event_appends.
  - exists []; now rewrite app_nil_r.
Qed.

Lemma run_tick_appends w st : exists l, log_file (run_tick w st) = log_file st ++ l.
Proof.
  destruct (log_dir_ok w) eqn:Hok.
  - rewrite run_tick_evaluates by assumption.
    eapply appends_trans; [apply get_system_usage_appends|apply check_resources_appends].
  - rewrite run_tick_raises by assumption.
    exists []; now rewrite app_nil_r.
Qed.

Lemma run_frames (ws : list world) (st : state) :
  alarms (run ws st) = alarms st
  /\ alarms_file (run ws st) = alarms_file st
  /\ exists l, log_file (run ws st) = log_file st ++ l.
Proof.
  unfold run; revert st.
  induction ws as [|w ws IH]; intros st; simpl.
  - split; [reflexivity|]; split; [reflexivity|].
    exists []; now rewrite app_nil_r.
  - destruct (IH (run_tick w st)) as (H1 & H2 & H3).
    split; [now rewrite H1, run_tick_alarms|].
    split; [now rewrite H2, run_tick_alarms_file|].
    eapply appends_trans; [apply run_tick_appends|exact H3].
Qed.

(** X13.  The monitor loop only watches.  Over any number of passes it
    leaves the rules in memory and the rules on file as they are, it only
    appends to the log, so the log count it reads never goes down, and
    once an alarm is triggered no pass clears it: a pass replaces the
    triggered alarm or keeps it. *)
Theorem monitor_only_watches (ws : list world) (st : state) :
  alarms (run ws st) = alarms st
  /\ alarms_file (run ws st) = alarms_file st
  /\ (exists l, log_file (run ws st) = log_file st ++ l)
  /\ (List.length (log_file st) <= List.length (log_file (run ws st)))%nat
  /\ (get_triggered_alarm st <> None -> get_triggered_alarm (run ws st) <> None).
Proof.
  destruct (run_frames ws st) as (H1 & H2 & H3).
  split; [exact H1|]; split; [exact H2|]; split; [exact H3|].
  split; [destruct H3 as [l ->]; rewrite length_app; lia|].
  unfold run, get_triggered_alarm; clear H1 H2 H3; revert st.
  induction ws as [|w ws IH]; intros st Hsome; simpl; [exact Hsome|].
  apply IH.
  destruct (run_tick_triggered_cases w st) as [E|(t & E & _)]; rewrite E;
    [assumption|discriminate].
Qed.

Lemma monitor_only_watches_witness :
  let busy := mk_world 10 "2025-01-01T10:00:00" "id-3" (inr (mk_metrics 90 10 10)) true None
                       false None MailNotConfigured in
  let quiet := mk_world 10 "2025-01-01T10:00:02" "id-3" (inr (mk_metrics 10 10 10)) true None
                        false None MailNotConfigured in
  let c85 := mk_alarm "id-1" (PStr "CPU critical") "cpu" 85 (Some "always") in
  let st := run_tick busy (mk_state [c85] None (JsonList [c85]) []) in
  get_triggered_alarm (run [quiet; quiet; quiet] st) <> None.
Proof.
  intros busy quiet c85 st.
  destruct (monitor_only_watches [quiet; quiet; quiet] st) as (_ & _ & _ & _ & H).
  apply H; discriminate.
Defined.

Lemma always_rule_is_active hour a : active_period a = Some "always" -> _is_alarm_active hour a = true.
Proof. unfold _is_alarm_active; now intros ->. Qed.

Lemma run_tick_logs_alarm w st a :
  log_dir_ok w = true ->
  In a (alarms st) -> resource a = "logs" -> active_period a = Some "always" ->
  threshold a <= Z.of_nat (List.length (log_file st)) ->
  exists t, triggered_alarm (run_tick w st) = Some t /\ resource (rule t) = "logs".
Proof.
  intros Hok Hin Hres Hper Hthr.
  rewrite run_tick_evaluates by assumption.
  set (st1 := snd (get_system_usage w st)).
  destruct (logs_breach_triggers_logs w (tick_usage w st) (tick_log_count w st) st1)
    as (b & Ht & _ & Hb).
  - apply existsb_exists; exists a.
    split; [unfold st1; now rewrite get_system_usage_alarms|].
    unfold breaching.
    rewrite Hres, (always_rule_is_active _ _ Hper); cbn [String.eqb Ascii.eqb Bool.eqb andb].
    rewrite andb_true_r.
    unfold current_value_of; cbn [String.eqb Ascii.eqb Bool.eqb int_le_num].
    apply Z.leb_le.
    unfold tick_log_count.
    destruct (get_system_usage_appends w st) as [l ->].
    rewrite length_app; lia.
  - eexists; split; [exact Ht|exact Hb].
Qed.

(** X14.  A logs alarm never ends by itself.  Once the log holds as many
    lines as the threshold of a stored logs rule that is always active,
    every later pass of the monitor loop that can read the log ends with a
    logs rule as the triggered alarm, however many passes follow and
    whatever the cpu, ram and disk values are: the log the rule counts is
    the log the monitor itself appends to, and nothing removes lines. *)
Theorem logs_alarm_never_ends (ws : list world) (w : world) (st : state) (a : alarm) :
  (forall w', In w' (ws ++ [w]) -> log_dir_ok w' = true) ->
  In a (alarms st) -> resource a = "logs" -> active_period a = Some "always" ->
  threshold a <= Z.of_nat (List.length (log_file st)) ->
  exists t, get_triggered_alarm (run (ws ++ [w]) st) = Some t /\ resource (rule t) = "logs".
Proof.
  intros Hok Hin Hres Hper Hthr.
  unfold run; rewrite fold_left_app; cbn [fold_left].
  fold (run ws st).
  destruct (run_frames ws st) as (Hal & _ & l & Hlog).
  apply run_tick_logs_alarm with a; try assumption.
  - apply Hok, in_or_app; right; now left.
  - now rewrite Hal.
  - rewrite Hlog, length_app; lia.
Qed.

Lemma logs_alarm_never_ends_witness :
  let w := mk_world 10 "2025-01-01T10:00:00" "id-3" (inr (mk_metrics 10 10 10)) true None
                    false None MailNotConfigured in
  let l2 := mk_alarm "id-1" (PStr "Log flood") "logs" 2 (Some "always") in
  let st := mk_state [l2] None (JsonList [l2]) [Alert_email_sent; Alert_email_sent] in
  exists t, get_triggered_alarm (run [w; w; w] st) = Some t /\ resource (rule t) = "logs".
Proof.
  intros w l2 st.
  apply (logs_alarm_never_ends [w; w] w st l2).
  - intros w' [<-|[<-|[<-|[]]]]; reflexivity.
  - now left.
  - reflexivity.
  - reflexivity.
  - simpl; lia.
Defined.

(** ** Acknowledging *)

Lemma get_system_usage_acknowledge w st :
  get_system_usage w (acknowledge st)
  = (fst (get_system_usage w st), acknowledge (snd (get_system_usage w st))).
Proof.
  unfold get_system_usage, acknowledge, log_event.
  destruct (psutil_sample w); [destruct (log_dir_ok w)|]; reflexivity.
Qed.

(** X15.  An acknowledgement holds only while nothing breaches.  After
    the console has cleared the triggered alarm, the next pass of the
    monitor loop that can read the log sets it again, to exactly what it
    would have been without the acknowledgement, if some rule breaches in
    that pass; if none does, the alarm stays cleared. *)
Theorem acknowledge_then_tick (w : world) (st : state) :
  log_dir_ok w = true ->
  let u := tick_usage w st in
  let n := tick_log_count w st in
  (breaching_resources w u n st <> [] ->
   get_triggered_alarm (run_tick w (acknowledge st)) = get_triggered_alarm (run_tick w st)
   /\ get_triggered_alarm (run_tick w (acknowledge st)) <> None)
  /\ (breaching_resources w u n st = [] ->
      get_triggered_alarm (run_tick w (acknowledge st)) = None).
Proof.
  intros Hok u n.
  assert (Hu : tick_usage w (acknowledge st) = u)
    by (unfold u, tick_usage; now rewrite get_system_usage_acknowledge).
  assert (Hn : tick_log_count w (acknowledge st) = n)
    by (unfold n, tick_log_count; now rewrite get_system_usage_acknowledge).
  unfold get_triggered_alarm.
  rewrite !run_tick_evaluates by assumption.
  rewrite Hu, Hn; fold u n.
  rewrite get_system_usage_acknowledge; cbn [snd].
  set (st1 := snd (get_system_usage w st)).
  assert (Hal : alarms st1 = alarms st) by apply get_system_usage_alarms.
  split.
  - intros Hne.
    destruct (check_resources_last_breaching w u n st1) as (a & Ha & _ & Ht);
      [now rewrite (breaching_resources_alarms _ _ _ st)|].
    destruct (check_resources_last_breaching w u n (acknowledge st1)) as (a' & Ha' & _ & Ht');
      [now rewrite (breaching_resources_alarms _ _ _ st)|].
    rewrite (breaching_resources_alarms _ _ _ st1) in Ha', Ht' by reflexivity.
    rewrite (winner_alarms _ _ _ st1 (acknowledge st1)) in Ha' by reflexivity.
    rewrite Ht, Ht'.
    split; [congruence|discriminate].
  - intros Hnone.
    rewrite check_resources_no_breach; [reflexivity|].
    intros r Hr.
    rewrite (resource_breaches_alarms _ _ _ st) by exact Hal.
    destruct (resource_breaches w u n st r) eqn:E; [|reflexivity].
    assert (In r (breaching_resources w u n st))
      by (apply filter_In; now split).
    rewrite Hnone in H; destruct H.
Qed.

Lemma acknowledge_then_tick_witness :
  let w := mk_world 10 "2025-01-01T10:00:02" "id-3" (inr (mk_metrics 90 10 10)) true None
                    false None MailNotConfigured in
  let c85 := mk_alarm "id-1" (PStr "CPU critical") "cpu" 85 (Some "always") in
  let st := mk_state [c85] (Some (mk_triggered c85 (NFloat 99) "2025-01-01T10:00:00"))
                     (JsonList [c85]) [] in
  get_triggered_alarm (run_tick w (acknowledge st)) <> None
  /\ get_triggered_alarm (run_tick w (acknowledge (set_alarms [] st))) = None.
Proof.
  intros w c85 st.
  destruct (acknowledge_then_tick w st eq_refl) as [Hagain _].
  destruct (acknowledge_then_tick w (set_alarms [] st) eq_refl) as [_ Hquiet].
  split.
  - apply Hagain; discriminate.
  - apply Hquiet; reflexivity.
Defined.

(** ** The callers of [remove_alarm] *)

(** X16.  An id that is not a string removes nothing.  The stored ids are
    strings, so [remove_alarm] called with an integer, as the GUI calls it
    after [int(alarm_id)], or with [None], returns [False] and leaves the
    state as it was, whatever the store holds. *)
Theorem remove_alarm_needs_string_id (w : world) (i : pyval) (st : state) :
  (forall s, i <> PStr s) -> remove_alarm w i st = (false, st).
Proof.
  intros H; apply remove_alarm_absent.
  intros a _ E; now apply (H (id a)).
Qed.

Lemma remove_alarm_needs_string_id_witness :
  let w := mk_world 10 "2025-01-01T10:00:02" "id-3" (inr (mk_metrics 90 10 10)) true None
                    false None MailNotConfigured in
  let c85 := mk_alarm "17" (PStr "CPU critical") "cpu" 85 (Some "always") in
  let st := mk_state [c85] None (JsonList [c85]) [] in
  remove_alarm w (PInt 17) st = (false, st).
Proof.
  intros w c85 st.
  apply (remove_alarm_needs_string_id w (PInt 17) st).
  intros s; discriminate.
Defined.

(** X17.  A rule the console lists can be removed.  For every position of
    the list [get_alarms] returns, [remove_alarm] called with the id of the
    rule at that position, as [remove_alarm_menu] does, returns [True]; the
    rule is gone from the store afterwards, and the rules with another id
    all stay, in their order. *)
Theorem listed_rule_can_be_removed (w : world) (st : state) (k : nat) (a : alarm) :
  nth_error (get_alarms st) k = Some a ->
  let st' := snd (remove_alarm w (PStr (id a)) st) in
  fst (remove_alarm w (PStr (id a)) st) = true
  /\ ~ In a (alarms st')
  /\ (List.length (alarms st') < List.length (alarms st))%nat
  /\ filter (fun b => negb (String.eqb (id b) (id a))) (alarms st')
     = filter (fun b => negb (String.eqb (id b) (id a))) (alarms st).
Proof.
  intros Hk st'.
  assert (Hin : In a (alarms st)).
  { apply nth_error_In in Hk; revert Hk; apply sorted_In. }
  assert (Hal : alarms st' = filter (fun b => negb (String.eqb (id b) (id a))) (alarms st))
    by (unfold st'; now rewrite remove_alarm_alarms).
  split; [apply remove_alarm_found_iff; now exists a|].
  split.
  { rewrite Hal; intros H; apply filter_In in H; destruct H as [_ H].
    now rewrite String.eqb_refl in H. }
  split.
  { rewrite Hal; apply filter_drops_one with a; [assumption|].
    now rewrite String.eqb_refl. }
  rewrite Hal; apply filter_idem.
Qed.

Lemma listed_rule_can_be_removed_witness :
  let w := mk_world 10 "2025-01-01T10:00:02" "id-3" (inr (mk_metrics 90 10 10)) true None
                    false None MailNotConfigured in
  let l5 := mk_alarm "id-1" (PStr "Logs") "logs" 5 (Some "always") in
  let c85 := mk_alarm "id-2" (PStr "CPU") "cpu" 85 (Some "always") in
  let st := mk_state [l5; c85] None (JsonList [l5; c85]) [] in
  fst (remove_alarm w (PStr "id-2") st) = true.
Proof.
  intros w l5 c85 st.
  apply (listed_rule_can_be_removed w st 0 c85).
  reflexivity.
Defined.

(** ** Triggering and notifying *)

Lemma send_alert_email_lines w st :
  log_dir_ok w = true ->
  match send_alert_email w st with
  | inl (_, st') => log_file st' = log_file st
  | inr (sent, st') =>
      exists l, log_file st' = log_file st ++ l
                /\ (1 <= List.length l <= 2)%nat
                /\ (sent = true <-> mail w = MailSent)
  end.
Proof.
  intros Hok; unfold send_alert_email, log_event; rewrite Hok.
  destruct (mail w) eqn:Em; [reflexivity| | |];
    destruct (mail_config_error w); cbn [log_file set_log_file];
    rewrite <- ?app_assoc;
    eexists; (split; [reflexivity|]); (split; [simpl; lia|]);
    split; congruence.
Qed.

(** X18.  Triggering survives the notification.  [_trigger_alarm] sets the
    triggered alarm to a copy of the rule with the current value, and
    leaves the rules alone, whatever happens to the e-mail: not configured,
    sent, refused by the server, or raising.  An e-mail is attempted for a
    logs rule, and for any rule when [ALERT_ON_ANY_ALARM] is set; when the
    log can be written, a trigger without e-mail writes one line, the alarm
    line, and a trigger with e-mail writes the alarm line first and one or
    two lines about the e-mail after it. *)
Theorem trigger_alarm_survives_notification (w : world) (a : alarm) (v : pynum)
    (st : state) :
  get_triggered_alarm (_trigger_alarm w a v st) = Some (mk_triggered a v (now_iso w))
  /\ alarms (_trigger_alarm w a v st) = alarms st
  /\ alarms_file (_trigger_alarm w a v st) = alarms_file st
  /\ (log_dir_ok w = true ->
      upper (resource a) <> "LOGS" -> alert_any w = false ->
      log_file (_trigger_alarm w a v st)
      = log_file st ++ [usage_alarm_triggered_percent (upper (resource a)) (threshold a)])
  /\ (log_dir_ok w = true ->
      resource a = "logs" ->
      exists l, log_file (_trigger_alarm w a v st)
                = log_file st ++ Security_Alert_Log_Count_Exceeds v (threshold a) :: l
                /\ (1 <= List.length l <= 2)%nat).
Proof.
  split; [apply trigger_alarm_triggered|].
  split; [apply trigger_alarm_alarms|].
  split; [apply trigger_alarm_alarms_file|].
  split.
  - intros Hok Hres Hany.
    unfold _trigger_alarm.
    apply String.eqb_neq in Hres; rewrite Hres, Hany; cbn [orb].
    unfold log_event; rewrite Hok; reflexivity.
  - intros Hok Hres.
    unfold _trigger_alarm; rewrite Hres.
    change (String.eqb (upper "logs") "LOGS") with true; cbn [orb].
    set (st2 := set_triggered_alarm _ _).
    assert (H2 : log_file st2
                 = log_file st ++ [Security_Alert_Log_Count_Exceeds v (threshold a)])
      by (unfold st2, log_event; rewrite Hok; reflexivity).
    pose proof (send_alert_email_lines w st2 Hok) as Hm.
    destruct (send_alert_email w st2) as [[e s]|[b s]].
    + exists [Failed_to_send_alert_notification e].
      split; [|simpl; lia].
      unfold log_event; rewrite Hok; cbn [log_file set_log_file].
      rewrite Hm, H2, <- app_assoc; reflexivity.
    + destruct Hm as (l & Hl & Hlen & _).
      exists l; split; [|exact Hlen].
      rewrite Hl, H2, <- app_assoc; reflexivity.
Qed.

Lemma trigger_alarm_survives_notification_witness :
  let w := mk_world 10 "2025-01-01T10:00:02" "id-3" (inr (mk_metrics 90 10 10)) true None
                    false None (MailRaised "invalid literal for int()") in
  let l5 := mk_alarm "id-1" (PStr "Logs") "logs" 5 (Some "always") in
  let c85 := mk_alarm "id-2" (PStr "CPU") "cpu" 85 (Some "always") in
  let st := mk_state [l5; c85] None (JsonList [l5; c85]) [] in
  log_file (_trigger_alarm w c85 (NFloat 90) st) = [usage_alarm_triggered_percent "CPU" 85]
  /\ exists l, log_file (_trigger_alarm w l5 (NInt 7) st)
               = Security_Alert_Log_Count_Exceeds (NInt 7) 5 :: l.
Proof.
  intros w l5 c85 st.
  destruct (trigger_alarm_survives_notification w c85 (NFloat 90) st) as (_ & _ & _ & Hc & _).
  destruct (trigger_alarm_survives_notification w l5 (NInt 7) st) as (_ & _ & _ & _ & Hl).
  split.
  - apply Hc; [reflexivity|discriminate|reflexivity].
  - destruct (Hl eq_refl eq_refl) as (l & E & _).
    exists l; exact E.
Defined.

(** ** [_check_alarms] and the loop *)

(** On rules of one resource, sorting does not change what [max] picks. *)
Lemma py_max_sorted (l : list alarm) (r : string) (x y : alarm) (l1 l2 : list alarm) :
  (forall b, In b l -> resource b = r) ->
  l = x :: l1 -> sorted sort_key l = y :: l2 ->
  py_max threshold y l2 = py_max threshold x l1.
Proof.
  intros Hres Hl Hs.
  set (a := py_max threshold x l1).
  set (a' := py_max threshold y l2).
  assert (Hperm : forall b, In b (y :: l2) <-> In b (x :: l1))
    by (intros b; rewrite <- Hs, <- Hl; apply sorted_In).
  assert (Hw : threshold a' = threshold a).
  { assert (threshold a' <= threshold a)
      by (apply py_max_greatest, Hperm, py_max_In).
    assert (threshold a <= threshold a')
      by (apply py_max_greatest, Hperm, py_max_In).
    lia. }
  set (eqm := fun b : alarm => threshold b =? threshold a).
  destruct (py_max_split threshold l1 x) as (s1 & s2 & E & H1 & _); fold a in E, H1.
  destruct (py_max_split threshold l2 y) as (t1 & t2 & E' & H1' & _); fold a' in E', H1'.
  assert (F : filter eqm l = a :: filter eqm s2).
  { rewrite Hl, E, filter_app, filter_none.
    - simpl; unfold eqm at 1; now rewrite Z.eqb_refl.
    - intros b Hb; unfold eqm; apply Z.eqb_neq; specialize (H1 b Hb); lia. }
  assert (F' : filter eqm (sorted sort_key l) = a' :: filter eqm t2).
  { rewrite Hs, E', filter_app, filter_none.
    - simpl; unfold eqm at 1; now rewrite Hw, Z.eqb_refl.
    - intros b Hb; unfold eqm; apply Z.eqb_neq; specialize (H1' b Hb); lia. }
  rewrite filter_sorted_same_key in F'.
  - rewrite F in F'; now injection F'.
  - intros b c Hb Hc Eb Ec.
    unfold eqm in Eb, Ec; apply Z.eqb_eq in Eb, Ec.
    unfold sort_key; rewrite (Hres b Hb), (Hres c Hc); congruence.
Qed.

Lemma check_alarms_step w u n s r :
  logs_percent u = Some (NInt n) ->
  (forall a, In a (alarms s) -> _is_alarm_active (now_hour w) a = true) ->
  (let current := usage_get u (String.append r "_percent") (NInt 0) in
   match filter (fun a => String.eqb (resource a) r && int_le_num (threshold a) current)
                (alarms s) with
   | [] => s
   | x :: resource_alarms => _trigger_alarm w (py_max threshold x resource_alarms) current s
   end) = check_resource w u n s r.
Proof.
  intros Hlogs Hact; cbv zeta.
  assert (Hcur : usage_get u (String.append r "_percent") (NInt 0) = current_value_of u n r).
  { unfold current_value_of.
    destruct (String.eqb r "logs") eqn:E; [|reflexivity].
    apply String.eqb_eq in E; subst r.
    unfold usage_get; cbn [String.append String.eqb Ascii.eqb Bool.eqb].
    now rewrite Hlogs. }
  rewrite Hcur.
  unfold check_resource, get_alarms.
  set (cand := fun a => String.eqb (resource a) r
                        && int_le_num (threshold a) (current_value_of u n r)).
  rewrite (filter_sorted sort_key cand).
  assert (Hres : forall b, In b (filter cand (alarms s)) -> resource b = r).
  { intros b Hb; apply filter_In in Hb; destruct Hb as [_ Hb].
    apply andb_true_iff in Hb; destruct Hb as [Hb _]; now apply String.eqb_eq. }
  assert (Hall : filter (_is_alarm_active (now_hour w)) (sorted sort_key (filter cand (alarms s)))
                 = sorted sort_key (filter cand (alarms s))).
  { apply filter_keeps_all; intros b Hb.
    apply sorted_In in Hb; apply filter_In in Hb; now apply Hact. }
  destruct (filter cand (alarms s)) as [|x l1] eqn:EL.
  - reflexivity.
  - destruct (sorted sort_key (x :: l1)) as [|y l2] eqn:ES.
    + assert (In x []) by (rewrite <- ES; apply sorted_In; now left).
      contradiction.
    + rewrite Hall.
      now rewrite (py_max_sorted (x :: l1) r x y l1 l2 Hres eq_refl ES).
Qed.

(** X19.  [_check_alarms] is the loop without periods, after a reset.  On
    a store whose rules are all active at the current hour, and a usage
    dictionary that holds the log count under [logs_percent],
    [_check_alarms] leaves exactly the state that the loop of the monitor
    thread leaves when it starts from a cleared triggered alarm: the same
    triggered alarm, the same log lines. *)
Theorem check_alarms_is_loop_after_reset (w : world) (u : usage) (n : Z) (st : state) :
  logs_percent u = Some (NInt n) ->
  (forall a, In a (alarms st) -> _is_alarm_active (now_hour w) a = true) ->
  _check_alarms w u st = check_resources w u n (acknowledge st).
Proof.
  intros Hlogs Hact.
  unfold _check_alarms, check_resources, acknowledge.
  assert (Hact' : forall a, In a (alarms (set_triggered_alarm None st)) ->
                            _is_alarm_active (now_hour w) a = true) by exact Hact.
  revert Hact'; generalize (set_triggered_alarm None st) as s.
  generalize AVAILABLE_RESOURCES as rs.
  induction rs as [|r rs IH]; intros s Hs; cbn [fold_left]; [reflexivity|].
  match goal with
  | |- fold_left _ rs ?X = _ =>
      replace X with (check_resource w u n s r)
        by (symmetry; exact (check_alarms_step w u n s r Hlogs Hs))
  end.
  apply IH.
  intros a Ha; rewrite check_resource_alarms in Ha; now apply Hs.
Qed.

Lemma check_alarms_is_loop_after_reset_witness :
  let w := mk_world 10 "2025-01-01T10:00:02" "id-3" (inr (mk_metrics 90 10 10)) true None
                    false None MailNotConfigured in
  let c85 := mk_alarm "id-1" (PStr "CPU critical") "cpu" 85 (Some "office") in
  let l5 := mk_alarm "id-2" (PStr "Logs") "logs" 5 (Some "always") in
  let st := mk_state [l5; c85] (Some (mk_triggered c85 (NFloat 99) "2025-01-01T09:00:00"))
                     (JsonList [l5; c85]) [] in
  let u := mk_usage (NFloat 90) (NFloat 10) (NFloat 10) (Some (NInt 3)) in
  _check_alarms w u st = check_resources w u 3 (acknowledge st).
Proof.
  intros w c85 l5 st u.
  apply (check_alarms_is_loop_after_reset w u 3 st).
  - reflexivity.
  - intros a [<-|[<-|[]]]; reflexivity.
Defined.

(** ** Rules that come and go *)

Lemma run_triggered_is_stored ws st :
  triggered_is_stored st -> triggered_is_stored (run ws st).
Proof.
  unfold run; revert st.
  induction ws as [|w ws IH]; intros st H; simpl; [exact H|].
  apply IH.
  exact (step_triggered_is_stored st (w, OpTick) H).
Qed.

(** X20.  A rule takes effect at the next pass.  After [add_alarm] has
    stored a rule, a pass of the monitor loop that can read the log, at an
    hour the rule's period covers and with a value of the rule's resource
    that reaches its threshold, ends with a triggered alarm; the winner of
    that resource in the pass has a threshold at least that of the new
    rule. *)
Theorem added_rule_is_live (w w' : world) (r per : string) (t : Z) (nm : pyval)
    (st : state) :
  In r AVAILABLE_RESOURCES -> valid_threshold r t -> In per valid_periods ->
  let st1 := snd (add_alarm w (PStr r) (PInt t) nm (PStr per) st) in
  let new := mk_alarm (uuid4 w) (if truthy nm then nm else PStr (default_name r t))
                      r t (Some per) in
  let u := tick_usage w' st1 in
  let n := tick_log_count w' st1 in
  log_dir_ok w' = true ->
  _is_alarm_active (now_hour w') new = true ->
  int_le_num t (current_value_of u n r) = true ->
  In new (get_alarms st1)
  /\ get_triggered_alarm (run_tick w' st1) <> None
  /\ exists a, winner w' u n st1 r = Some a /\ t <= threshold a.
Proof.
  intros Hr Ht Hper st1 new u n Hok Hact Hle.
  assert (Hnew : resource new = r /\ threshold new = t) by (split; reflexivity).
  destruct Hnew as [Hnr Hnt].
  assert (Hal : alarms st1 = alarms st ++ [new]).
  { unfold st1; rewrite add_alarm_valid by assumption; apply store_new_alarm_alarms. }
  assert (Hin : In new (alarms st1)) by (rewrite Hal; apply in_or_app; right; now left).
  assert (Hbr : resource_breaches w' u n st1 r = true).
  { apply existsb_exists; exists new; split; [assumption|].
    unfold breaching.
    now rewrite Hnr, Hnt, String.eqb_refl, Hle, Hact. }
  split; [unfold get_alarms; now apply sorted_In|].
  split.
  - unfold get_triggered_alarm.
    rewrite run_tick_evaluates by assumption; fold u n.
    destruct (check_resources_last_breaching w' u n (snd (get_system_usage w' st1)))
      as (a & _ & _ & E); [|rewrite E; discriminate].
    rewrite (breaching_resources_alarms _ _ _ st1) by apply get_system_usage_alarms.
    intros Hnil.
    assert (H : In r (breaching_resources w' u n st1)) by (apply filter_In; now split).
    rewrite Hnil in H; destruct H.
  - apply winner_Some in Hbr; destruct Hbr as [a Ha].
    exists a; split; [assumption|].
    apply winner_highest in Ha; destruct Ha as (_ & _ & Hmax).
    rewrite <- Hnt; apply (Hmax new Hin).
    unfold breaching.
    now rewrite Hnr, Hnt, String.eqb_refl, Hle, Hact.
Qed.

Lemma added_rule_is_live_witness :
  let w := mk_world 10 "2025-01-01T10:00:02" "id-3" (inr (mk_metrics 90 10 10)) true None
                    false None MailNotConfigured in
  let st := mk_state [] None (JsonList []) [] in
  let st1 := snd (add_alarm w (PStr "cpu") (PInt 85) PNone (PStr "office") st) in
  get_triggered_alarm (run_tick w st1) <> None.
Proof.
  intros w st st1.
  destruct (added_rule_is_live w w "cpu" "office" 85 PNone st) as (_ & H & _).
  - simpl; tauto.
  - unfold valid_threshold; simpl; lia.
  - simpl; tauto.
  - reflexivity.
  - reflexivity.
  - reflexivity.
  - exact H.
Defined.

Lemma run_keeps_triggered ws st :
  triggered_alarm st <> None -> triggered_alarm (run ws st) <> None.
Proof.
  unfold run; revert st.
  induction ws as [|w ws IH]; intros st Hsome; simpl; [exact Hsome|].
  apply IH.
  destruct (run_tick_triggered_cases w st) as [E|(t & E & _)]; rewrite E;
    [assumption|discriminate].
Qed.

Lemma run_empty_store ws st :
  alarms st = [] -> triggered_alarm (run ws st) = triggered_alarm st.
Proof.
  unfold run; revert st.
  induction ws as [|w ws IH]; intros st Hnil; simpl; [reflexivity|].
  rewrite IH by now rewrite run_tick_alarms.
  apply run_tick_no_breach.
  intros r _; unfold resource_breaches; now rewrite Hnil.
Qed.

(** X21.  A removed rule does not come back as an alarm, unless the
    removal lands inside a pass.  On a manager whose triggered alarm, if
    any, belongs to a stored rule, once a [remove_alarm] call made between
    two passes of the monitor loop has returned, no number of passes leaves
    a triggered alarm carrying that id.  A [remove_alarm] call that lands
    inside a pass, after an iteration has read the rules and before it
    enters [_trigger_alarm], is different: when the iteration has selected
    rule [a] and the call removes the id of [a], the call returns [True] and
    [a] is gone from the store, yet the iteration makes [a] the triggered
    alarm; the triggered alarm is then no stored rule, no later pass clears
    it, and when the store is left empty every later pass leaves exactly
    this alarm. *)
Theorem remove_alarm_between_and_inside_passes (w w' : world) (st : state) :
  (triggered_is_stored st ->
   forall i ws t,
     get_triggered_alarm (run ws (snd (remove_alarm w' i st))) = Some t ->
     PStr (id (rule t)) <> i)
  /\ (forall u n r b,
        In b (alarms st) -> resource b = r ->
        int_le_num (threshold b) (current_value_of u n r) = true ->
        _is_alarm_active (now_hour w) b = true ->
        exists a,
          In a (alarms st)
          /\ get_triggered_alarm (check_resource w u n st r)
             = Some (mk_triggered a (current_value_of u n r) (now_iso w))
          /\ fst (remove_alarm w' (PStr (id a)) st) = true
          /\ alarms (check_resource_during w u n w' (CallRemove (PStr (id a))) st r)
             = filter (fun x => negb (pyval_eqb (PStr (id x)) (PStr (id a)))) (alarms st)
          /\ ~ In a (alarms (check_resource_during w u n w' (CallRemove (PStr (id a))) st r))
          /\ get_triggered_alarm
               (check_resource_during w u n w' (CallRemove (PStr (id a))) st r)
             = Some (mk_triggered a (current_value_of u n r) (now_iso w))
          /\ ~ triggered_is_stored
                 (check_resource_during w u n w' (CallRemove (PStr (id a))) st r)
          /\ (forall ws,
                get_triggered_alarm
                  (run ws (check_resource_during w u n w' (CallRemove (PStr (id a))) st r))
                <> None)
          /\ ((forall x, In x (alarms st) -> id x = id a) ->
              forall ws,
                get_triggered_alarm
                  (run ws (check_resource_during w u n w' (CallRemove (PStr (id a))) st r))
                = Some (mk_triggered a (current_value_of u n r) (now_iso w)))).
Proof.
  split.
  - intros Hinv i ws t Ht.
    assert (H1 : triggered_is_stored (snd (remove_alarm w' i st)))
      by exact (step_triggered_is_stored st (w', OpRemove i) Hinv).
    apply (run_triggered_is_stored ws) in H1.
    destruct (H1 t Ht) as [Hin _].
    destruct (run_frames ws (snd (remove_alarm w' i st))) as (Hal & _).
    rewrite Hal, remove_alarm_alarms in Hin.
    apply filter_In in Hin; destruct Hin as [_ Hin].
    now apply pyval_eqb_neq, negb_true_iff.
  - intros u n r b Hb Hr Hle Hact.
    pose proof (active_breach w u n st r b Hb Hr Hle Hact) as Hbr.
    apply winner_Some in Hbr; destruct Hbr as (a & Ha).
    destruct (winner_stored_and_reached w u n st r a Ha) as [Hin Hlea].
    exists a.
    set (st' := check_resource_during w u n w' (CallRemove (PStr (id a))) st r).
    assert (Est : st' = _trigger_alarm w a (current_value_of u n r)
                         (snd (remove_alarm w' (PStr (id a)) st))).
    { unfold st'; rewrite check_resource_during_winner, Ha; reflexivity. }
    assert (Hal : alarms st'
                  = filter (fun x => negb (pyval_eqb (PStr (id x)) (PStr (id a))))
                           (alarms st)).
    { now rewrite Est, trigger_alarm_alarms, remove_alarm_alarms. }
    assert (Htr : triggered_alarm st'
                  = Some (mk_triggered a (current_value_of u n r) (now_iso w))).
    { now rewrite Est, trigger_alarm_triggered. }
    assert (Hout : ~ In a (alarms st')).
    { rewrite Hal; intros Hf; apply filter_In in Hf; destruct Hf as [_ Hf].
      cbn [pyval_eqb] in Hf; rewrite String.eqb_refl in Hf; discriminate Hf. }
    split; [exact Hin|].
    split.
    { unfold get_triggered_alarm.
      now rewrite check_resource_winner, Ha, trigger_alarm_triggered. }
    split.
    { apply remove_alarm_found_iff; now exists a. }
    split; [exact Hal|].
    split; [exact Hout|].
    split; [exact Htr|].
    split.
    { intros Hinv; destruct (Hinv _ Htr) as [Hin' _]; now apply Hout. }
    split.
    { intros ws; unfold get_triggered_alarm.
      apply run_keeps_triggered; rewrite Htr; discriminate. }
    intros Hall ws; unfold get_triggered_alarm.
    rewrite run_empty_store; [exact Htr|].
    rewrite Hal; apply filter_none.
    intros x Hx; rewrite (Hall x Hx).
    cbn [pyval_eqb]; now rewrite String.eqb_refl.
Qed.

Lemma remove_alarm_between_and_inside_passes_witness :
  let w := mk_world 10 "2025-01-01T10:00:02" "id-3" (inr (mk_metrics 90 10 10)) true None
                    false None MailNotConfigured in
  let c85 := mk_alarm "id-1" (PStr "CPU critical") "cpu" 85 (Some "always") in
  let c70 := mk_alarm "id-2" (PStr "CPU warning") "cpu" 70 (Some "always") in
  let st := mk_state [c85; c70] (Some (mk_triggered c85 (NFloat 90) "2025-01-01T10:00:00"))
                     (JsonList [c85; c70]) [] in
  let one := mk_state [c85] None (JsonList [c85]) [] in
  let u := mk_usage (NFloat 90) (NFloat 10) (NFloat 10) (Some (NInt 0)) in
  let after := mk_triggered c70 (NFloat 90) "2025-01-01T10:00:02" in
  let ghost := mk_triggered c85 (NFloat 90) "2025-01-01T10:00:02" in
  let inside := check_resource_during w u 0 w (CallRemove (PStr "id-1")) one "cpu" in
  get_triggered_alarm (run [w; w] (snd (remove_alarm w (PStr "id-1") st))) = Some after
  /\ PStr (id (rule after)) <> PStr "id-1"
  /\ alarms inside = []
  /\ get_triggered_alarm inside = Some ghost
  /\ get_triggered_alarm (run [w; w; w] inside) = Some ghost
  /\ get_triggered_alarm (run_tick_during w "cpu" w (CallRemove (PStr "id-1")) one)
     = Some ghost
  /\ alarms (run_tick_during w "cpu" w (CallRemove (PStr "id-1")) one) = [].
Proof.
  intros w c85 c70 st one u after ghost inside.
  destruct (remove_alarm_between_and_inside_passes w w st) as [Hbetween _].
  destruct (remove_alarm_between_and_inside_passes w w one) as [_ Hinside].
  split; [reflexivity|].
  split.
  { apply Hbetween with (ws := [w; w]).
    - intros t0 [= <-]; split; [now left|reflexivity].
    - reflexivity. }
  destruct (Hinside u 0 "cpu" c85) as (a & [E|[]] & _ & _ & Hal & _ & Htr & _ & _ & Hstay).
  { now left. }
  { reflexivity. }
  { reflexivity. }
  { reflexivity. }
  subst a.
  split; [exact Hal|].
  split; [exact Htr|].
  split.
  { apply Hstay; intros x [<-|[]]; reflexivity. }
  split; reflexivity.
Defined.

